(** * Project synchronisation: a shallow embedding of [useProjectSync.ts]

    The development follows [src/ui/pages/projects/hooks/useProjectSync.ts]:
    change detection ([getRemoteChanges], [getLocalChanges], [getConflicts]),
    the upload-eligibility checks ([findClosest], [isFileWritable],
    [getFilesToUpload], ...) and the orchestrator [useProjectSync], which is
    a [taskEither] pipeline over the file system, the signed API and the
    project repository.

    The source file holds two revisions of the hook.  The orchestrator and
    the checks are taken from the one whose callback takes the [force]
    option; it imports [getRemoteChanges], [getLocalChanges] and
    [getConflicts] from [domain/FileState], and these are taken from the
    other revision, which defines them in the file itself. *)

From Stdlib Require Import List Ascii String ZArith Bool Lia Sorted Permutation.
From stdpp Require Import base strings gmap pretty.
Import ListNotations.
Local Open Scope Z_scope.

(** ** Domain model *)

(** [FileEntryType] is ['file' | 'dir'], [FilePermissions] is ['r' | 'rw']. *)
Inductive FileEntryType := tFile | tDir.
Inductive FilePermissions := pR | pRW.

#[global] Instance FileEntryType_eq_dec : EqDecision FileEntryType.
Proof. solve_decision. Defined.
#[global] Instance FilePermissions_eq_dec : EqDecision FilePermissions.
Proof. solve_decision. Defined.

(** TypeScript's structural typing lets [getRemoteChanges] take any array
    whose elements have [path], [type] and [version]; the fields are
    overloaded here through operational classes. *)
Class HasPath (A : Type) := path : A -> string.
Class HasType (A : Type) := type : A -> FileEntryType.
Class HasVersion (A : Type) := version : A -> Z.
Class HasHash (A : Type) := hash : A -> string.
Class HasPermissions (A : Type) := permissions : A -> FilePermissions.

(** [RemoteFileInfo]: an entry of the remote inventory. *)
Record RemoteFileInfo := mkRemoteFileInfo {
  rfi_path : string;
  rfi_version : Z;
  rfi_type : FileEntryType;
  rfi_permissions : FilePermissions }.

(** [File] (imported as [FileInfo]): an entry of the persisted baseline. *)
Record FileInfo := mkFileInfo {
  fi_path : string;
  fi_version : Z;
  fi_hash : string;
  fi_type : FileEntryType;
  fi_permissions : FilePermissions }.

(** [LocalFileState]: what the scan of the project directory observes. *)
Record LocalFileState := mkLocalFileState {
  lfs_path : string;
  lfs_type : FileEntryType;
  lfs_hash : string }.

(** A node of the local directory tree, as [readDirTree] yields it. *)
Record FsNode := mkFsNode {
  node_path : string;
  node_type : FileEntryType }.

#[global] Instance FsNode_path : HasPath FsNode := node_path.
#[global] Instance FsNode_type : HasType FsNode := node_type.
#[global] Instance RemoteFileInfo_path : HasPath RemoteFileInfo := rfi_path.
#[global] Instance RemoteFileInfo_type : HasType RemoteFileInfo := rfi_type.
#[global] Instance RemoteFileInfo_version : HasVersion RemoteFileInfo := rfi_version.
#[global] Instance RemoteFileInfo_permissions : HasPermissions RemoteFileInfo :=
  rfi_permissions.
#[global] Instance FileInfo_path : HasPath FileInfo := fi_path.
#[global] Instance FileInfo_type : HasType FileInfo := fi_type.
#[global] Instance FileInfo_version : HasVersion FileInfo := fi_version.
#[global] Instance FileInfo_hash : HasHash FileInfo := fi_hash.
#[global] Instance FileInfo_permissions : HasPermissions FileInfo := fi_permissions.
#[global] Instance LocalFileState_path : HasPath LocalFileState := lfs_path.
#[global] Instance LocalFileState_type : HasType LocalFileState := lfs_type.
#[global] Instance LocalFileState_hash : HasHash LocalFileState := lfs_hash.

(** The tagged unions [RemoteFileChange['change']] and
    [LocalFileChange['change']], with the constructor names of
    [remoteFileChange] and [localFileChange]. *)
Module remoteFileChange.
Inductive t :=
| noChange
| updated (version : Z)
| removed
| added (version : Z).
End remoteFileChange.

Module localFileChange.
Inductive t := noChange | updated | removed | added.
End localFileChange.

Record RemoteFileChange := mkRemoteFileChange {
  rfc_path : string;
  rfc_change : remoteFileChange.t }.

Record LocalFileChange := mkLocalFileChange {
  lfc_path : string;
  lfc_change : localFileChange.t }.

Record Conflict := mkConflict {
  c_path : string;
  changeRemote : remoteFileChange.t;
  changeLocal : localFileChange.t }.

#[global] Instance RemoteFileChange_path : HasPath RemoteFileChange := rfc_path.
#[global] Instance LocalFileChange_path : HasPath LocalFileChange := lfc_path.

#[global] Instance remoteFileChange_eq_dec : EqDecision remoteFileChange.t.
Proof. solve_decision. Defined.
#[global] Instance localFileChange_eq_dec : EqDecision localFileChange.t.
Proof. solve_decision. Defined.
#[global] Instance RemoteFileChange_eq_dec : EqDecision RemoteFileChange.
Proof. solve_decision. Defined.
#[global] Instance LocalFileChange_eq_dec : EqDecision LocalFileChange.
Proof. solve_decision. Defined.

(** [SyncException], from [domain/SyncException]. *)
Inductive SyncException :=
| conflictingChanges
| readOnlyFilesChanged (path reason : string)
| invalidFilename (name : string)
| fileSystemCorrupted (path reason : string)
| projectDirMissing
| networkError (reason : string).

#[global] Instance SyncException_eq_dec : EqDecision SyncException.
Proof. solve_decision. Defined.

(** ** The fp-ts functions the pipeline uses

    [option], [array] and [nonEmptyArray] come from fp-ts (re-exported by
    the prelude); they are written out with the argument order of their
    curried, [pipe]-friendly forms. *)

Module option.
(** [option.exists(p)]: the option holds a value that satisfies [p]. *)
Definition exists_ {A} (p : A -> bool) (o : option A) : bool :=
  match o with Some a => p a | None => false end.

(** [option.filter(p)]. *)
Definition filter {A} (p : A -> bool) (o : option A) : option A :=
  match o with Some a => if p a then Some a else None | None => None end.

(** [option.sequenceS({ a, b })]: both present, or nothing. *)
Definition sequenceS {A B} (a : option A) (b : option B) : option (A * B) :=
  match a, b with Some x, Some y => Some (x, y) | _, _ => None end.

Definition chain {A B} (f : A -> option B) (o : option A) : option B :=
  match o with Some a => f a | None => None end.

(** [option.fold(() => [], array.of)]. *)
Definition toArray {A} (o : option A) : list A :=
  match o with Some a => [a] | None => [] end.
End option.

Module array.
(** [elem(E)(a, as)]: some element of [as] is [E]-equal to [a]. *)
Definition elem {A B} (E : B -> A -> bool) (a : A) (bs : list B) : bool :=
  existsb (fun element => E element a) bs.

(** [pipe(xs, difference(E)(ys))] is [xs.filter(a => !elem(E)(a, ys))]. *)
Definition difference {A B} (E : B -> A -> bool) (ys : list B) (xs : list A)
  : list A :=
  List.filter (fun a => negb (elem E a ys)) xs.

(** [pipe(xs, intersection(E)(ys))] is [xs.filter(a => elem(E)(a, ys))]. *)
Definition intersection {A B} (E : B -> A -> bool) (ys : list B) (xs : list A)
  : list A :=
  List.filter (fun a => elem E a ys) xs.

Definition findFirst {A} (p : A -> bool) (xs : list A) : option A :=
  List.find p xs.

(** [array.sort(ord.contramap(key)(number.Ord))]: a stable sort by an
    integer key, smallest first. *)
Fixpoint insertBy {A} (key : A -> nat) (x : A) (sorted : list A) : list A :=
  match sorted with
  | [] => [x]
  | y :: rest =>
      if Nat.leb (key x) (key y) then x :: y :: rest
      else y :: insertBy key x rest
  end.

Definition sortBy {A} (key : A -> nat) (xs : list A) : list A :=
  fold_right (insertBy key) [] xs.
End array.

Module nonEmptyArray.
(** [nonEmptyArray.fromArray]: [none] for the empty array.  An
    [Option<NonEmptyArray<A>>] is an [option (list A)] whose list, when
    present, is not empty. *)
Definition fromArray {A} (xs : list A) : option (list A) :=
  match xs with [] => None | _ :: _ => Some xs end.
End nonEmptyArray.

(** ** Change detection *)

(** Modelled from the spec: [isFile] of [domain/File] is not under src; only
    entries with [type = 'file'] take part in diffing. *)
Definition isFile {A} `{HasType A} (x : A) : bool :=
  bool_decide (type x = tFile).

(** [eqPath = eq.struct({ path: string.Eq })]. *)
Definition eqPath {A B} `{HasPath A} `{HasPath B} (a : A) (b : B) : bool :=
  String.eqb (path a) (path b).

Definition getRemoteChanges {A B}
  `{HasPath A} `{HasType A} `{HasVersion A}
  `{HasPath B} `{HasType B} `{HasVersion B}
  (previous : list A) (latest : list B) : option (list RemoteFileChange) :=
  let previousFiles := List.filter isFile previous in
  let latestFiles := List.filter isFile latest in
  let removed :=
    map (fun x => mkRemoteFileChange (path x) remoteFileChange.removed)
      (array.difference eqPath latestFiles previousFiles) in
  let added :=
    map (fun x => mkRemoteFileChange (path x) (remoteFileChange.added (version x)))
      (array.difference eqPath previousFiles latestFiles) in
  let updated :=
    map (fun x => mkRemoteFileChange (path x) (remoteFileChange.updated (version x)))
      (List.filter
         (fun ls =>
            option.exists_ (fun cs => negb (version cs =? version ls))
              (array.findFirst (fun cs => String.eqb (path cs) (path ls)) latestFiles))
         previousFiles) in
  nonEmptyArray.fromArray (removed ++ added ++ updated).

Definition getLocalChanges {A B}
  `{HasPath A} `{HasType A} `{HasHash A}
  `{HasPath B} `{HasType B} `{HasHash B}
  (previous : list A) (latest : list B) : option (list LocalFileChange) :=
  let previousFiles := List.filter isFile previous in
  let latestFiles := List.filter isFile latest in
  let removed :=
    map (fun x => mkLocalFileChange (path x) localFileChange.removed)
      (array.difference eqPath latestFiles previousFiles) in
  let added :=
    map (fun x => mkLocalFileChange (path x) localFileChange.added)
      (array.difference eqPath previousFiles latestFiles) in
  let updated :=
    map (fun '(_, latest) => mkLocalFileChange (path latest) localFileChange.updated)
      (List.filter
         (fun '(previous, latest) => negb (String.eqb (hash latest) (hash previous)))
         (flat_map
            (fun previous =>
               map (fun latest => (previous, latest))
                 (option.toArray
                    (array.findFirst (fun latest => eqPath previous latest)
                       latestFiles)))
            previousFiles)) in
  nonEmptyArray.fromArray (removed ++ added ++ updated).

Definition getConflicts (local : list LocalFileChange)
  (remote : list RemoteFileChange) : option (list Conflict) :=
  let conflicts :=
    map (fun changeLocal =>
           mkConflict (path changeLocal)
             (match array.findFirst (fun changeRemote => eqPath changeLocal changeRemote)
                      remote with
              | Some c => rfc_change c
              | None => remoteFileChange.noChange
              end)
             (lfc_change changeLocal))
      (array.intersection eqPath remote local) in
  nonEmptyArray.fromArray conflicts.

(** ** Outcomes of a [TaskEither<SyncException, A>]

    A [TaskEither] resolves to [Right a] or [Left e].  Two more outcomes are
    needed for the code as written: a promise rejected by a [throw] or a
    [panic] ([Thrown]), and a recursion through [dirname] that does not end
    within the given number of steps ([Diverged]). *)
Inductive Outcome (A : Type) :=
| Right (a : A)
| Left (e : SyncException)
| Thrown
| Diverged.
Arguments Right {A} a.
Arguments Left {A} e.
Arguments Thrown {A}.
Arguments Diverged {A}.

Module taskEither.
Definition of_ {A} (a : A) : Outcome A := Right a.

Definition chain {A B} (f : A -> Outcome B) (m : Outcome A) : Outcome B :=
  match m with
  | Right a => f a
  | Left e => Left e
  | Thrown => Thrown
  | Diverged => Diverged
  end.

Definition map {A B} (f : A -> B) (m : Outcome A) : Outcome B :=
  chain (fun a => Right (f a)) m.

(** [chainFirst(f)]: run [f] for its failure only, keep the first value. *)
Definition chainFirst {A B} (f : A -> Outcome B) (m : Outcome A) : Outcome A :=
  chain (fun a => map (fun _ => a) (f a)) m.

Definition filterOrElse {A} (p : A -> bool) (onFalse : A -> SyncException)
  (m : Outcome A) : Outcome A :=
  chain (fun a => if p a then Right a else Left (onFalse a)) m.

Definition fromPredicate {A} (p : A -> bool) (onFalse : A -> SyncException)
  (a : A) : Outcome A :=
  if p a then Right a else Left (onFalse a).

Definition fromOption {A} (onNone : SyncException) (o : option A) : Outcome A :=
  match o with Some a => Right a | None => Left onNone end.

Definition fromEither {A} (e : SyncException + A) : Outcome A :=
  match e with inl x => Left x | inr a => Right a end.

(** [traverseArray(f)]: the checks this file traverses with have no effect
    on the world, so the array is walked in order and the first failure is
    the result, as [Promise.all] over [Either]s gives it. *)
Fixpoint traverseArray {A B} (f : A -> Outcome B) (xs : list A)
  : Outcome (list B) :=
  match xs with
  | [] => Right []
  | x :: rest =>
      chain (fun y => map (cons y) (traverseArray f rest)) (f x)
  end.
End taskEither.

(** ** Path primitives

    [lib/tauri/path] and the name predicates of [domain/File] are not under
    src; the checks below take them as an interface. *)
Class PathApi := {
  (** [libPath.dirname]: the parent path, or an error message. *)
  dirname : string -> string + string;
  (** [libPath.basename]: a [TaskOption]. *)
  basename : string -> option string;
  (** [libPath.join] of the given segments. *)
  join : list string -> string;
  escape : string -> string;
  (** [libPath.stripAncestor(ancestor)(path)]. *)
  stripAncestor : string -> string -> string + string;
  isValidFileName : string -> bool;
  isValidDirName : string -> bool;
  (** [isVisibleFile(libPath)]: not an OS artefact. *)
  isVisibleFile : FsNode -> bool }.

(** ** Upload-eligibility checks *)

Section Validation.
Context `{PathApi}.

(** [findClosest(map)(relPath)]: the recursion goes through [dirname], so
    it is bounded by [fuel]; running out of it is [Diverged]. *)
Fixpoint findClosest {A} (fuel : nat) (map : string -> option A)
  (relPath : string) : Outcome A :=
  match fuel with
  | O => Diverged
  | S fuel' =>
      match map relPath with
      | Some a => taskEither.of_ a
      | None =>
          if String.eqb relPath "."
          then Left (fileSystemCorrupted relPath "Root directory must exist")
          else
            match dirname relPath with
            | inl reason => Left (fileSystemCorrupted relPath reason)
            | inr parent => findClosest fuel' map parent
            end
      end
  end.

Definition checkClosestExistingAncestorIsWritable (fuel : nat)
  (remote : list RemoteFileInfo) (c : LocalFileChange)
  : Outcome LocalFileChange :=
  taskEither.chainFirst
    (fun c : LocalFileChange =>
       taskEither.filterOrElse (fun b : bool => b)
         (fun _ =>
            readOnlyFilesChanged (path c) "Parent directory is read-only")
         (findClosest fuel
            (fun closestPath =>
               option_map
                 (fun i : RemoteFileInfo =>
                    bool_decide (permissions i = pRW))
                 (array.findFirst
                    (fun i : RemoteFileInfo => String.eqb (path i) closestPath)
                    remote))
            (path c)))
    (taskEither.of_ c).

Definition checkValidFileName (c : LocalFileChange) : Outcome LocalFileChange :=
  taskEither.chainFirst
    (fun c : LocalFileChange =>
       taskEither.filterOrElse isValidFileName
         (fun filename => invalidFilename filename)
         (taskEither.fromOption
            (fileSystemCorrupted (path c) "Could not determine basename of path")
            (basename (path c))))
    (taskEither.of_ c).

(** [ancestors] of [checkEveryNewAncestorIsValidDirName]: the unfold from
    the seed [either.of(path)].  A step stops on a [Left] seed and on ['.'],
    and otherwise emits [dirname] of the seed (or its error) and goes on
    from there. *)
Fixpoint ancestors (fuel : nat) (seed : SyncException + string)
  : option (list (SyncException + string)) :=
  match fuel with
  | O => None
  | S fuel' =>
      match seed with
      | inl _ => Some []
      | inr p =>
          if String.eqb p "." then Some []
          else
            let x :=
              match dirname p with
              | inl reason => inl (fileSystemCorrupted p reason)
              | inr parent => inr parent
              end in
            option_map (cons x) (ancestors fuel' x)
      end
  end.

(** [either.sequenceArray]: the first [Left], or all the [Right]s. *)
Fixpoint sequenceArray {E A} (xs : list (E + A)) : E + list A :=
  match xs with
  | [] => inr []
  | inl e :: _ => inl e
  | inr a :: rest =>
      match sequenceArray rest with
      | inl e => inl e
      | inr l => inr (a :: l)
      end
  end.

(** [array.traverse(taskOption.ApplicativePar)(f)]. *)
Fixpoint traverseOption {A B} (f : A -> option B) (xs : list A)
  : option (list B) :=
  match xs with
  | [] => Some []
  | x :: rest =>
      match f x, traverseOption f rest with
      | Some y, Some ys => Some (y :: ys)
      | _, _ => None
      end
  end.

Definition checkEveryNewAncestorIsValidDirName (fuel : nat)
  (remote : list RemoteFileInfo) (change : LocalFileChange)
  : Outcome LocalFileChange :=
  let isExisting (p : string) :=
    existsb (fun i : RemoteFileInfo => String.eqb (path i) p) remote in
  let isNew (p : string) := negb (isExisting p) in
  match ancestors fuel (inr (path change)) with
  | None => Diverged
  | Some steps =>
      taskEither.map (fun _ => change)
        (taskEither.chain
           (fun paths =>
              taskEither.fromOption
                (fileSystemCorrupted (String.concat "/" paths)
                   "Parent directory has invalid name")
                (option.filter (forallb isValidDirName)
                   (traverseOption basename (List.filter isNew paths))))
           (taskEither.fromEither (sequenceArray steps)))
  end.

Definition isFileWritable (remote : list RemoteFileInfo) (c : LocalFileChange)
  : bool :=
  match array.findFirst (fun i : RemoteFileInfo => String.eqb (path i) (path c))
          remote with
  | None => false
  | Some i => bool_decide (permissions i = pRW)
  end.

(** [getFilesToUpload(local, remote)].  The [noChange] branch of the fold
    panics; the filter before it keeps it out of reach. *)
Definition getFilesToUpload (fuel : nat) (local : list LocalFileChange)
  (remote : list RemoteFileInfo) : Outcome (list LocalFileChange) :=
  taskEither.traverseArray
    (fun x : LocalFileChange =>
       match lfc_change x with
       | localFileChange.noChange => Thrown
       | localFileChange.added =>
           taskEither.chainFirst checkValidFileName
             (taskEither.chain (checkEveryNewAncestorIsValidDirName fuel remote)
                (checkClosestExistingAncestorIsWritable fuel remote x))
       | localFileChange.removed =>
           taskEither.chain (checkClosestExistingAncestorIsWritable fuel remote)
             (taskEither.fromPredicate (isFileWritable remote)
                (fun _ => readOnlyFilesChanged "" "File is read-only") x)
       | localFileChange.updated =>
           taskEither.fromPredicate (isFileWritable remote)
             (fun _ => readOnlyFilesChanged "" "File is read-only") x
       end)
    (List.filter
       (fun c : LocalFileChange =>
          match lfc_change c with
          | localFileChange.noChange => false
          | localFileChange.added => true
          | localFileChange.removed => true
          | localFileChange.updated => true
          end)
       local).

Definition getFilesToDownload (projectInfoRemote : list RemoteFileInfo)
  (remoteChanges : list RemoteFileChange) : list RemoteFileInfo :=
  List.filter
    (fun i : RemoteFileInfo =>
       existsb (fun c : RemoteFileChange => String.eqb (path c) (path i))
         (List.filter
            (fun c : RemoteFileChange =>
               match rfc_change c with
               | remoteFileChange.noChange => false
               | remoteFileChange.added _ => true
               | remoteFileChange.removed => false
               | remoteFileChange.updated _ => true
               end)
            remoteChanges))
    projectInfoRemote.

Definition getFilesToDelete (remoteChanges : list RemoteFileChange)
  : list RemoteFileChange :=
  List.filter
    (fun c : RemoteFileChange =>
       match rfc_change c with
       | remoteFileChange.noChange => false
       | remoteFileChange.added _ => false
       | remoteFileChange.removed => true
       | remoteFileChange.updated _ => false
       end)
    remoteChanges.

Definition getDirToUpdate (projectInfoRemote : list RemoteFileInfo)
  : list RemoteFileInfo :=
  List.filter (fun f : RemoteFileInfo => negb (isFile f)) projectInfoRemote.

(** [checkConflicts({ localChanges, remoteChanges })]. *)
Definition checkConflicts (localChanges : option (list LocalFileChange))
  (remoteChanges : option (list RemoteFileChange)) : SyncException + unit :=
  match
    option.chain (fun '(local, remote) => getConflicts local remote)
      (option.sequenceS localChanges remoteChanges)
  with
  | None => inr tt
  | Some _ => inl conflictingChanges
  end.
End Validation.

(** ** Projects and the project repository *)

Definition ProjectId := string.

(** [ProjectMetadata]: its declaration is not under src; these are the
    fields the source reads. *)
Record ProjectMetadata := mkProjectMetadata {
  projectId : ProjectId;
  semester : string;
  courseName : string;
  exerciseName : string;
  taskName : string;
  taskOrder : Z;
  exerciseOrder : Z }.

(** Modelled from the spec: [Changes] and [SyncState] of [domain/SyncState]
    are not under src.  [SyncState] is [synced(Changes) | syncing |
    failed(SyncException)]; [Changes] summarises the pending local and remote
    differences, and [unknown] is its initial value. *)
Module changesADT.
Inductive t :=
| unknown
| pending (localChanges remoteChanges : bool).
End changesADT.

Module syncStateADT.
Inductive t :=
| synced (changes : changesADT.t)
| syncing
| failed (e : SyncException).
End syncStateADT.

(** [ProjectFiles]: the local state of a synced project. *)
Record ProjectFiles := mkProjectFiles {
  basePath : string;
  files : list FileInfo;
  syncedAt : Z;
  syncState : syncStateADT.t }.

(** [Project = RemoteProject | LocalProject]; the value of a local project
    is the intersection [ProjectMetadata & ProjectFiles]. *)
Module projectADT.
Inductive t :=
| remote (metadata : ProjectMetadata)
| local (metadata : ProjectMetadata) (state : ProjectFiles).

(** [project.value], seen as [ProjectMetadata]. *)
Definition value (project : t) : ProjectMetadata :=
  match project with
  | remote metadata => metadata
  | local metadata _ => metadata
  end.
End projectADT.
Abbreviation Project := projectADT.t.

Module projectPrism.
(** [projectPrism.local.getOption]. *)
Definition local_getOption (project : Project) : option ProjectFiles :=
  match project with
  | projectADT.remote _ => None
  | projectADT.local _ state => Some state
  end.
End projectPrism.

(** Modelled from the spec: the project repository is not under src.  It is
    a mapping from [ProjectId] to [Project] with [find] and [upsert]. *)
Module projectRepository.
Definition find (id : ProjectId) (store : gmap string Project) : option Project :=
  store !! id.

Definition upsertOne (project : Project) (store : gmap string Project)
  : gmap string Project :=
  <[projectId (projectADT.value project) := project]> store.
End projectRepository.

(** ** The signed API and the host *)

(** Modelled from the spec: [apiError] of [utils/api] is not under src. *)
Inductive ApiError :=
| notReady
| noNetwork
| clientError (status : Z) (message : string)
| serverError (status : Z) (message : string).

(** [fromHttpError]: [notReady] panics, the others become [networkError]. *)
Definition fromHttpError {A} (e : ApiError) : Outcome A :=
  match e with
  | notReady => Thrown
  | noNetwork => Left (networkError "Could not connect to server")
  | clientError _ message => Left (networkError message)
  | serverError _ message => Left (networkError message)
  end.

Inductive HttpMethod := GET | POST.

(** The JWT payloads the pipeline signs. *)
Inductive JwtPayload :=
| payloadEmpty
| payloadPath (path : string)
| payloadFiles (tarHash : option string) (removeFiles : list string).

(** The response of [project/{id}/info] and [project/{id}/files]. *)
Record ProjectInfo := mkProjectInfo {
  info_id : ProjectId;
  info_files : list RemoteFileInfo }.

(** What a run does to the outside: signed requests and changes of the local
    file system, in the order they are issued. *)
Inductive Event :=
| ApiRequest (method : HttpMethod) (path : string) (jwtPayload : JwtPayload)
| CreateProjectDir (path : string) (readOnly : bool)
| CreateProjectPath (path : string)
| WriteProjectFile (path content : string) (readOnly : bool)
| RemoveFile (path : string)
| BuildTar (archivePath projectDir : string) (files : list string).

(** The host: settings, file system, server and clock, over a state [World]
    the run threads through.  A [Task] is total; a [TaskEither] of the host
    yields an error message or [ApiError] on its left. *)
Class Host (World : Type) := {
  settingRead_projectDir : World -> option string;
  readDirTree : string -> World -> string + list FsNode;
  getFileHash : string -> World -> string + string;
  createProjectDir : string -> bool -> World -> (string + unit) * World;
  createProjectPath : string -> World -> (string + unit) * World;
  writeProjectFile : string -> string -> bool -> World -> (string + unit) * World;
  removeFile : string -> World -> World;
  tempDir : World -> string + string;
  buildTar : string -> string -> list string -> World -> string * World;
  readBinaryFile : string -> World -> string + string;
  serverInfo : ProjectId -> World -> (ApiError + ProjectInfo) * World;
  serverFile : ProjectId -> string -> World -> (ApiError + string) * World;
  serverFiles :
    ProjectId -> JwtPayload -> string -> World -> (ApiError + ProjectInfo) * World;
  now : World -> Z }.

(** The state of a run: the host's world, the project repository and the
    events issued so far. *)
Record RunState (World : Type) := mkRunState {
  world : World;
  store : gmap string Project;
  trace : list Event }.
Arguments mkRunState {World} _ _ _.
Arguments world {World} _.
Arguments store {World} _.
Arguments trace {World} _.

(** [ForceSyncDirection = 'push' | 'pull']. *)
Inductive ForceSyncDirection := push | pull.

(** ** The pipeline monad *)

Definition M (World A : Type) : Type :=
  RunState World -> Outcome A * RunState World.

Section Monad.
Context {World : Type}.

Definition ret {A} (a : A) : M World A := fun st => (Right a, st).

Definition bind {A B} (m : M World A) (f : A -> M World B) : M World B :=
  fun st =>
    match m st with
    | (Right a, st') => f a st'
    | (Left e, st') => (Left e, st')
    | (Thrown, st') => (Thrown, st')
    | (Diverged, st') => (Diverged, st')
    end.

(** A computation that does not touch the world, e.g. a path check. *)
Definition liftOutcome {A} (o : Outcome A) : M World A := fun st => (o, st).

Definition emit (ev : Event) : M World unit :=
  fun st => (Right tt, mkRunState (world st) (store st) (trace st ++ [ev])).

(** A host operation that changes the world. *)
Definition hostTask {A} (f : World -> A * World) : M World A :=
  fun st =>
    let '(a, w) := f (world st) in
    (Right a, mkRunState w (store st) (trace st)).

(** A host operation that only reads the world. *)
Definition hostRead {A} (f : World -> A) : M World A :=
  fun st => (Right (f (world st)), st).

Definition updateStore (f : gmap string Project -> gmap string Project)
  : M World unit :=
  fun st => (Right tt, mkRunState (world st) (f (store st)) (trace st)).
End Monad.

Notation "'let*' x ':=' m 'in' k" := (bind m (fun x => k))
  (at level 10, x name, m at level 100, k at level 200).

Section Traverse.
Context {World : Type}.

(** [array.traverse(taskEither.ApplicativeSeq)(f)]: one element after the
    other, stopping at the first failure. *)
Fixpoint traverseSeq {A B} (f : A -> M World B) (xs : list A)
  : M World (list B) :=
  match xs with
  | [] => ret []
  | x :: rest =>
      let* y := f x in
      let* ys := traverseSeq f rest in
      ret (y :: ys)
  end.

(** [option.traverse(taskEither.ApplicativePar)(f)]. *)
Definition traverseOpt {A B} (f : A -> M World B) (o : option A)
  : M World (option B) :=
  match o with
  | None => ret None
  | Some a => let* b := f a in ret (Some b)
  end.
End Traverse.

(** ** The steps of a sync run *)

Section Sync.
Context {World : Type} `{Host World} `{PathApi}.

(** A [TaskEither] of the host whose error message becomes a
    [fileSystemCorrupted] for [path]. *)
Definition orCorrupted {A} (path : string) (r : string + A) : M World A :=
  liftOutcome
    (match r with
     | inl reason => Left (fileSystemCorrupted path reason)
     | inr a => Right a
     end).

(** [taskEither.getOrElse((e) => { throw e; })]. *)
Definition orThrow {A} (r : string + A) : M World A :=
  liftOutcome (match r with inl _ => Thrown | inr a => Right a end).

(** [taskEither.mapLeft(fromHttpError)]. *)
Definition orHttpError {A} (r : ApiError + A) : M World A :=
  liftOutcome (match r with inl e => fromHttpError e | inr a => Right a end).

(** [apiGetSigned] and [apiPostSigned]: the request is issued, then the
    server answers. *)
Definition apiSigned {A} (method : HttpMethod) (path : string)
  (jwtPayload : JwtPayload) (answer : World -> (ApiError + A) * World)
  : M World (ApiError + A) :=
  let* _ := emit (ApiRequest method path jwtPayload) in
  hostTask answer.

Definition updateDir (projectDirPath projectDir : string)
  (permissions : FilePermissions) : M World unit :=
  let systemFilePath := join [projectDir; projectDirPath] in
  let readOnly := bool_decide (permissions = pR) in
  let* _ := emit (CreateProjectDir systemFilePath readOnly) in
  let* r := hostTask (createProjectDir systemFilePath readOnly) in
  orCorrupted projectDir r.

Definition writeSingeFile (projectFilePath : string) (projectId : ProjectId)
  (projectDir : string) (version : Z) (permissions : FilePermissions)
  (type : FileEntryType) : M World FileInfo :=
  let systemFilePath := join [projectDir; projectFilePath] in
  let readOnly := bool_decide (permissions = pR) in
  let* _ := emit (CreateProjectPath projectDir) in
  let* created := hostTask (createProjectPath projectDir) in
  let* _ := orCorrupted projectDir created in
  let* response :=
    apiSigned GET ("project/" +:+ projectId +:+ "/file")
      (payloadPath projectFilePath) (serverFile projectId projectFilePath) in
  let* fileContent := orHttpError response in
  let* _ := emit (WriteProjectFile systemFilePath fileContent readOnly) in
  let* written :=
    hostTask (writeProjectFile systemFilePath fileContent readOnly) in
  let* _ := orCorrupted projectDir written in
  let* hashed := hostRead (getFileHash systemFilePath) in
  let* hash := orCorrupted projectDir hashed in
  ret (mkFileInfo projectFilePath version hash type permissions).

Definition deleteSingeFile (projectFilePath projectDir : string)
  : M World unit :=
  let systemFilePath := join [projectDir; projectFilePath] in
  let* _ := emit (RemoveFile systemFilePath) in
  hostTask (fun w => (tt, removeFile systemFilePath w)).

(** [addHash(projectDir)({ path, type })]; a hash that cannot be computed
    is thrown. *)
Definition addHash (projectDir : string) (path : string)
  : M World LocalFileState :=
  let* hashed := hostRead (getFileHash (join [projectDir; path])) in
  let* hash := orThrow hashed in
  ret (mkLocalFileState path tFile hash).

(** [getProjectFilesLocal(projectDir)]; [readDirTree] is taken with
    [fileArrayFromTree] already applied to its tree. *)
Definition getProjectFilesLocal (projectDir : string)
  : M World (list string) :=
  let* tree := hostRead (readDirTree projectDir) in
  let* nodes := orCorrupted projectDir tree in
  let visible := List.filter isVisibleFile nodes in
  let fileNodes := List.filter isFile visible in
  traverseSeq
    (fun node : FsNode =>
       orCorrupted projectDir (stripAncestor projectDir (path node)))
    fileNodes.

Definition getProjectInfoLocal (projectDir : string)
  : M World (list LocalFileState) :=
  let* relPaths := getProjectFilesLocal projectDir in
  traverseSeq (addHash projectDir) relPaths.

Definition getProjectInfoRemote (projectId : ProjectId) : M World ProjectInfo :=
  let* response :=
    apiSigned GET ("project/" +:+ projectId +:+ "/info") payloadEmpty
      (serverInfo projectId) in
  orHttpError response.

Definition getProjectDirRelative (metadata : ProjectMetadata) : string :=
  join [escape (semester metadata); escape (courseName metadata);
        escape (exerciseName metadata); escape (taskName metadata)].

Definition uploadChangedFiles (fileName : string) (projectId : ProjectId)
  (projectDir : string) (localChanges : list LocalFileChange) : M World unit :=
  let uploadFiles :=
    map (fun c : LocalFileChange => path c)
      (List.filter
         (fun c : LocalFileChange =>
            match lfc_change c with
            | localFileChange.noChange => false
            | localFileChange.added => true
            | localFileChange.removed => false
            | localFileChange.updated => true
            end)
         localChanges) in
  let* tmp := hostRead tempDir in
  let* tmpDir := orThrow tmp in
  let archivePath := join [tmpDir; fileName] in
  let* _ := emit (BuildTar archivePath projectDir uploadFiles) in
  let* tarHash := hostTask (buildTar archivePath projectDir uploadFiles) in
  let removeFiles :=
    map (fun c : LocalFileChange => path c)
      (List.filter
         (fun c : LocalFileChange =>
            match lfc_change c with
            | localFileChange.noChange => false
            | localFileChange.added => false
            | localFileChange.removed => true
            | localFileChange.updated => false
            end)
         localChanges) in
  let* body :=
    match uploadFiles with
    | [] => ret ""%string
    | _ :: _ =>
        let* bytes := hostRead (readBinaryFile archivePath) in
        orThrow bytes
    end in
  let jwtPayload :=
    match uploadFiles with
    | [] => payloadFiles None removeFiles
    | _ :: _ => payloadFiles (Some tarHash) removeFiles
    end in
  let* response :=
    apiSigned POST ("project/" +:+ projectId +:+ "/files") jwtPayload
      (serverFiles projectId jwtPayload body) in
  let* _ := orHttpError response in
  ret tt.

(** [path.split('/').length]. *)
Fixpoint countSeparators (p : string) : nat :=
  match p with
  | EmptyString => O
  | String c rest =>
      ((if Ascii.eqb c "/"%char then 1 else 0) + countSeparators rest)%nat
  end.

Definition pathDepth (p : string) : nat := S (countSeparators p).

(** ** The orchestrator [useProjectSync] *)

(** What the pipeline has bound when change detection starts. *)
Record Detected := mkDetected {
  projectDirRelative : string;
  projectDir : string;
  projectInfoPrevious : option (list FileInfo);
  projectInfoRemote : ProjectInfo;
  projectInfoLocal : option (list LocalFileState) }.

(** Setup and inventory: [rootDir], [projectDirRelative], [projectDir],
    [projectInfoPrevious], [projectInfoRemote], [projectInfoLocal]. *)
Definition syncDetect (project : Project) : M World Detected :=
  let* setting := hostRead settingRead_projectDir in
  let* rootDir :=
    liftOutcome (taskEither.fromOption projectDirMissing setting) in
  let projectDirRelative :=
    match project with
    | projectADT.remote metadata => getProjectDirRelative metadata
    | projectADT.local _ state => basePath state
    end in
  let projectDir := join [rootDir; projectDirRelative] in
  let projectInfoPrevious :=
    option_map files (projectPrism.local_getOption project) in
  let* projectInfoRemote :=
    getProjectInfoRemote (projectId (projectADT.value project)) in
  let* projectInfoLocal :=
    traverseOpt (fun _ : ProjectFiles => getProjectInfoLocal projectDir)
      (projectPrism.local_getOption project) in
  ret (mkDetected projectDirRelative projectDir projectInfoPrevious
         projectInfoRemote projectInfoLocal).

(** [force == null || force === direction]. *)
Definition forceAllows (force : option ForceSyncDirection)
  (direction : ForceSyncDirection) : bool :=
  match force, direction with
  | None, _ => true
  | Some pull, pull => true
  | Some push, push => true
  | Some _, _ => false
  end.

Definition remoteChangesOf (force : option ForceSyncDirection) (d : Detected)
  : option (list RemoteFileChange) :=
  option.filter (fun _ => forceAllows force pull)
    (match projectInfoPrevious d with
     | None =>
         getRemoteChanges ([] : list FileInfo) (info_files (projectInfoRemote d))
     | Some previous =>
         getRemoteChanges previous (info_files (projectInfoRemote d))
     end).

Definition localChangesOf (force : option ForceSyncDirection) (d : Detected)
  : option (list LocalFileChange) :=
  option.filter (fun _ => forceAllows force push)
    (option.chain (fun '(local, previous) => getLocalChanges previous local)
       (option.sequenceS (projectInfoLocal d) (projectInfoPrevious d))).

(** "upload local changed files". *)
Definition syncUpload (project : Project) (d : Detected)
  (filesToUpload : option (list LocalFileChange)) : M World unit :=
  match filesToUpload with
  | None => ret tt
  | Some filesToUpload =>
      let* time := hostRead now in
      uploadChangedFiles
        ("project_" +:+ projectId (projectADT.value project) +:+ "_"
           +:+ pretty time +:+ ".tar.br")
        (projectId (projectADT.value project)) (projectDir d) filesToUpload
  end.

(** "download and write added and updated files": the directories of the
    remote inventory first, the shallow ones before the deep ones. *)
Definition syncDownload (project : Project) (d : Detected)
  (filesToDownload : option (list RemoteFileInfo)) : M World unit :=
  let* _ :=
    traverseSeq
      (fun dir : RemoteFileInfo =>
         updateDir (path dir) (projectDir d) (permissions dir))
      (array.sortBy (fun dir : RemoteFileInfo => pathDepth (path dir))
         (getDirToUpdate (info_files (projectInfoRemote d)))) in
  match filesToDownload with
  | None => ret tt
  | Some filesToDownload =>
      let* _ :=
        traverseSeq
          (fun f : RemoteFileInfo =>
             writeSingeFile (path f) (projectId (projectADT.value project))
               (projectDir d) (version f) (permissions f) (type f))
          filesToDownload in
      ret tt
  end.

(** "delete remote removed files". *)
Definition syncDelete (d : Detected)
  (filesToDelete : option (list RemoteFileChange)) : M World unit :=
  match filesToDelete with
  | None => ret tt
  | Some filesToDelete =>
      let* _ :=
        traverseSeq
          (fun c : RemoteFileChange => deleteSingeFile (path c) (projectDir d))
          filesToDelete in
      ret tt
  end.

(** "update all project metadata": the remote inventory is fetched again
    and every file in it is hashed. *)
Definition syncUpdatedProjectInfo (project : Project) (d : Detected)
  : M World (list FileInfo) :=
  let* projectInfoRemote :=
    getProjectInfoRemote (projectId (projectADT.value project)) in
  traverseSeq
    (fun f : RemoteFileInfo =>
       let* hashed := addHash (projectDir d) (path f) in
       ret (mkFileInfo (path f) (version f) (hash hashed) (type f)
              (permissions f)))
    (List.filter isFile (info_files projectInfoRemote)).

(** "store new state": the record that is upserted. *)
Definition newProjectState (project : Project) (d : Detected)
  (updatedFiles : list FileInfo) (time : Z) : Project :=
  projectADT.local (projectADT.value project)
    (mkProjectFiles (projectDirRelative d) updatedFiles time
       (match project with
        | projectADT.remote _ => syncStateADT.synced changesADT.unknown
        | projectADT.local _ state => syncState state
        end)).

Definition syncStore (project : Project) (d : Detected)
  (updatedFiles : list FileInfo) : M World unit :=
  let* time := hostRead now in
  updateStore
    (projectRepository.upsertOne (newProjectState project d updatedFiles time)).

(** Planning and applying, once the conflict check has passed. *)
Definition syncReconcile (fuel : nat) (project : Project) (d : Detected)
  (localChanges : option (list LocalFileChange))
  (remoteChanges : option (list RemoteFileChange)) : M World (list FileInfo) :=
  let* filesToUpload :=
    traverseOpt
      (fun changes =>
         liftOutcome
           (getFilesToUpload fuel changes (info_files (projectInfoRemote d))))
      localChanges in
  let filesToDownload :=
    option_map (getFilesToDownload (info_files (projectInfoRemote d)))
      remoteChanges in
  let filesToDelete := option_map getFilesToDelete remoteChanges in
  let* _ := syncUpload project d filesToUpload in
  let* _ := syncDownload project d filesToDownload in
  let* _ := syncDelete d filesToDelete in
  syncUpdatedProjectInfo project d.

(** Everything a run does before it stores the new state. *)
Definition syncApply (fuel : nat) (project : Project)
  (force : option ForceSyncDirection) (d : Detected) : M World (list FileInfo) :=
  let remoteChanges := remoteChangesOf force d in
  let localChanges := localChangesOf force d in
  let* _ :=
    liftOutcome
      (taskEither.fromEither (checkConflicts localChanges remoteChanges)) in
  syncReconcile fuel project d localChanges remoteChanges.

(** The callback of [useProjectSync]: [(project, { force })]. *)
Definition runProjectSync (fuel : nat) (project : Project)
  (force : option ForceSyncDirection) : M World unit :=
  let* d := syncDetect project in
  let* updatedFiles := syncApply fuel project force d in
  let* _ := syncStore project d updatedFiles in
  ret tt.
End Sync.

(** ** An in-memory host

    A small host on which the pipeline can be run: the disk is a list of
    files with their content, the server a list of inventory entries with
    their content.  It is used for the concrete runs further down. *)
Module MemoryHost.
(** The part of a path before its last ['/'], and the part after it. *)
Fixpoint splitLast (s : string) : option (string * string) :=
  match s with
  | EmptyString => None
  | String c rest =>
      match splitLast rest with
      | Some (d, b) => Some (String c d, b)
      | None => if Ascii.eqb c "/"%char then Some (EmptyString, rest) else None
      end
  end.

Definition degenerate (p : string) : bool :=
  String.eqb p "." || String.eqb p "/" || String.eqb p "".

(** Modelled from the spec: [dirname] and [basename] fail on the
    degenerate inputs ['.'] and ['/']; the parent of a single segment is
    the root ['.']. *)
Definition posixDirname (p : string) : string + string :=
  if degenerate p then inl "path has no parent"%string
  else
    match splitLast p with
    | Some (EmptyString, _) => inr "/"%string
    | Some (d, _) => inr d
    | None => inr "."%string
    end.

Definition posixBasename (p : string) : option string :=
  if degenerate p then None
  else
    match splitLast p with
    | Some (_, b) => Some b
    | None => Some p
    end.

Fixpoint stripPrefix (prefix s : string) : option string :=
  match prefix, s with
  | EmptyString, _ => Some s
  | String a prefix', String b s' =>
      if Ascii.eqb a b then stripPrefix prefix' s' else None
  | String _ _, EmptyString => None
  end.

Definition validName (name : string) : bool :=
  negb (String.eqb name "") && negb (String.eqb name "..").

#[export] Instance pathApi : PathApi := {|
  dirname := posixDirname;
  basename := posixBasename;
  join := String.concat "/";
  escape := fun segment => segment;
  stripAncestor := fun ancestor p =>
    match stripPrefix (ancestor +:+ "/") p with
    | Some relative => inr relative
    | None => inl "path is not below the ancestor"%string
    end;
  isValidFileName := validName;
  isValidDirName := validName;
  isVisibleFile := fun _ => true |}.

Record World := mkWorld {
  setting : option string;
  disk : list (string * string);
  server : list (RemoteFileInfo * string);
  clock : Z }.

Definition readDisk (p : string) (w : World) : option string :=
  option_map snd (List.find (fun '(q, _) => String.eqb q p) (disk w)).

Definition withDisk (d : list (string * string)) (w : World) : World :=
  mkWorld (setting w) d (server w) (clock w).

Definition dropFile (p : string) (d : list (string * string))
  : list (string * string) :=
  List.filter (fun '(q, _) => negb (String.eqb q p)) d.

Definition inventory (w : World) : list RemoteFileInfo := map fst (server w).

#[export] Instance host : Host World := {|
  settingRead_projectDir := setting;
  readDirTree := fun dir w =>
    inr (map (fun '(p, _) => mkFsNode p tFile)
           (List.filter
              (fun '(p, _) =>
                 match stripPrefix (dir +:+ "/") p with
                 | Some _ => true
                 | None => false
                 end)
              (disk w)));
  getFileHash := fun p w =>
    match readDisk p w with
    | Some content => inr ("sha:" +:+ content)
    | None => inl "No such file"%string
    end;
  createProjectDir := fun _ _ w => (inr tt, w);
  createProjectPath := fun _ w => (inr tt, w);
  writeProjectFile := fun p content _ w =>
    (inr tt, withDisk ((p, content) :: dropFile p (disk w)) w);
  removeFile := fun p w => withDisk (dropFile p (disk w)) w;
  tempDir := fun _ => inr "/tmp"%string;
  buildTar := fun _ _ _ w => ("tarhash"%string, w);
  readBinaryFile := fun _ _ => inr ""%string;
  serverInfo := fun id w => (inr (mkProjectInfo id (inventory w)), w);
  serverFile := fun _ p w =>
    match List.find (fun '(i, _) => String.eqb (rfi_path i) p) (server w) with
    | Some (_, content) => (inr content, w)
    | None => (inl (clientError 404 "Not found"), w)
    end;
  serverFiles := fun id _ _ w => (inr (mkProjectInfo id (inventory w)), w);
  now := clock |}.
End MemoryHost.

(** ** Vocabulary of the statements *)

(** The change records of a result, [none] read as no record. *)
Definition changesOf {A} (o : option (list A)) : list A :=
  match o with Some l => l | None => [] end.

(** The paths of an inventory. *)
Definition paths {A} `{HasPath A} (l : list A) : list string := map path l.

(** [l[p]]: the entry of [l] at path [p], the first one should there be
    several. *)
Definition entryAt {A} `{HasPath A} (p : string) (l : list A) : option A :=
  List.find (fun e => String.eqb (path e) p) l.

Definition files_of {A} `{HasType A} (l : list A) : list A := List.filter isFile l.

(** The kinds of change records. *)
Definition isRemovedR (c : RemoteFileChange) : bool :=
  match rfc_change c with remoteFileChange.removed => true | _ => false end.
Definition isAddedR (c : RemoteFileChange) : bool :=
  match rfc_change c with remoteFileChange.added _ => true | _ => false end.
Definition isUpdatedR (c : RemoteFileChange) : bool :=
  match rfc_change c with remoteFileChange.updated _ => true | _ => false end.
Definition isRemovedL (c : LocalFileChange) : bool :=
  match lfc_change c with localFileChange.removed => true | _ => false end.
Definition isAddedL (c : LocalFileChange) : bool :=
  match lfc_change c with localFileChange.added => true | _ => false end.
Definition isUpdatedL (c : LocalFileChange) : bool :=
  match lfc_change c with localFileChange.updated => true | _ => false end.

(** The three groups [getRemoteChanges] concatenates. *)
Section RemoteGroups.
Context {A B : Type}
  `{HasPath A} `{HasType A} `{HasVersion A}
  `{HasPath B} `{HasType B} `{HasVersion B}.

Definition removedOfRemote (previous : list A) (latest : list B)
  : list RemoteFileChange :=
  map (fun x => mkRemoteFileChange (path x) remoteFileChange.removed)
    (array.difference eqPath (files_of latest) (files_of previous)).

Definition addedOfRemote (previous : list A) (latest : list B)
  : list RemoteFileChange :=
  map (fun x => mkRemoteFileChange (path x) (remoteFileChange.added (version x)))
    (array.difference eqPath (files_of previous) (files_of latest)).

Definition updatedOfRemote (previous : list A) (latest : list B)
  : list RemoteFileChange :=
  map (fun x => mkRemoteFileChange (path x) (remoteFileChange.updated (version x)))
    (List.filter
       (fun ls =>
          option.exists_ (fun cs => negb (version cs =? version ls))
            (array.findFirst (fun cs => String.eqb (path cs) (path ls))
               (files_of latest)))
       (files_of previous)).

End RemoteGroups.

(** The three groups [getLocalChanges] concatenates. *)
Section LocalGroups.
Context {A B : Type}
  `{HasPath A} `{HasType A} `{HasHash A}
  `{HasPath B} `{HasType B} `{HasHash B}.

Definition removedOfLocal (previous : list A) (latest : list B)
  : list LocalFileChange :=
  map (fun x => mkLocalFileChange (path x) localFileChange.removed)
    (array.difference eqPath (files_of latest) (files_of previous)).

Definition addedOfLocal (previous : list A) (latest : list B)
  : list LocalFileChange :=
  map (fun x => mkLocalFileChange (path x) localFileChange.added)
    (array.difference eqPath (files_of previous) (files_of latest)).

Definition updatedOfLocal (previous : list A) (latest : list B)
  : list LocalFileChange :=
  map (fun '(_, latest) => mkLocalFileChange (path latest) localFileChange.updated)
    (List.filter
       (fun '(previous, latest) => negb (String.eqb (hash latest) (hash previous)))
       (flat_map
          (fun previous =>
             map (fun latest => (previous, latest))
               (option.toArray
                  (array.findFirst (fun latest => eqPath previous latest)
                     (files_of latest))))
          (files_of previous))).
End LocalGroups.

(** What a remote diff is expected to hold: a [removed] record for a path
    of the baseline that the latest inventory lacks, an [added] record for
    a path of the latest inventory that the baseline lacks, an [updated]
    record for a path of both whose versions differ. *)
Definition expectedRemoteChange (previous : list FileInfo)
  (latest : list RemoteFileInfo) (r : RemoteFileChange) : Prop :=
  (rfc_change r = remoteFileChange.removed
   /\ In (path r) (paths (files_of previous))
   /\ ~ In (path r) (paths (files_of latest)))
  \/ (exists e, In e (files_of latest) /\ path e = path r
                /\ ~ In (path r) (paths (files_of previous))
                /\ rfc_change r = remoteFileChange.added (version e))
  \/ (exists e e', In e (files_of previous) /\ path e = path r
                   /\ entryAt (path r) (files_of latest) = Some e'
                   /\ version e' <> version e
                   /\ rfc_change r = remoteFileChange.updated (version e)).

(** The same for a local diff, where the hashes are compared. *)
Definition expectedLocalChange (previous : list FileInfo)
  (latest : list LocalFileState) (r : LocalFileChange) : Prop :=
  (lfc_change r = localFileChange.removed
   /\ In (path r) (paths (files_of previous))
   /\ ~ In (path r) (paths (files_of latest)))
  \/ (lfc_change r = localFileChange.added
      /\ In (path r) (paths (files_of latest))
      /\ ~ In (path r) (paths (files_of previous)))
  \/ (exists e e', In e (files_of previous) /\ path e = path r
                   /\ entryAt (path r) (files_of latest) = Some e'
                   /\ hash e' <> hash e
                   /\ lfc_change r = localFileChange.updated).

(** Alphabetical order of paths. *)
Definition alphabetical (l : list string) : Prop :=
  Sorted (fun a b => String.leb a b = true) l.

(** The order of change records as the specification words it: the removed
    records, then the added ones, then the updated ones, each group
    alphabetical. *)
Definition groupedAndAlphabetical (cs : list RemoteFileChange) : Prop :=
  cs = List.filter isRemovedR cs ++ List.filter isAddedR cs
         ++ List.filter isUpdatedR cs
  /\ alphabetical (paths (List.filter isRemovedR cs))
  /\ alphabetical (paths (List.filter isAddedR cs))
  /\ alphabetical (paths (List.filter isUpdatedR cs)).

(** Inventories for the concrete runs. *)
Definition inventoryBA : list RemoteFileInfo :=
  [mkRemoteFileInfo "b.txt" 1 tFile pRW; mkRemoteFileInfo "a.txt" 1 tFile pRW].

Definition baselineA1 : list FileInfo :=
  [mkFileInfo "a.txt" 1 "sha:one" tFile pRW].

Definition inventoryA2 : list RemoteFileInfo :=
  [mkRemoteFileInfo "a.txt" 2 tFile pRW].

(** The path reached from [p] after [n] steps of [dirname]. *)
Fixpoint ancestorAt `{PathApi} (n : nat) (p : string) : option string :=
  match n with
  | O => Some p
  | S n' =>
      match dirname p with
      | inr parent => ancestorAt n' parent
      | inl _ => None
      end
  end.

(** A read-only file of the remote inventory, edited locally. *)
Definition readmeReadOnly : list RemoteFileInfo :=
  [mkRemoteFileInfo "README.md" 1 tFile pR].

Definition readmeEdited : list LocalFileChange :=
  [mkLocalFileChange "README.md" localFileChange.updated].

Definition readmeDeleted : list LocalFileChange :=
  [mkLocalFileChange "README.md" localFileChange.removed].




(** The exceptions of the upload-eligibility checks. *)
Definition isCheckFailure (e : SyncException) : bool :=
  match e with
  | readOnlyFilesChanged _ _ => true
  | invalidFilename _ => true
  | fileSystemCorrupted _ _ => true
  | _ => false
  end.

(** ** Vocabulary of the statements on runs *)

(** The events a run on project [id] may issue, given whether it uploads,
    downloads and deletes locally. *)
Definition allowedEvent (id : ProjectId) (up down del : bool) (ev : Event)
  : bool :=
  match ev with
  | ApiRequest GET p payloadEmpty =>
      String.eqb p ("project/" +:+ id +:+ "/info")
  | ApiRequest GET p (payloadPath _) =>
      down && String.eqb p ("project/" +:+ id +:+ "/file")
  | ApiRequest POST p (payloadFiles _ _) =>
      up && String.eqb p ("project/" +:+ id +:+ "/files")
  | ApiRequest _ _ _ => false
  | CreateProjectDir _ _ => true
  | CreateProjectPath _ => down
  | WriteProjectFile _ _ _ => down
  | RemoveFile _ => del
  | BuildTar _ _ _ => up
  end.

Section RunVocabulary.
Context {World : Type}.

(** The run leaves the project repository as it was. *)
Definition sameStore (st st' : RunState World) : Prop :=
  store st' = store st.

(** The run adds events to the trace, all of them satisfying [P]. *)
Definition emitsOnly (P : Event -> Prop) (st st' : RunState World) : Prop :=
  exists evs, trace st' = trace st ++ evs /\ Forall P evs.

(** [m] moves the state along [R] whatever its outcome, and fails only
    with exceptions in [E]. *)
Definition Safe (R : relation (RunState World)) (E : SyncException -> Prop)
  {A} (m : M World A) : Prop :=
  forall st, R st (snd (m st)) /\ forall e, fst (m st) = Left e -> E e.
End RunVocabulary.

Section CommitVocabulary.
Context {World : Type} `{Host World} `{PathApi}.

(** [fi] is the remote entry [f] with the hash of its file under [dir]. *)
Definition hashedEntry (dir : string) (w : World) (f : RemoteFileInfo)
  (fi : FileInfo) : Prop :=
  exists h,
    getFileHash (join [dir; path f]) w = inr h
    /\ fi = mkFileInfo (path f) (version f) h (type f) (permissions f).

(** The relative project directory of a run. *)
Definition relativeDirOf (project : Project) : string :=
  match project with
  | projectADT.remote metadata => getProjectDirRelative metadata
  | projectADT.local _ state => basePath state
  end.
End CommitVocabulary.

(** The [syncState] a run stores. *)
Definition storedSyncState (project : Project) : syncStateADT.t :=
  match project with
  | projectADT.remote _ => syncStateADT.synced changesADT.unknown
  | projectADT.local _ state => syncState state
  end.

(** The commit as the specification words it: the stored project is
    [Local] with [syncState] set to [synced(unknown)]. *)
Definition commitsSyncedUnknown {World : Type} `{Host World} `{PathApi}
  (fuel : nat) (project : Project) (force : option ForceSyncDirection)
  (st : RunState World) : Prop :=
  forall st',
    runProjectSync fuel project force st = (Right tt, st') ->
    exists metadata state,
      projectRepository.find (projectId (projectADT.value project)) (store st')
      = Some (projectADT.local metadata state)
      /\ syncState state = syncStateADT.synced changesADT.unknown.

(** Projects, worlds and states for the concrete runs. *)
Definition metadataP1 : ProjectMetadata :=
  mkProjectMetadata "p1" "2024S" "Informatik" "Exercise 1" "Task 1" 1 1.

Definition baselineReadme : list FileInfo :=
  [mkFileInfo "README.md" 1 "sha:original" tFile pR].

Definition localP1 (state : syncStateADT.t) : Project :=
  projectADT.local metadataP1
    (mkProjectFiles "2024S/Informatik/Exercise 1/Task 1" baselineReadme 50 state).

(** The read-only [README.md] was edited on disk. *)
Definition worldReadmeEdited : MemoryHost.World :=
  MemoryHost.mkWorld (Some "/home/user/projects"%string)
    [("/home/user/projects/2024S/Informatik/Exercise 1/Task 1/README.md",
      "edited")%string]
    [(mkRemoteFileInfo "README.md" 1 tFile pR, "original"%string)] 100.

(** Disk, baseline and server agree. *)
Definition worldInSync : MemoryHost.World :=
  MemoryHost.mkWorld (Some "/home/user/projects"%string)
    [("/home/user/projects/2024S/Informatik/Exercise 1/Task 1/README.md",
      "original")%string]
    [(mkRemoteFileInfo "README.md" 1 tFile pR, "original"%string)] 100.

(** [a.txt] changed on both sides since the baseline [baselineA1]. *)
Definition localA1 : Project :=
  projectADT.local metadataP1
    (mkProjectFiles "2024S/Informatik/Exercise 1/Task 1" baselineA1 50
       (syncStateADT.synced changesADT.unknown)).

Definition worldConflict : MemoryHost.World :=
  MemoryHost.mkWorld (Some "/home/user/projects"%string)
    [("/home/user/projects/2024S/Informatik/Exercise 1/Task 1/a.txt",
      "local edit")%string]
    [(mkRemoteFileInfo "a.txt" 2 tFile pRW, "remote edit"%string)] 100.

(** A project known to the server only, and the server's inventory of the
    first-time sync. *)
Definition worldFirstSync : MemoryHost.World :=
  MemoryHost.mkWorld (Some "/home/user/projects"%string) []
    [(mkRemoteFileInfo "a.txt" 1 tFile pRW, "hello"%string);
     (mkRemoteFileInfo "lib" 1 tDir pR, ""%string);
     (mkRemoteFileInfo "lib/util.c" 3 tFile pR, "int x;"%string)] 100.

Definition stateOf (w : MemoryHost.World) (project : Project)
  : RunState MemoryHost.World :=
  mkRunState w (projectRepository.upsertOne project ∅) [].

(** ** Further inventories for the concrete runs *)

Definition inventoryA1 : list RemoteFileInfo :=
  [mkRemoteFileInfo "a.txt" 1 tFile pRW].

Definition scanA1 : list LocalFileState :=
  [mkLocalFileState "a.txt" tFile "sha:one"].

(** A remote inventory with its root, a writable and a read-only
    directory. *)
Definition inventoryRooted : list RemoteFileInfo :=
  [mkRemoteFileInfo "." 1 tDir pRW;
   mkRemoteFileInfo "src" 1 tDir pRW;
   mkRemoteFileInfo "src/main.c" 1 tFile pRW;
   mkRemoteFileInfo "lib" 1 tDir pR;
   mkRemoteFileInfo "lib/util.c" 3 tFile pR].

Definition editedAndAdded : list LocalFileChange :=
  [mkLocalFileChange "src/main.c" localFileChange.updated;
   mkLocalFileChange "src/new/a.c" localFileChange.added].

Definition addedBelowLib : LocalFileChange :=
  mkLocalFileChange "lib/b.c" localFileChange.added.

(** ** Vocabulary of the statements on the steps *)

(** The paths an upload puts into its archive, and the paths it asks the
    server to remove. *)
Definition sentPaths (cs : list LocalFileChange) : list string :=
  paths (List.filter (fun c => isAddedL c || isUpdatedL c) cs).

Definition removedPaths (cs : list LocalFileChange) : list string :=
  paths (List.filter isRemovedL cs).

(** The directories of the remote inventory in the order the download step
    creates them. *)
Definition directoriesInOrder (inventory : list RemoteFileInfo)
  : list RemoteFileInfo :=
  array.sortBy (fun dir : RemoteFileInfo => pathDepth (path dir))
    (getDirToUpdate inventory).

(** The event of creating the directory [dir] below [projectDir]. *)
Definition createsDirectory `{PathApi} (projectDir : string)
  (dir : RemoteFileInfo) : Event :=
  CreateProjectDir (join [projectDir; path dir])
    (bool_decide (permissions dir = pR)).

(** The event of removing the file of the change record [c]. *)
Definition removesFile `{PathApi} (projectDir : string)
  (c : RemoteFileChange) : Event :=
  RemoveFile (join [projectDir; path c]).

(** The inventory request of project [id]. *)
Definition infoRequest (id : ProjectId) : Event :=
  ApiRequest GET ("project/" +:+ id +:+ "/info") payloadEmpty.

(** The events of an upload: the archive and the POST request. *)
Definition isUploadEvent (ev : Event) : bool :=
  match ev with
  | BuildTar _ _ _ => true
  | ApiRequest POST _ (payloadFiles _ _) => true
  | _ => false
  end.

(** The events of downloading one file: the project path, the GET request
    for the content and the write. *)
Definition isFileTransfer (ev : Event) : bool :=
  match ev with
  | CreateProjectPath _ => true
  | ApiRequest GET _ (payloadPath _) => true
  | WriteProjectFile _ _ _ => true
  | _ => false
  end.

(** * Change detection: what it reports *)

Section ListFacts.
Context {A : Type}.

Lemma changesOf_fromArray (l : list A) :
  changesOf (nonEmptyArray.fromArray l) = l.
Proof. destruct l; reflexivity. Qed.

Lemma fromArray_None (l : list A) :
  nonEmptyArray.fromArray l = None <-> l = [].
Proof. destruct l; simpl; split; congruence. Qed.

Lemma fromArray_not_empty (l : list A) :
  nonEmptyArray.fromArray l <> Some [].
Proof. destruct l; simpl; congruence. Qed.

Lemma find_ext (f g : A -> bool) (l : list A) :
  (forall x, f x = g x) -> List.find f l = List.find g l.
Proof.
  intros Hfg. induction l as [|x l IH]; simpl; [reflexivity|].
  rewrite Hfg, IH. reflexivity.
Qed.

Lemma filter_sublist (f : A -> bool) (l : list A) :
  sublist (List.filter f l) l.
Proof.
  induction l as [|x l IH]; simpl.
  - constructor.
  - destruct (f x); constructor; exact IH.
Qed.

Lemma map_sublist {B} (f : A -> B) (l1 l2 : list A) :
  sublist l1 l2 -> sublist (map f l1) (map f l2).
Proof. induction 1; simpl; constructor; assumption. Qed.

Lemma filter_all (f : A -> bool) (l : list A) :
  Forall (fun x => f x = true) l -> List.filter f l = l.
Proof.
  induction 1 as [|x l Hx _ IH]; simpl; [reflexivity|].
  rewrite Hx, IH. reflexivity.
Qed.

Lemma filter_none (f : A -> bool) (l : list A) :
  Forall (fun x => f x = false) l -> List.filter f l = [].
Proof.
  induction 1 as [|x l Hx _ IH]; simpl; [reflexivity|].
  rewrite Hx. exact IH.
Qed.

(** A list made of three groups told apart by [f], [g] and [h] is split
    back into them by the three filters. *)
Lemma three_groups (f g h : A -> bool) (l1 l2 l3 : list A) :
  Forall (fun x => f x = true /\ g x = false /\ h x = false) l1 ->
  Forall (fun x => f x = false /\ g x = true /\ h x = false) l2 ->
  Forall (fun x => f x = false /\ g x = false /\ h x = true) l3 ->
  List.filter f (l1 ++ l2 ++ l3) = l1
  /\ List.filter g (l1 ++ l2 ++ l3) = l2
  /\ List.filter h (l1 ++ l2 ++ l3) = l3.
Proof.
  intros H1 H2 H3. rewrite !List.filter_app.
  rewrite (filter_all f l1), (filter_none f l2), (filter_none f l3),
    (filter_none g l1), (filter_all g l2), (filter_none g l3),
    (filter_none h l1), (filter_none h l2), (filter_all h l3);
    try (match goal with
         | Hl : Forall _ ?l |- Forall _ ?l =>
             revert Hl; apply List.Forall_impl; tauto
         end).
  rewrite !app_nil_r. simpl. auto.
Qed.

(** Keeping at most one pair per element, each with the element as its
    first component, keeps the order of the elements. *)
Lemma flat_map_fst_sublist {B} (F : A -> option B) (l : list A) :
  sublist
    (map fst (flat_map (fun a => map (fun b => (a, b)) (option.toArray (F a))) l))
    l.
Proof.
  induction l as [|x l IH]; simpl; [constructor|].
  destruct (F x); simpl; constructor; exact IH.
Qed.
End ListFacts.

Section ChangeDetection.
Context {A B : Type} `{HasPath A} `{HasType A} `{HasPath B} `{HasType B}.

Lemma elem_eqPath_l (a : A) (bs : list B) :
  array.elem eqPath a bs = true <-> In (path a) (paths bs).
Proof.
  unfold array.elem, eqPath, paths. rewrite existsb_exists, in_map_iff.
  split; intros [x [Hx Hy]].
  - exists x. split; [apply String.eqb_eq; exact Hy|exact Hx].
  - exists x. split; [exact Hy|apply String.eqb_eq; exact Hx].
Qed.

Lemma elem_eqPath_r (b : B) (l : list A) :
  array.elem eqPath b l = true <-> In (path b) (paths l).
Proof.
  unfold array.elem, eqPath, paths. rewrite existsb_exists, in_map_iff.
  split; intros [x [Hx Hy]].
  - exists x. split; [apply String.eqb_eq; exact Hy|exact Hx].
  - exists x. split; [exact Hy|apply String.eqb_eq; exact Hx].
Qed.

(** The entries only in the first inventory. *)
Lemma in_difference_l (a : A) (xs : list A) (ys : list B) :
  In a (array.difference eqPath ys xs) <->
  In a xs /\ ~ In (path a) (paths ys).
Proof.
  unfold array.difference. rewrite filter_In, negb_true_iff.
  rewrite <- elem_eqPath_l, not_true_iff_false. reflexivity.
Qed.

Lemma in_difference_r (b : B) (xs : list A) (ys : list B) :
  In b (array.difference eqPath xs ys) <->
  In b ys /\ ~ In (path b) (paths xs).
Proof.
  unfold array.difference. rewrite filter_In, negb_true_iff.
  rewrite <- elem_eqPath_r, not_true_iff_false. reflexivity.
Qed.

Lemma entryAt_path (p : string) (l : list B) (e : B) :
  entryAt p l = Some e -> In e l /\ path e = p.
Proof.
  unfold entryAt. intros Hf. apply find_some in Hf as [Hin Heq].
  split; [exact Hin|apply String.eqb_eq; exact Heq].
Qed.
End ChangeDetection.

Section RemoteDiff.
Context {A B : Type}
  `{HasPath A} `{HasType A} `{HasVersion A}
  `{HasPath B} `{HasType B} `{HasVersion B}.

Lemma getRemoteChanges_groups (previous : list A) (latest : list B) :
  changesOf (getRemoteChanges previous latest) =
  removedOfRemote previous latest ++ addedOfRemote previous latest
    ++ updatedOfRemote previous latest.
Proof. unfold getRemoteChanges. apply changesOf_fromArray. Qed.

Lemma in_removedOfRemote (previous : list A) (latest : list B) r :
  In r (removedOfRemote previous latest) <->
  rfc_change r = remoteFileChange.removed
  /\ In (path r) (paths (files_of previous))
  /\ ~ In (path r) (paths (files_of latest)).
Proof.
  unfold removedOfRemote. rewrite in_map_iff. split.
  - intros [x [<- Hx]]. apply in_difference_l in Hx as [Hin Hout].
    split; [reflexivity|]. split; [|exact Hout].
    change (In (path x) (paths (files_of previous))).
    apply in_map. exact Hin.
  - intros [Hc [Hin Hout]]. apply in_map_iff in Hin as [x [Hp Hx]].
    exists x. split.
    + destruct r as [p c]. simpl in *. unfold path, RemoteFileChange_path in Hp.
      simpl in Hp. subst. reflexivity.
    + apply in_difference_l. split; [exact Hx|].
      rewrite Hp. exact Hout.
Qed.

Lemma in_addedOfRemote (previous : list A) (latest : list B) r :
  In r (addedOfRemote previous latest) <->
  exists e, In e (files_of latest) /\ path e = path r
            /\ ~ In (path r) (paths (files_of previous))
            /\ rfc_change r = remoteFileChange.added (version e).
Proof.
  unfold addedOfRemote. rewrite in_map_iff. split.
  - intros [x [<- Hx]]. apply in_difference_r in Hx as [Hin Hout].
    exists x. repeat split; assumption.
  - intros [e [Hin [Hp [Hout Hc]]]]. exists e. split.
    + destruct r as [p c]. simpl in *. unfold path, RemoteFileChange_path in Hp.
      simpl in Hp. subst. reflexivity.
    + apply in_difference_r. split; [exact Hin|].
      rewrite Hp. exact Hout.
Qed.

Lemma in_updatedOfRemote (previous : list A) (latest : list B) r :
  In r (updatedOfRemote previous latest) <->
  exists e e', In e (files_of previous) /\ path e = path r
               /\ entryAt (path r) (files_of latest) = Some e'
               /\ version e' <> version e
               /\ rfc_change r = remoteFileChange.updated (version e).
Proof.
  unfold updatedOfRemote, array.findFirst, entryAt.
  rewrite in_map_iff. split.
  - intros [x [<- Hx]]. apply filter_In in Hx as [Hin Hex].
    destruct (List.find _ _) as [e'|] eqn:Hfind; simpl in Hex; [|discriminate].
    exists x, e'. split; [exact Hin|]. split; [reflexivity|].
    split; [reflexivity|]. split; [|reflexivity].
    apply negb_true_iff, Z.eqb_neq in Hex. exact Hex.
  - intros [e [e' [Hin [Hp [Hfind [Hv Hc]]]]]]. exists e. split.
    + destruct r as [p c]. simpl in *. unfold path, RemoteFileChange_path in Hp.
      simpl in Hp. subst. reflexivity.
    + apply filter_In. split; [exact Hin|].
      rewrite Hp, Hfind. simpl. apply negb_true_iff, Z.eqb_neq. exact Hv.
Qed.
End RemoteDiff.

Section LocalDiff.
Context {A B : Type}
  `{HasPath A} `{HasType A} `{HasHash A}
  `{HasPath B} `{HasType B} `{HasHash B}.

Lemma getLocalChanges_groups (previous : list A) (latest : list B) :
  changesOf (getLocalChanges previous latest) =
  removedOfLocal previous latest ++ addedOfLocal previous latest
    ++ updatedOfLocal previous latest.
Proof. unfold getLocalChanges. apply changesOf_fromArray. Qed.

Lemma in_removedOfLocal (previous : list A) (latest : list B) r :
  In r (removedOfLocal previous latest) <->
  lfc_change r = localFileChange.removed
  /\ In (path r) (paths (files_of previous))
  /\ ~ In (path r) (paths (files_of latest)).
Proof.
  unfold removedOfLocal. rewrite in_map_iff. split.
  - intros [x [<- Hx]]. apply in_difference_l in Hx as [Hin Hout].
    split; [reflexivity|]. split; [|exact Hout].
    change (In (path x) (paths (files_of previous))).
    apply in_map. exact Hin.
  - intros [Hc [Hin Hout]]. apply in_map_iff in Hin as [x [Hp Hx]].
    exists x. split.
    + destruct r as [p c]. simpl in *. unfold path, LocalFileChange_path in Hp.
      simpl in Hp. subst. reflexivity.
    + apply in_difference_l. split; [exact Hx|].
      rewrite Hp. exact Hout.
Qed.

Lemma in_addedOfLocal (previous : list A) (latest : list B) r :
  In r (addedOfLocal previous latest) <->
  lfc_change r = localFileChange.added
  /\ In (path r) (paths (files_of latest))
  /\ ~ In (path r) (paths (files_of previous)).
Proof.
  unfold addedOfLocal. rewrite in_map_iff. split.
  - intros [x [<- Hx]]. apply in_difference_r in Hx as [Hin Hout].
    split; [reflexivity|]. split; [|exact Hout].
    change (In (path x) (paths (files_of latest))).
    apply in_map. exact Hin.
  - intros [Hc [Hin Hout]]. apply in_map_iff in Hin as [x [Hp Hx]].
    exists x. split.
    + destruct r as [p c]. simpl in *. unfold path, LocalFileChange_path in Hp.
      simpl in Hp. subst. reflexivity.
    + apply in_difference_r. split; [exact Hx|].
      rewrite Hp. exact Hout.
Qed.

(** The pairs [{ previous, latest }] the [updated] group is filtered from. *)
Lemma in_pairs (previous : list A) (latest : list B) (e : A) (e' : B) :
  In (e, e')
    (flat_map
       (fun previous =>
          map (fun latest => (previous, latest))
            (option.toArray
               (array.findFirst (fun latest => eqPath previous latest)
                  (files_of latest))))
       (files_of previous)) <->
  In e (files_of previous) /\ entryAt (path e) (files_of latest) = Some e'.
Proof.
  assert (Hsame : forall x : A,
    array.findFirst (fun latest : B => eqPath x latest) (files_of latest)
    = entryAt (path x) (files_of latest)).
  { intros x. apply find_ext. intros y. apply String.eqb_sym. }
  rewrite in_flat_map. split.
  - intros [x [Hx Hin]]. rewrite Hsame in Hin.
    destruct (entryAt (path x) (files_of latest)) as [l|] eqn:Hl; simpl in Hin.
    + destruct Hin as [Heq|[]]. inversion Heq; subst. split; assumption.
    + destruct Hin.
  - intros [Hin Hl]. exists e. split; [exact Hin|].
    rewrite Hsame, Hl. simpl. left. reflexivity.
Qed.

Lemma in_updatedOfLocal (previous : list A) (latest : list B) r :
  In r (updatedOfLocal previous latest) <->
  exists e e', In e (files_of previous) /\ path e = path r
               /\ entryAt (path r) (files_of latest) = Some e'
               /\ hash e' <> hash e
               /\ lfc_change r = localFileChange.updated.
Proof.
  unfold updatedOfLocal. rewrite in_map_iff. split.
  - intros [[e e'] [<- Hx]]. apply filter_In in Hx as [Hin Hneq].
    apply in_pairs in Hin as [Hin Hl].
    destruct (entryAt_path _ _ _ Hl) as [_ Hp].
    exists e, e'. split; [exact Hin|].
    change (path e = path e' /\ entryAt (path e') (files_of latest) = Some e'
            /\ hash e' <> hash e
            /\ localFileChange.updated = localFileChange.updated).
    rewrite Hp. split; [reflexivity|]. split; [exact Hl|].
    split; [|reflexivity].
    apply negb_true_iff, String.eqb_neq in Hneq. exact Hneq.
  - intros [e [e' [Hin [Hp [Hl [Hh Hc]]]]]]. exists (e, e'). split.
    + destruct (entryAt_path _ _ _ Hl) as [_ Hp'].
      destruct r as [p c]. simpl in *.
      unfold path at 2, LocalFileChange_path in Hp'. simpl in Hp'.
      subst. reflexivity.
    + apply filter_In. split.
      * apply in_pairs. split; [exact Hin|]. rewrite Hp. exact Hl.
      * apply negb_true_iff, String.eqb_neq. exact Hh.
Qed.
End LocalDiff.

(** ** The order of the records *)

Section GroupOrder.
Context {A B : Type} `{HasPath A} `{HasType A} `{HasPath B} `{HasType B}.

Lemma paths_map_l {C} `{HasPath C} (mk : A -> C) (l : list A) :
  (forall x, path (mk x) = path x) -> paths (map mk l) = paths l.
Proof.
  intros Hmk. unfold paths. rewrite map_map. apply map_ext. exact Hmk.
Qed.

Lemma difference_paths_sublist_l (xs : list A) (ys : list B) :
  sublist (paths (array.difference eqPath (files_of ys) (files_of xs)))
    (paths xs).
Proof.
  apply map_sublist. transitivity (files_of xs); apply filter_sublist.
Qed.

Lemma difference_paths_sublist_r (xs : list A) (ys : list B) :
  sublist (paths (array.difference eqPath (files_of xs) (files_of ys)))
    (paths ys).
Proof.
  apply map_sublist. transitivity (files_of ys); apply filter_sublist.
Qed.
End GroupOrder.

Section RemoteOrder.
Context {A B : Type}
  `{HasPath A} `{HasType A} `{HasVersion A}
  `{HasPath B} `{HasType B} `{HasVersion B}.

Lemma remote_groups_kinds (previous : list A) (latest : list B) :
  Forall (fun c => isRemovedR c = true /\ isAddedR c = false
                   /\ isUpdatedR c = false)
    (removedOfRemote previous latest)
  /\ Forall (fun c => isRemovedR c = false /\ isAddedR c = true
                      /\ isUpdatedR c = false)
       (addedOfRemote previous latest)
  /\ Forall (fun c => isRemovedR c = false /\ isAddedR c = false
                      /\ isUpdatedR c = true)
       (updatedOfRemote previous latest).
Proof.
  unfold removedOfRemote, addedOfRemote, updatedOfRemote.
  repeat split; apply List.Forall_forall; intros c Hc;
    apply in_map_iff in Hc as [x [<- _]]; repeat split.
Qed.

Lemma remote_groups_filters (previous : list A) (latest : list B) :
  let cs := changesOf (getRemoteChanges previous latest) in
  List.filter isRemovedR cs = removedOfRemote previous latest
  /\ List.filter isAddedR cs = addedOfRemote previous latest
  /\ List.filter isUpdatedR cs = updatedOfRemote previous latest.
Proof.
  intros cs. unfold cs. rewrite getRemoteChanges_groups.
  destruct (remote_groups_kinds previous latest) as [Hr [Ha Hu]].
  apply three_groups; assumption.
Qed.

Lemma remote_groups_paths (previous : list A) (latest : list B) :
  sublist (paths (removedOfRemote previous latest)) (paths previous)
  /\ sublist (paths (addedOfRemote previous latest)) (paths latest)
  /\ sublist (paths (updatedOfRemote previous latest)) (paths previous).
Proof.
  unfold removedOfRemote, addedOfRemote, updatedOfRemote.
  rewrite !paths_map_l by reflexivity. split; [|split].
  - apply difference_paths_sublist_l.
  - apply difference_paths_sublist_r.
  - apply map_sublist. transitivity (files_of previous); apply filter_sublist.
Qed.
End RemoteOrder.

Section LocalOrder.
Context {A B : Type}
  `{HasPath A} `{HasType A} `{HasHash A}
  `{HasPath B} `{HasType B} `{HasHash B}.

Lemma local_groups_kinds (previous : list A) (latest : list B) :
  Forall (fun c => isRemovedL c = true /\ isAddedL c = false
                   /\ isUpdatedL c = false)
    (removedOfLocal previous latest)
  /\ Forall (fun c => isRemovedL c = false /\ isAddedL c = true
                      /\ isUpdatedL c = false)
       (addedOfLocal previous latest)
  /\ Forall (fun c => isRemovedL c = false /\ isAddedL c = false
                      /\ isUpdatedL c = true)
       (updatedOfLocal previous latest).
Proof.
  unfold removedOfLocal, addedOfLocal, updatedOfLocal.
  repeat split; apply List.Forall_forall; intros c Hc;
    apply in_map_iff in Hc as [x [<- _]]; try destruct x; repeat split.
Qed.

Lemma local_groups_filters (previous : list A) (latest : list B) :
  let cs := changesOf (getLocalChanges previous latest) in
  List.filter isRemovedL cs = removedOfLocal previous latest
  /\ List.filter isAddedL cs = addedOfLocal previous latest
  /\ List.filter isUpdatedL cs = updatedOfLocal previous latest.
Proof.
  intros cs. unfold cs. rewrite getLocalChanges_groups.
  destruct (local_groups_kinds previous latest) as [Hr [Ha Hu]].
  apply three_groups; assumption.
Qed.

(** The path of an [updated] record is read from the latest entry, which
    has the path of the baseline entry it was paired with. *)
Lemma updatedOfLocal_paths (previous : list A) (latest : list B) :
  sublist (paths (updatedOfLocal previous latest)) (paths previous).
Proof.
  unfold updatedOfLocal.
  set (pairs := flat_map _ (files_of previous)).
  assert (Hpairs : forall e e', In (e, e') pairs -> path e' = path e).
  { intros e e' Hin. apply in_pairs in Hin as [_ Hl].
    apply entryAt_path in Hl as [_ Hp]. exact Hp. }
  transitivity (paths (map fst pairs)).
  - unfold paths. rewrite !map_map.
    assert (Hsub : forall l, (forall e e', In (e, e') l -> In (e, e') pairs) ->
      sublist
        (map (fun x : A * B =>
                path (let '(_, latest0) := x in
                      mkLocalFileChange (path latest0) localFileChange.updated))
           (List.filter
              (fun '(previous0, latest0) =>
                 negb (String.eqb (hash latest0) (hash previous0))) l))
        (map (fun x : A * B => path (fst x)) l)).
    { induction l as [|[e e'] l IH]; intros Hl; simpl; [constructor|].
      assert (Htail : forall a b, In (a, b) l -> In (a, b) pairs).
      { intros a b Hab. apply Hl. right. exact Hab. }
      destruct (negb _); simpl.
      - change (path (mkLocalFileChange (path e') localFileChange.updated))
          with (path e').
        rewrite (Hpairs e e') by (apply Hl; left; reflexivity).
        constructor. apply IH. exact Htail.
      - constructor. apply IH. exact Htail. }
    apply Hsub. auto.
  - apply map_sublist. transitivity (files_of previous).
    + apply flat_map_fst_sublist.
    + apply filter_sublist.
Qed.

Lemma local_groups_paths (previous : list A) (latest : list B) :
  sublist (paths (removedOfLocal previous latest)) (paths previous)
  /\ sublist (paths (addedOfLocal previous latest)) (paths latest)
  /\ sublist (paths (updatedOfLocal previous latest)) (paths previous).
Proof.
  split; [|split].
  - unfold removedOfLocal. rewrite paths_map_l by reflexivity.
    apply difference_paths_sublist_l.
  - unfold addedOfLocal. rewrite paths_map_l by reflexivity.
    apply difference_paths_sublist_r.
  - apply updatedOfLocal_paths.
Qed.
End LocalOrder.

(** ** Change detection: the results *)

(** C2.  For every baseline [previous] and observed inventory, both
    restricted to the entries of type ['file'], the remote diff holds
    exactly the expected records (a [removed] record for a path only in the
    baseline, an [added] record for a path only in the latest inventory, an
    [updated] record for a path in both whose versions differ), the local
    diff holds exactly the expected records with the hashes compared, and
    either diff is [none] exactly when no record is expected. *)
Theorem change_detection_exact :
  forall (previous : list FileInfo) (latestRemote : list RemoteFileInfo)
    (latestLocal : list LocalFileState),
    ((forall r, In r (changesOf (getRemoteChanges previous latestRemote)) <->
                expectedRemoteChange previous latestRemote r)
     /\ (getRemoteChanges previous latestRemote = None <->
         forall r, ~ expectedRemoteChange previous latestRemote r)
     /\ getRemoteChanges previous latestRemote <> Some [])
    /\
    ((forall r, In r (changesOf (getLocalChanges previous latestLocal)) <->
                expectedLocalChange previous latestLocal r)
     /\ (getLocalChanges previous latestLocal = None <->
         forall r, ~ expectedLocalChange previous latestLocal r)
     /\ getLocalChanges previous latestLocal <> Some []).
Proof.
  intros previous latestRemote latestLocal.
  assert (HR : forall r,
    In r (changesOf (getRemoteChanges previous latestRemote)) <->
    expectedRemoteChange previous latestRemote r).
  { intros r. rewrite getRemoteChanges_groups, !in_app_iff.
    rewrite in_removedOfRemote, in_addedOfRemote, in_updatedOfRemote.
    reflexivity. }
  assert (HL : forall r,
    In r (changesOf (getLocalChanges previous latestLocal)) <->
    expectedLocalChange previous latestLocal r).
  { intros r. rewrite getLocalChanges_groups, !in_app_iff.
    rewrite in_removedOfLocal, in_addedOfLocal, in_updatedOfLocal.
    reflexivity. }
  split; (split; [assumption|split]).
  - split.
    + intros Hnone r Hr. apply HR in Hr. rewrite Hnone in Hr. exact Hr.
    + intros Hno.
      destruct (getRemoteChanges previous latestRemote) as [[|r l]|] eqn:E;
        [|exfalso|reflexivity].
      * exfalso. revert E. apply fromArray_not_empty.
      * apply (Hno r), HR. left. reflexivity.
  - apply fromArray_not_empty.
  - split.
    + intros Hnone r Hr. apply HL in Hr. rewrite Hnone in Hr. exact Hr.
    + intros Hno.
      destruct (getLocalChanges previous latestLocal) as [[|r l]|] eqn:E;
        [|exfalso|reflexivity].
      * exfalso. revert E. apply fromArray_not_empty.
      * apply (Hno r), HL. left. reflexivity.
  - apply fromArray_not_empty.
Qed.

(** C7, as the specification words it, fails: two files added remotely
    are reported in the order of the remote inventory, here ["b.txt"] before
    ["a.txt"]. *)
Lemma change_order_not_alphabetical :
  ~ groupedAndAlphabetical
      (changesOf (getRemoteChanges ([] : list FileInfo) inventoryBA)).
Proof.
  intros [_ [_ [Hadded _]]].
  vm_compute in Hadded.
  inversion Hadded as [|a l _ Hhd]; subst.
  inversion Hhd as [|b l' Hle]; subst.
  vm_compute in Hle. discriminate Hle.
Qed.

(** C7, amended.  The records of a diff, remote or local, come in three
    groups: the [removed] ones, then the [added] ones, then the [updated]
    ones.  Within a group the records keep the order of the inventory they
    are taken from: the baseline for [removed] and [updated], the latest
    inventory for [added]. *)
Theorem change_order_follows_inventories :
  forall (previous : list FileInfo) (latestRemote : list RemoteFileInfo)
    (latestLocal : list LocalFileState),
    (let cs := changesOf (getRemoteChanges previous latestRemote) in
     cs = List.filter isRemovedR cs ++ List.filter isAddedR cs
            ++ List.filter isUpdatedR cs
     /\ sublist (paths (List.filter isRemovedR cs)) (paths previous)
     /\ sublist (paths (List.filter isAddedR cs)) (paths latestRemote)
     /\ sublist (paths (List.filter isUpdatedR cs)) (paths previous))
    /\
    (let cs := changesOf (getLocalChanges previous latestLocal) in
     cs = List.filter isRemovedL cs ++ List.filter isAddedL cs
            ++ List.filter isUpdatedL cs
     /\ sublist (paths (List.filter isRemovedL cs)) (paths previous)
     /\ sublist (paths (List.filter isAddedL cs)) (paths latestLocal)
     /\ sublist (paths (List.filter isUpdatedL cs)) (paths previous)).
Proof.
  intros previous latestRemote latestLocal. split; intros cs.
  - destruct (remote_groups_filters previous latestRemote) as [Er [Ea Eu]].
    destruct (remote_groups_paths previous latestRemote) as [Sr [Sa Su]].
    fold cs in Er, Ea, Eu. rewrite Er, Ea, Eu.
    split; [apply getRemoteChanges_groups|]. auto.
  - destruct (local_groups_filters previous latestLocal) as [Er [Ea Eu]].
    destruct (local_groups_paths previous latestLocal) as [Sr [Sa Su]].
    fold cs in Er, Ea, Eu. rewrite Er, Ea, Eu.
    split; [apply getLocalChanges_groups|]. auto.
Qed.

(** C10.  An [updated] record of [getRemoteChanges] carries the version of
    the baseline entry at its path; the latest remote entry at that path has
    another version. *)
Theorem updated_record_has_baseline_version :
  forall (previous : list FileInfo) (latest : list RemoteFileInfo)
    (p : string) (v : Z),
    In (mkRemoteFileChange p (remoteFileChange.updated v))
      (changesOf (getRemoteChanges previous latest)) ->
    exists e e',
      In e (files_of previous) /\ path e = p /\ version e = v
      /\ entryAt p (files_of latest) = Some e' /\ version e' <> v.
Proof.
  intros previous latest p v Hin.
  rewrite getRemoteChanges_groups, !in_app_iff in Hin.
  destruct Hin as [Hin|[Hin|Hin]].
  - apply in_removedOfRemote in Hin as [Hc _]. discriminate Hc.
  - apply in_addedOfRemote in Hin as [e [_ [_ [_ Hc]]]]. discriminate Hc.
  - apply in_updatedOfRemote in Hin as [e [e' [Hin [Hp [He' [Hv Hc]]]]]].
    simpl in Hc. injection Hc as Hc. exists e, e'.
    rewrite Hc. repeat split; assumption.
Qed.

Lemma updated_record_has_baseline_version_witness :
  exists e e',
    In e (files_of baselineA1) /\ path e = "a.txt"%string /\ version e = 1
    /\ entryAt "a.txt" (files_of inventoryA2) = Some e' /\ version e' <> 1.
Proof.
  apply (updated_record_has_baseline_version baselineA1 inventoryA2 "a.txt" 1).
  vm_compute. left. reflexivity.
Defined.

(** * The upload-eligibility checks *)

Section Checks.
Context `{PathApi}.



(** Enough fuel gives the result: a path the map knows, reached before
    the walk passes ['.'], is found. *)
Lemma findClosest_found {A} (map : string -> option A) (n : nat) :
  forall (p q : string) (a : A) (fuel : nat),
    ancestorAt n p = Some q -> map q = Some a ->
    (forall m q', (m < n)%nat -> ancestorAt m p = Some q' ->
                  map q' = None /\ q' <> "."%string) ->
    (n < fuel)%nat ->
    findClosest fuel map p = Right a.
Proof.
  induction n as [|n IH]; intros p q a fuel Hanc Hq Hbefore Hfuel;
    (destruct fuel as [|fuel]; [lia|]); simpl.
  - simpl in Hanc. injection Hanc as ->. rewrite Hq. reflexivity.
  - destruct (Hbefore O p) as [Hp Hroot]; [lia|reflexivity|].
    rewrite Hp. apply String.eqb_neq in Hroot. rewrite Hroot.
    simpl in Hanc. destruct (dirname p) as [reason|parent] eqn:Hdir;
      [discriminate|].
    apply (IH parent q); [exact Hanc|exact Hq| |lia].
    intros m q' Hm Hq'. apply (Hbefore (S m)); [lia|].
    simpl. rewrite Hdir. exact Hq'.
Qed.



(** The check on an [updated] or [removed] file that the remote inventory
    does not hold as ['rw'] fails with an empty [path]. *)
Lemma getFilesToUpload_read_only (fuel : nat) (c : LocalFileChange)
  (rest : list LocalFileChange) (remote : list RemoteFileInfo) :
  lfc_change c = localFileChange.updated
  \/ lfc_change c = localFileChange.removed ->
  isFileWritable remote c = false ->
  getFilesToUpload fuel (c :: rest) remote
  = Left (readOnlyFilesChanged "" "File is read-only").
Proof.
  intros Hkind Hro. unfold getFilesToUpload. simpl.
  destruct Hkind as [Hc|Hc]; rewrite Hc; simpl; rewrite Hc;
    unfold taskEither.fromPredicate; rewrite Hro; reflexivity.
Qed.
End Checks.

(** The concrete runs are on the in-memory host. *)
Import MemoryHost.


(** C6.  The specification has the exception name the offending file; the
    check on a read-only file that was edited or deleted locally fails with
    [readOnlyFilesChanged] and an empty [path], not ["README.md"]. *)
Theorem read_only_violation_has_empty_path :
  forall (P : PathApi) (fuel : nat),
    getFilesToUpload fuel readmeEdited readmeReadOnly
    = Left (readOnlyFilesChanged "" "File is read-only")
    /\ getFilesToUpload fuel readmeDeleted readmeReadOnly
       = Left (readOnlyFilesChanged "" "File is read-only")
    /\ readOnlyFilesChanged "" "File is read-only"
       <> readOnlyFilesChanged "README.md" "File is read-only".
Proof.
  intros P fuel. split; [|split].
  - apply getFilesToUpload_read_only; [left; reflexivity|reflexivity].
  - apply getFilesToUpload_read_only; [right; reflexivity|reflexivity].
  - discriminate.
Qed.

(** ** The exceptions of the checks *)

Section CheckFailures.
Context `{PathApi}.

Lemma traverseArray_Left {A B} (f : A -> Outcome B) (xs : list A)
  (e : SyncException) :
  taskEither.traverseArray f xs = Left e ->
  exists x, In x xs /\ f x = Left e.
Proof.
  induction xs as [|x xs IH]; simpl; [discriminate|].
  destruct (f x) as [y|e0| |] eqn:Hx; simpl; try discriminate.
  - unfold taskEither.map. simpl.
    destruct (taskEither.traverseArray f xs) as [ys|e1| |]; simpl;
      try discriminate.
    intros He. destruct (IH He) as [x' [Hin Hx']].
    exists x'. split; [right; exact Hin|exact Hx'].
  - intros He. exists x. split; [left; reflexivity|].
    injection He as <-. exact Hx.
Qed.

Lemma findClosest_Left {A} (fuel : nat) (map : string -> option A)
  (p : string) (e : SyncException) :
  findClosest fuel map p = Left e -> isCheckFailure e = true.
Proof.
  revert p. induction fuel as [|fuel IH]; intros p; simpl; [discriminate|].
  destruct (map p); [discriminate|].
  destruct (String.eqb p ".").
  - intros He. injection He as <-. reflexivity.
  - destruct (dirname p) as [reason|parent].
    + intros He. injection He as <-. reflexivity.
    + apply IH.
Qed.

Lemma checkClosest_Left (fuel : nat) (remote : list RemoteFileInfo)
  (c : LocalFileChange) (e : SyncException) :
  checkClosestExistingAncestorIsWritable fuel remote c = Left e ->
  isCheckFailure e = true.
Proof.
  unfold checkClosestExistingAncestorIsWritable, taskEither.chainFirst,
    taskEither.filterOrElse, taskEither.map, taskEither.of_. simpl.
  destruct (findClosest fuel _ (path c)) as [b|e0| |] eqn:Hfind; simpl;
    try discriminate.
  - destruct b; simpl; [discriminate|].
    intros He. injection He as <-. reflexivity.
  - intros He. injection He as <-. apply (findClosest_Left _ _ _ _ Hfind).
Qed.

Lemma checkValidFileName_Left (c : LocalFileChange) (e : SyncException) :
  checkValidFileName c = Left e -> isCheckFailure e = true.
Proof.
  unfold checkValidFileName, taskEither.chainFirst, taskEither.filterOrElse,
    taskEither.map, taskEither.of_, taskEither.fromOption. simpl.
  destruct (basename (path c)) as [name|]; simpl.
  - destruct (isValidFileName name); simpl; [discriminate|].
    intros He. injection He as <-. reflexivity.
  - intros He. injection He as <-. reflexivity.
Qed.

Lemma ancestors_Left (fuel : nat) :
  forall (seed : SyncException + string) (steps : list (SyncException + string))
    (e : SyncException),
    ancestors fuel seed = Some steps -> In (inl e) steps ->
    isCheckFailure e = true.
Proof.
  induction fuel as [|fuel IH]; intros seed steps e; simpl; [discriminate|].
  destruct seed as [e0|p].
  - intros Hs. injection Hs as <-. intros [].
  - destruct (String.eqb p ".").
    + intros Hs. injection Hs as <-. intros [].
    + destruct (ancestors fuel _) as [rest|] eqn:Hrest; simpl; [|discriminate].
      intros Hs. injection Hs as <-. intros [Hhd|Htl].
      * destruct (dirname p); inversion Hhd. reflexivity.
      * apply (IH _ _ _ Hrest Htl).
Qed.

Lemma sequenceArray_inl {X A} (xs : list (X + A)) (e : X) :
  sequenceArray xs = inl e -> In (inl e) xs.
Proof.
  induction xs as [|[x|a] xs IH]; simpl; [discriminate| |].
  - intros He. injection He as <-. left. reflexivity.
  - destruct (sequenceArray xs); [|discriminate].
    intros He. right. apply IH. exact He.
Qed.

Lemma checkEveryNewAncestor_Left (fuel : nat) (remote : list RemoteFileInfo)
  (c : LocalFileChange) (e : SyncException) :
  checkEveryNewAncestorIsValidDirName fuel remote c = Left e ->
  isCheckFailure e = true.
Proof.
  unfold checkEveryNewAncestorIsValidDirName.
  destruct (ancestors fuel (inr (path c))) as [steps|] eqn:Hsteps;
    [|discriminate].
  unfold taskEither.map, taskEither.chain, taskEither.fromEither,
    taskEither.fromOption.
  destruct (sequenceArray steps) as [e0|ps] eqn:Hseq.
  - intros He. injection He as <-.
    apply (ancestors_Left _ _ _ _ Hsteps). apply sequenceArray_inl. exact Hseq.
  - destruct (option.filter _ _); [discriminate|].
    intros He. injection He as <-. reflexivity.
Qed.

(** [getFilesToUpload] fails only with the exceptions of its checks. *)
Lemma getFilesToUpload_Left (fuel : nat) (local : list LocalFileChange)
  (remote : list RemoteFileInfo) (e : SyncException) :
  getFilesToUpload fuel local remote = Left e -> isCheckFailure e = true.
Proof.
  unfold getFilesToUpload. intros He.
  apply traverseArray_Left in He as [x [_ Hx]].
  destruct (lfc_change x).
  - discriminate.
  - unfold taskEither.fromPredicate in Hx.
    destruct (isFileWritable remote x); [discriminate|].
    injection Hx as <-. reflexivity.
  - unfold taskEither.fromPredicate, taskEither.chain in Hx.
    destruct (isFileWritable remote x).
    + apply (checkClosest_Left _ _ _ _ Hx).
    + injection Hx as <-. reflexivity.
  - unfold taskEither.chainFirst, taskEither.chain, taskEither.map in Hx.
    destruct (checkClosestExistingAncestorIsWritable fuel remote x)
      as [c1|e1| |] eqn:H1; try discriminate.
    + destruct (checkEveryNewAncestorIsValidDirName fuel remote c1)
        as [c2|e2| |] eqn:H2; try discriminate.
      * destruct (checkValidFileName c2) as [c3|e3| |] eqn:H3;
          try discriminate.
        injection Hx as <-. apply (checkValidFileName_Left _ _ H3).
      * injection Hx as <-. apply (checkEveryNewAncestor_Left _ _ _ _ H2).
    + injection Hx as <-. apply (checkClosest_Left _ _ _ _ H1).
Qed.
End CheckFailures.

(** * Runs: what every step preserves *)

Section BindFacts.
Context {World : Type}.

Lemma bind_Right {A B} (m : M World A) (f : A -> M World B)
  (st st1 : RunState World) (a : A) :
  m st = (Right a, st1) -> bind m f st = f a st1.
Proof. intros Hm. unfold bind. rewrite Hm. reflexivity. Qed.

Lemma bind_inv_Right {A B} (m : M World A) (f : A -> M World B)
  (st st' : RunState World) (b : B) :
  bind m f st = (Right b, st') ->
  exists a st1, m st = (Right a, st1) /\ f a st1 = (Right b, st').
Proof.
  unfold bind. destruct (m st) as [[a|e| |] st1]; intros Hb;
    try discriminate.
  exists a, st1. split; [reflexivity|exact Hb].
Qed.

(** A [bind] whose first part does not succeed stops there. *)
Lemma bind_stops {A B} (m : M World A) (f : A -> M World B)
  (st : RunState World) :
  (forall a, fst (m st) <> Right a) ->
  snd (bind m f st) = snd (m st)
  /\ (forall b, fst (bind m f st) <> Right b)
  /\ (forall e, fst (bind m f st) = Left e <-> fst (m st) = Left e).
Proof.
  unfold bind. destruct (m st) as [[a|e| |] st1]; simpl; intros Hm.
  - exfalso. apply (Hm a). reflexivity.
  - repeat split; congruence.
  - repeat split; congruence.
  - repeat split; congruence.
Qed.
End BindFacts.

Section Safety.
Context {World : Type} `{Host World} `{PathApi}.
Variable R : relation (RunState World).
Variable E : SyncException -> Prop.
Variable id : ProjectId.
Variables up down del : bool.
Hypothesis R_refl : forall st, R st st.
Hypothesis R_trans : forall a b c, R a b -> R b c -> R a c.
Hypothesis R_world :
  forall st w, R st (mkRunState w (store st) (trace st)).
Hypothesis R_emit :
  forall st ev, allowedEvent id up down del ev = true ->
                R st (mkRunState (world st) (store st) (trace st ++ [ev])).
Hypothesis E_other : forall e, e <> conflictingChanges -> E e.

Lemma Safe_ret {A} (a : A) : Safe R E (ret a).
Proof using R_refl.
  intros st. simpl. split; [apply R_refl|discriminate].
Qed.

Lemma Safe_bind {A B} (m : M World A) (f : A -> M World B) :
  Safe R E m -> (forall a, Safe R E (f a)) -> Safe R E (bind m f).
Proof using R_trans.
  intros Hm Hf st. unfold bind.
  destruct (Hm st) as [HR HE].
  destruct (m st) as [[a|e| |] st1]; simpl in *.
  - destruct (Hf a st1) as [HR' HE']. split.
    + apply (R_trans _ st1); assumption.
    + exact HE'.
  - split; [exact HR|].
    intros e0 He0. injection He0 as <-. apply HE. reflexivity.
  - split; [exact HR|discriminate].
  - split; [exact HR|discriminate].
Qed.

Lemma Safe_liftOutcome {A} (o : Outcome A) :
  (forall e, o = Left e -> E e) -> Safe R E (liftOutcome o).
Proof using R_refl.
  intros Ho st. simpl. split; [apply R_refl|exact Ho].
Qed.

Lemma Safe_emit (ev : Event) :
  allowedEvent id up down del ev = true -> Safe R E (emit ev).
Proof using R_emit.
  intros Hev st. simpl. split; [apply R_emit; exact Hev|discriminate].
Qed.

Lemma Safe_hostTask {A} (f : World -> A * World) : Safe R E (hostTask f).
Proof using R_world.
  intros st. unfold hostTask. destruct (f (world st)) as [a w]. simpl.
  split; [apply R_world|discriminate].
Qed.

Lemma Safe_hostRead {A} (f : World -> A) : Safe R E (hostRead f).
Proof using R_refl.
  intros st. simpl. split; [apply R_refl|discriminate].
Qed.

Lemma Safe_traverseSeq {A B} (f : A -> M World B) (xs : list A) :
  (forall x, Safe R E (f x)) -> Safe R E (traverseSeq f xs).
Proof using R_refl R_trans.
  intros Hf. induction xs as [|x xs IH]; simpl.
  - apply Safe_ret.
  - apply Safe_bind; [apply Hf|]. intros y.
    apply Safe_bind; [exact IH|]. intros ys. apply Safe_ret.
Qed.

Lemma Safe_traverseOpt {A B} (f : A -> M World B) (o : option A) :
  (forall x, Safe R E (f x)) -> Safe R E (traverseOpt f o).
Proof using R_refl R_trans.
  intros Hf. destruct o as [a|]; simpl.
  - apply Safe_bind; [apply Hf|]. intros b. apply Safe_ret.
  - apply Safe_ret.
Qed.

Lemma Safe_orCorrupted {A} (p : string) (r : string + A) :
  Safe R E (orCorrupted p r).
Proof using R_refl E_other.
  apply Safe_liftOutcome. intros e He. apply E_other.
  destruct r; inversion He; subst; discriminate.
Qed.

Lemma Safe_orThrow {A} (r : string + A) : Safe R E (orThrow r).
Proof using R_refl.
  apply Safe_liftOutcome. intros e He. destruct r; discriminate.
Qed.

Lemma Safe_orHttpError {A} (r : ApiError + A) : Safe R E (orHttpError r).
Proof using R_refl E_other.
  apply Safe_liftOutcome. intros e He. apply E_other.
  destruct r as [[]|]; inversion He; subst; discriminate.
Qed.

Lemma Safe_apiSigned {A} (method : HttpMethod) (p : string)
  (payload : JwtPayload) (answer : World -> (ApiError + A) * World) :
  allowedEvent id up down del (ApiRequest method p payload) = true ->
  Safe R E (apiSigned method p payload answer).
Proof using R_trans R_emit R_world.
  intros Hev. unfold apiSigned. apply Safe_bind.
  - apply Safe_emit. exact Hev.
  - intros _. apply Safe_hostTask.
Qed.

Ltac safe_step :=
  lazymatch goal with
  | |- Safe _ _ (ret _) => apply Safe_ret
  | |- Safe _ _ (hostRead _) => apply Safe_hostRead
  | |- Safe _ _ (hostTask _) => apply Safe_hostTask
  | |- Safe _ _ (orCorrupted _ _) => apply Safe_orCorrupted
  | |- Safe _ _ (orThrow _) => apply Safe_orThrow
  | |- Safe _ _ (orHttpError _) => apply Safe_orHttpError
  | |- Safe _ _ (bind _ _) => apply Safe_bind; [|intros ?]
  | |- Safe _ _ (traverseSeq _ _) => apply Safe_traverseSeq; intros ?
  | |- Safe _ _ (traverseOpt _ _) => apply Safe_traverseOpt; intros ?
  | |- Safe _ _ (emit _) => apply Safe_emit
  | |- Safe _ _ (apiSigned _ _ _ _) => apply Safe_apiSigned
  end.

Ltac safe_steps := cbv zeta; repeat safe_step.

Lemma Safe_getProjectInfoRemote : Safe R E (getProjectInfoRemote id).
Proof using R_refl R_trans R_world R_emit E_other.
  unfold getProjectInfoRemote. safe_steps.
  simpl. apply String.eqb_refl.
Qed.

Lemma Safe_addHash (dir p : string) : Safe R E (addHash dir p).
Proof using R_refl R_trans.
  unfold addHash. safe_steps.
Qed.

Lemma Safe_getProjectInfoLocal (dir : string) :
  Safe R E (getProjectInfoLocal dir).
Proof using R_refl R_trans E_other.
  unfold getProjectInfoLocal, getProjectFilesLocal. safe_steps.
  apply Safe_addHash.
Qed.

Lemma Safe_syncDetect (project : Project) :
  projectId (projectADT.value project) = id ->
  Safe R E (syncDetect project).
Proof using R_refl R_trans R_world R_emit E_other.
  intros Hid. unfold syncDetect. rewrite Hid. safe_steps.
  - apply Safe_liftOutcome. intros e He. apply E_other.
    destruct a; inversion He. discriminate.
  - apply Safe_getProjectInfoRemote.
  - apply Safe_getProjectInfoLocal.
Qed.

Lemma Safe_uploadChangedFiles (fileName dir : string)
  (changes : list LocalFileChange) :
  up = true -> Safe R E (uploadChangedFiles fileName id dir changes).
Proof using R_refl R_trans R_world R_emit E_other.
  intros Hup. unfold uploadChangedFiles. safe_steps.
  - simpl. exact Hup.
  - destruct (map _ _); safe_steps.
  - destruct (map _ _); simpl; rewrite Hup, String.eqb_refl; reflexivity.
Qed.

Lemma Safe_updateDir (dirPath dir : string) (perm : FilePermissions) :
  Safe R E (updateDir dirPath dir perm).
Proof using R_refl R_trans R_world R_emit E_other.
  unfold updateDir. safe_steps. reflexivity.
Qed.

Lemma Safe_writeSingeFile (p dir : string) (v : Z) (perm : FilePermissions)
  (t : FileEntryType) :
  down = true -> Safe R E (writeSingeFile p id dir v perm t).
Proof using R_refl R_trans R_world R_emit E_other.
  intros Hdown. unfold writeSingeFile. safe_steps.
  - simpl. exact Hdown.
  - simpl. rewrite Hdown, String.eqb_refl. reflexivity.
  - simpl. exact Hdown.
Qed.

Lemma Safe_deleteSingeFile (p dir : string) :
  del = true -> Safe R E (deleteSingeFile p dir).
Proof using R_refl R_trans R_world R_emit.
  intros Hdel. unfold deleteSingeFile. safe_steps. simpl. exact Hdel.
Qed.

Lemma Safe_syncUpload (project : Project) (d : Detected)
  (filesToUpload : option (list LocalFileChange)) :
  projectId (projectADT.value project) = id ->
  (filesToUpload <> None -> up = true) ->
  Safe R E (syncUpload project d filesToUpload).
Proof using R_refl R_trans R_world R_emit E_other.
  intros Hid Hup. unfold syncUpload. rewrite Hid.
  destruct filesToUpload as [changes|]; safe_steps.
  apply Safe_uploadChangedFiles. apply Hup. discriminate.
Qed.

Lemma Safe_syncDownload (project : Project) (d : Detected)
  (filesToDownload : option (list RemoteFileInfo)) :
  projectId (projectADT.value project) = id ->
  (filesToDownload <> None -> down = true) ->
  Safe R E (syncDownload project d filesToDownload).
Proof using R_refl R_trans R_world R_emit E_other.
  intros Hid Hdown. unfold syncDownload. rewrite Hid. safe_steps.
  - apply Safe_updateDir.
  - destruct filesToDownload as [wanted|]; safe_steps.
    apply Safe_writeSingeFile. apply Hdown. discriminate.
Qed.

Lemma Safe_syncDelete (d : Detected)
  (filesToDelete : option (list RemoteFileChange)) :
  (filesToDelete <> None -> del = true) ->
  Safe R E (syncDelete d filesToDelete).
Proof using R_refl R_trans R_world R_emit.
  intros Hdel. unfold syncDelete.
  destruct filesToDelete as [gone|]; safe_steps.
  apply Safe_deleteSingeFile. apply Hdel. discriminate.
Qed.

Lemma Safe_syncUpdatedProjectInfo (project : Project) (d : Detected) :
  projectId (projectADT.value project) = id ->
  Safe R E (syncUpdatedProjectInfo project d).
Proof using R_refl R_trans R_world R_emit E_other.
  intros Hid. unfold syncUpdatedProjectInfo. rewrite Hid. safe_steps.
  - apply Safe_getProjectInfoRemote.
  - apply Safe_addHash.
Qed.

(** After the conflict check: uploads happen only when there are local
    changes, downloads and local deletions only when there are remote
    changes, and no step fails with [conflictingChanges]. *)
Lemma Safe_syncReconcile (fuel : nat) (project : Project) (d : Detected)
  (localChanges : option (list LocalFileChange))
  (remoteChanges : option (list RemoteFileChange)) :
  projectId (projectADT.value project) = id ->
  (localChanges <> None -> up = true) ->
  (remoteChanges <> None -> down = true /\ del = true) ->
  Safe R E (syncReconcile fuel project d localChanges remoteChanges).
Proof using R_refl R_trans R_world R_emit E_other.
  intros Hid Hup Hpull. unfold syncReconcile. cbv zeta.
  assert (Hrest : forall filesToUpload,
    (filesToUpload <> None -> up = true) ->
    Safe R E
      (let* _ := syncUpload project d filesToUpload in
       let* _ :=
         syncDownload project d
           (option_map (getFilesToDownload (info_files (projectInfoRemote d)))
              remoteChanges) in
       let* _ := syncDelete d (option_map getFilesToDelete remoteChanges) in
       syncUpdatedProjectInfo project d)).
  { intros filesToUpload Hsome. safe_steps.
    - apply Safe_syncUpload; assumption.
    - apply Safe_syncDownload; [exact Hid|].
      intros Hdl. apply Hpull. destruct remoteChanges; [discriminate|].
      exfalso. apply Hdl. reflexivity.
    - apply Safe_syncDelete.
      intros Hdl. apply Hpull. destruct remoteChanges; [discriminate|].
      exfalso. apply Hdl. reflexivity.
    - apply Safe_syncUpdatedProjectInfo. exact Hid. }
  destruct localChanges as [changes|]; simpl traverseOpt.
  - apply Safe_bind;
      [|intros filesToUpload; apply Hrest; intros _; apply Hup; discriminate].
    safe_steps.
    apply Safe_liftOutcome. intros e He. apply E_other.
    apply getFilesToUpload_Left in He. intros ->. discriminate He.
  - assert (Hnone : (None : option (list LocalFileChange)) <> None -> up = true).
    { intros Hsome. exfalso. apply Hsome. reflexivity. }
    intros st. exact (Hrest None Hnone st).
Qed.

Lemma Safe_syncApply (fuel : nat) (project : Project)
  (force : option ForceSyncDirection) (d : Detected) :
  projectId (projectADT.value project) = id ->
  E conflictingChanges ->
  (localChangesOf force d <> None -> up = true) ->
  (remoteChangesOf force d <> None -> down = true /\ del = true) ->
  Safe R E (syncApply fuel project force d).
Proof using R_refl R_trans R_world R_emit E_other.
  intros Hid Hconflict Hup Hpull. unfold syncApply. safe_steps.
  - apply Safe_liftOutcome. intros e He.
    destruct (checkConflicts _ _) as [e0|[]] eqn:Hc; [|discriminate].
    unfold checkConflicts in Hc.
    destruct (option.chain _ _); [|discriminate].
    injection Hc as <-. injection He as <-. exact Hconflict.
  - apply Safe_syncReconcile; assumption.
Qed.
End Safety.

(** ** The three readings of [Safe] *)

Section Readings.
Context {World : Type}.

Lemma sameStore_refl (st : RunState World) : sameStore st st.
Proof. reflexivity. Qed.

Lemma sameStore_trans (a b c : RunState World) :
  sameStore a b -> sameStore b c -> sameStore a c.
Proof. unfold sameStore. congruence. Qed.

Lemma emitsOnly_refl (P : Event -> Prop) (st : RunState World) :
  emitsOnly P st st.
Proof. exists []. split; [symmetry; apply app_nil_r|constructor]. Qed.

Lemma emitsOnly_trans (P : Event -> Prop) (a b c : RunState World) :
  emitsOnly P a b -> emitsOnly P b c -> emitsOnly P a c.
Proof.
  intros [e1 [H1 F1]] [e2 [H2 F2]]. exists (e1 ++ e2). split.
  - rewrite H2, H1. symmetry. apply app_assoc.
  - apply List.Forall_app. split; assumption.
Qed.

Lemma emitsOnly_world (P : Event -> Prop) (st : RunState World) (w : World) :
  emitsOnly P st (mkRunState w (store st) (trace st)).
Proof. exists []. split; [symmetry; apply app_nil_r|constructor]. Qed.

Lemma emitsOnly_emit (P : Event -> Prop) (st : RunState World) (ev : Event) :
  P ev -> emitsOnly P st (mkRunState (world st) (store st) (trace st ++ [ev])).
Proof. intros Hev. exists [ev]. split; [reflexivity|]. repeat constructor. exact Hev. Qed.

Lemma emitsOnly_weaken (P Q : Event -> Prop) (st st' : RunState World) :
  (forall ev, P ev -> Q ev) -> emitsOnly P st st' -> emitsOnly Q st st'.
Proof.
  intros HPQ [evs [Ht HF]]. exists evs. split; [exact Ht|].
  revert HF. apply List.Forall_impl. exact HPQ.
Qed.
End Readings.

(** The request for the inventory is not a request for a file. *)
Lemma append_cancel (s a b : string) : s +:+ a = s +:+ b -> a = b.
Proof.
  induction s as [|c s IH]; simpl; intros Heq; [exact Heq|].
  injection Heq as Heq. apply IH. exact Heq.
Qed.

Lemma info_is_not_file (id : ProjectId) :
  "project/" +:+ id +:+ "/info" <> "project/" +:+ id +:+ "/file".
Proof.
  intros Heq. apply append_cancel, append_cancel in Heq. discriminate Heq.
Qed.

(** Without downloads and local deletions allowed, no event is a request
    for a file or the removal of a local file. *)
Lemma allowed_without_pull (id : ProjectId) (up : bool) (ev : Event) :
  allowedEvent id up false false ev = true ->
  (forall payload,
      ev <> ApiRequest GET ("project/" +:+ id +:+ "/file") payload)
  /\ (forall p, ev <> RemoveFile p).
Proof.
  intros Hev. split.
  - intros payload ->. unfold allowedEvent in Hev.
    destruct payload; [|discriminate Hev|discriminate Hev].
    apply String.eqb_eq in Hev. symmetry in Hev.
    exact (info_is_not_file id Hev).
  - intros p ->. discriminate Hev.
Qed.

(** Without uploads allowed, no event is a [POST]. *)
Lemma allowed_without_upload (id : ProjectId) (down del : bool) (ev : Event) :
  allowedEvent id false down del ev = true ->
  forall p payload, ev <> ApiRequest POST p payload.
Proof.
  intros Hev p payload ->. unfold allowedEvent in Hev.
  destruct payload; discriminate Hev.
Qed.

(** * Runs: the results *)

Section Runs.
Context {World : Type} `{Host World} `{PathApi}.

(** The shape of a run: the new state is stored only once detection and
    everything [syncApply] does have succeeded. *)
Lemma run_unfold (fuel : nat) (project : Project)
  (force : option ForceSyncDirection) (st : RunState World) :
  runProjectSync fuel project force st =
  match syncDetect project st with
  | (Right d, st1) =>
      match syncApply fuel project force d st1 with
      | (Right updatedFiles, st2) =>
          (Right tt,
           mkRunState (world st2)
             (projectRepository.upsertOne
                (newProjectState project d updatedFiles (now (world st2)))
                (store st2))
             (trace st2))
      | (Left e, st2) => (Left e, st2)
      | (Thrown, st2) => (Thrown, st2)
      | (Diverged, st2) => (Diverged, st2)
      end
  | (Left e, st1) => (Left e, st1)
  | (Thrown, st1) => (Thrown, st1)
  | (Diverged, st1) => (Diverged, st1)
  end.
Proof.
  unfold runProjectSync, bind.
  destruct (syncDetect project st) as [[d|e| |] st1]; reflexivity.
Qed.

(** What detection binds. *)
Lemma syncDetect_inv (project : Project) (st st1 : RunState World)
  (d : Detected) :
  syncDetect project st = (Right d, st1) ->
  exists rootDir,
    settingRead_projectDir (world st) = Some rootDir
    /\ projectDirRelative d = relativeDirOf project
    /\ projectDir d = join [rootDir; relativeDirOf project]
    /\ projectInfoPrevious d
       = option_map files (projectPrism.local_getOption project)
    /\ (projectPrism.local_getOption project = None ->
        projectInfoLocal d = None).
Proof.
  unfold syncDetect. intros Hrun.
  apply bind_inv_Right in Hrun as [setting [sa [Hsetting Hrun]]].
  apply bind_inv_Right in Hrun as [rootDir [sb [Hroot Hrun]]].
  apply bind_inv_Right in Hrun as [info [sc [Hinfo Hrun]]].
  apply bind_inv_Right in Hrun as [local [sd [Hlocal Hrun]]].
  unfold ret in Hrun. injection Hrun as <- <-.
  unfold hostRead in Hsetting. injection Hsetting as <- <-.
  unfold liftOutcome in Hroot.
  destruct (settingRead_projectDir (world st)) as [root|]; [|discriminate].
  simpl in Hroot. injection Hroot as <- <-.
  exists root. simpl. repeat split.
  intros Hremote. rewrite Hremote in Hlocal. simpl in Hlocal.
  unfold ret in Hlocal. injection Hlocal as <- _. reflexivity.
Qed.

(** Hashing the entries of the inventory fetched again: the state is left
    as it is. *)
Lemma rehash_inv (dir : string) (entries : list RemoteFileInfo) :
  forall (st st' : RunState World) (updatedFiles : list FileInfo),
    traverseSeq
      (fun f : RemoteFileInfo =>
         let* hashed := addHash dir (path f) in
         ret (mkFileInfo (path f) (version f) (hash hashed) (type f)
                (permissions f)))
      entries st = (Right updatedFiles, st') ->
    st' = st /\ Forall2 (hashedEntry dir (world st)) entries updatedFiles.
Proof.
  induction entries as [|f entries IH]; intros st st' updatedFiles Hrun;
    simpl in Hrun.
  - unfold ret in Hrun. injection Hrun as <- <-. split; [reflexivity|constructor].
  - apply bind_inv_Right in Hrun as [fi [sa [Hfi Hrun]]].
    apply bind_inv_Right in Hrun as [rest [sb [Hrest Hrun]]].
    unfold ret in Hrun. injection Hrun as <- <-.
    apply bind_inv_Right in Hfi as [hashed [sc [Hhash Hfi]]].
    unfold ret in Hfi. injection Hfi as <- <-.
    unfold addHash in Hhash.
    apply bind_inv_Right in Hhash as [r [sd [Hr Hhash]]].
    apply bind_inv_Right in Hhash as [h [se [Hh Hhash]]].
    unfold ret in Hhash. injection Hhash as <- <-.
    unfold hostRead in Hr. injection Hr as <- <-.
    unfold orThrow, liftOutcome in Hh.
    destruct (getFileHash (join [dir; path f]) (world st)) as [msg|h0] eqn:Hget;
      [discriminate|].
    injection Hh as <- <-.
    destruct (IH _ _ _ Hrest) as [-> Hall]. split; [reflexivity|].
    constructor; [|exact Hall].
    exists h0. split; [exact Hget|reflexivity].
Qed.

(** What a successful [syncApply] returns: the inventory fetched again,
    each file with its hash on disk. *)
Lemma syncApply_inv (fuel : nat) (project : Project)
  (force : option ForceSyncDirection) (d : Detected)
  (st st' : RunState World) (updatedFiles : list FileInfo) :
  syncApply fuel project force d st = (Right updatedFiles, st') ->
  exists (before : RunState World) (info : ProjectInfo),
    getProjectInfoRemote (projectId (projectADT.value project)) before
    = (Right info, st')
    /\ Forall2 (hashedEntry (projectDir d) (world st'))
         (files_of (info_files info)) updatedFiles.
Proof.
  unfold syncApply, syncReconcile. intros Hrun.
  apply bind_inv_Right in Hrun as [u0 [s0 [_ Hrun]]].
  apply bind_inv_Right in Hrun as [u1 [s1 [_ Hrun]]].
  apply bind_inv_Right in Hrun as [u2 [s2 [_ Hrun]]].
  apply bind_inv_Right in Hrun as [u3 [s3 [_ Hrun]]].
  apply bind_inv_Right in Hrun as [u4 [s4 [_ Hrun]]].
  unfold syncUpdatedProjectInfo in Hrun.
  apply bind_inv_Right in Hrun as [info [s5 [Hinfo Hrun]]].
  apply rehash_inv in Hrun as [-> Hall].
  exists s4, info. split; [exact Hinfo|exact Hall].
Qed.

(** Up to the store step a run leaves the repository alone. *)
Lemma detect_keeps_store (project : Project) (st : RunState World) :
  sameStore st (snd (syncDetect project st)).
Proof.
  apply (Safe_syncDetect sameStore (fun _ => True)
           (projectId (projectADT.value project)) true true true
           sameStore_refl sameStore_trans);
    try reflexivity; auto.
Qed.

Lemma apply_keeps_store (fuel : nat) (project : Project)
  (force : option ForceSyncDirection) (d : Detected) (st : RunState World) :
  sameStore st (snd (syncApply fuel project force d st)).
Proof.
  apply (Safe_syncApply sameStore (fun _ => True)
           (projectId (projectADT.value project)) true true true
           sameStore_refl sameStore_trans);
    try reflexivity; auto.
Qed.

(** C1.  A run that fails with a [SyncException] leaves the stored record
    of the project, and the whole repository, as they were; and a run that
    changed the repository has come through detection and every step of
    [syncApply] before the upsert. *)
Theorem failed_run_keeps_store :
  forall (fuel : nat) (project : Project) (force : option ForceSyncDirection)
    (st : RunState World),
    (forall e,
        fst (runProjectSync fuel project force st) = Left e ->
        projectRepository.find (projectId (projectADT.value project))
          (store (snd (runProjectSync fuel project force st)))
        = projectRepository.find (projectId (projectADT.value project))
            (store st)
        /\ store (snd (runProjectSync fuel project force st)) = store st)
    /\
    (store (snd (runProjectSync fuel project force st)) <> store st ->
     exists d st1 updatedFiles st2,
       syncDetect project st = (Right d, st1)
       /\ syncApply fuel project force d st1 = (Right updatedFiles, st2)
       /\ fst (runProjectSync fuel project force st) = Right tt).
Proof.
  intros fuel project force st.
  assert (Hkeep : (forall a, fst (runProjectSync fuel project force st) <> Right a) ->
                  store (snd (runProjectSync fuel project force st)) = store st).
  { rewrite run_unfold.
    pose proof (detect_keeps_store project st) as Hd.
    destruct (syncDetect project st) as [[d|e| |] st1]; simpl in Hd;
      try (intros _; exact Hd).
    pose proof (apply_keeps_store fuel project force d st1) as Ha.
    destruct (syncApply fuel project force d st1) as [[files|e| |] st2];
      simpl in Ha;
      try (intros _; simpl; unfold sameStore in *; congruence).
    intros Hfail. exfalso. apply (Hfail tt). reflexivity. }
  split.
  - intros e He.
    assert (Hs : store (snd (runProjectSync fuel project force st)) = store st).
    { apply Hkeep. intros a Ha. rewrite He in Ha. discriminate Ha. }
    split; [|exact Hs]. rewrite Hs. reflexivity.
  - intros Hchanged. rewrite run_unfold in Hchanged |- *.
    pose proof (detect_keeps_store project st) as Hd.
    destruct (syncDetect project st) as [[d|e| |] st1] eqn:Hdetect;
      simpl in Hd; try (exfalso; apply Hchanged; exact Hd).
    pose proof (apply_keeps_store fuel project force d st1) as Ha.
    destruct (syncApply fuel project force d st1) as [[files|e| |] st2]
      eqn:Happly; simpl in Ha;
      try (exfalso; apply Hchanged; simpl; unfold sameStore in *; congruence).
    exists d, st1, files, st2. repeat split. exact Happly.
Qed.

(** C5, amended.  A successful run stores the project as [Local] with
    [files] the remote inventory fetched again, each file with its hash on
    disk, [basePath] the relative project directory and [syncedAt] the
    current time; [syncState] is [synced(unknown)] when the input project
    was [Remote] and the [syncState] of the input project when it was
    [Local]. *)
Theorem successful_run_commits :
  forall (fuel : nat) (project : Project) (force : option ForceSyncDirection)
    (st st' : RunState World),
    runProjectSync fuel project force st = (Right tt, st') ->
    exists (rootDir : string) (before refetched : RunState World)
      (info : ProjectInfo) (updatedFiles : list FileInfo),
      settingRead_projectDir (world st) = Some rootDir
      /\ getProjectInfoRemote (projectId (projectADT.value project)) before
         = (Right info, refetched)
      /\ world st' = world refetched
      /\ Forall2
           (hashedEntry (join [rootDir; relativeDirOf project]) (world st'))
           (files_of (info_files info)) updatedFiles
      /\ projectRepository.find (projectId (projectADT.value project)) (store st')
         = Some
             (projectADT.local (projectADT.value project)
                (mkProjectFiles (relativeDirOf project) updatedFiles
                   (now (world st')) (storedSyncState project))).
Proof.
  intros fuel project force st st' Hrun. rewrite run_unfold in Hrun.
  destruct (syncDetect project st) as [[d|e| |] st1] eqn:Hdetect;
    try discriminate.
  destruct (syncApply fuel project force d st1) as [[files|e| |] st2]
    eqn:Happly; try discriminate.
  injection Hrun as <-.
  apply syncDetect_inv in Hdetect as [rootDir [Hroot [Hrel [Hdir _]]]].
  apply syncApply_inv in Happly as [before [info [Hinfo Hall]]].
  exists rootDir, before, st2, info, files. simpl.
  split; [exact Hroot|]. split; [exact Hinfo|]. split; [reflexivity|].
  split; [rewrite <- Hdir; exact Hall|].
  unfold projectRepository.find, projectRepository.upsertOne, newProjectState.
  simpl. rewrite lookup_insert_eq. rewrite Hrel. reflexivity.
Qed.

(** The events of a run, given what detection allows: uploads only when
    [up], downloads and local deletions only when [pull]. *)
Lemma run_events (fuel : nat) (project : Project)
  (force : option ForceSyncDirection) (up pull : bool) (st : RunState World) :
  (forall d st1,
      syncDetect project st = (Right d, st1) ->
      (localChangesOf force d <> None -> up = true)
      /\ (remoteChangesOf force d <> None -> pull = true)) ->
  emitsOnly
    (fun ev =>
       allowedEvent (projectId (projectADT.value project)) up pull pull ev = true)
    st (snd (runProjectSync fuel project force st)).
Proof.
  intros Hflags. rewrite run_unfold.
  set (P := fun ev =>
    allowedEvent (projectId (projectADT.value project)) up pull pull ev = true).
  assert (Hd : emitsOnly P st (snd (syncDetect project st))).
  { apply (Safe_syncDetect (emitsOnly P) (fun _ => True)
             (projectId (projectADT.value project)) up pull pull
             (emitsOnly_refl P) (emitsOnly_trans P) (emitsOnly_world P));
      [intros s ev Hev; apply emitsOnly_emit; exact Hev|auto|reflexivity]. }
  destruct (syncDetect project st) as [[d|e| |] st1] eqn:Hdetect;
    simpl in Hd; try exact Hd.
  destruct (Hflags d st1 eq_refl) as [Hup Hpull].
  assert (Ha : emitsOnly P st1 (snd (syncApply fuel project force d st1))).
  { apply (Safe_syncApply (emitsOnly P) (fun _ => True)
             (projectId (projectADT.value project)) up pull pull
             (emitsOnly_refl P) (emitsOnly_trans P) (emitsOnly_world P));
      [intros s ev Hev; apply emitsOnly_emit; exact Hev|auto|reflexivity
      |exact I|exact Hup|].
    intros Hsome. split; apply Hpull; exact Hsome. }
  destruct (syncApply fuel project force d st1) as [[files|e| |] st2];
    simpl in Ha; simpl; exact (emitsOnly_trans P _ _ _ Hd Ha).
Qed.

(** C4.  With [force = 'push'] the remote change set is suppressed, the
    files to download and the files to delete are [none], and the run
    issues no [GET] request to [project/{id}/file] and removes no local
    file. *)
Theorem force_push_never_pulls :
  forall (fuel : nat) (project : Project) (st : RunState World),
    (forall d,
        remoteChangesOf (Some push) d = None
        /\ option_map (getFilesToDownload (info_files (projectInfoRemote d)))
             (remoteChangesOf (Some push) d) = None
        /\ option_map getFilesToDelete (remoteChangesOf (Some push) d) = None)
    /\
    exists evs,
      trace (snd (runProjectSync fuel project (Some push) st))
      = trace st ++ evs
      /\ Forall
           (fun ev =>
              (forall payload,
                  ev <> ApiRequest GET
                          ("project/" +:+ projectId (projectADT.value project)
                             +:+ "/file") payload)
              /\ (forall p, ev <> RemoveFile p))
           evs.
Proof.
  intros fuel project st.
  assert (Hnone : forall d, remoteChangesOf (Some push) d = None).
  { intros d. unfold remoteChangesOf, option.filter. simpl.
    destruct (projectInfoPrevious d);
      destruct (getRemoteChanges _ _); reflexivity. }
  split.
  - intros d. rewrite Hnone. repeat split.
  - apply (emitsOnly_weaken
             (fun ev =>
                allowedEvent (projectId (projectADT.value project))
                  true false false ev = true)).
    + intros ev. apply allowed_without_pull.
    + apply run_events. intros d st1 _. split; [reflexivity|].
      intros Hsome. exfalso. apply Hsome. apply Hnone.
Qed.

(** C9.  For a project that was never synced ([Remote]) detection binds
    neither a baseline nor a local scan, the local change set is [none], the
    files to upload are [none] without [getFilesToUpload] being called, and
    the run issues no [POST] request. *)
Theorem remote_project_never_uploads :
  forall (fuel : nat) (metadata : ProjectMetadata)
    (force : option ForceSyncDirection) (st : RunState World),
    match syncDetect (projectADT.remote metadata) st with
    | (Right d, _) =>
        projectInfoPrevious d = None /\ projectInfoLocal d = None
        /\ localChangesOf force d = None
        /\ forall check : list LocalFileChange -> M World (list LocalFileChange),
            traverseOpt check (localChangesOf force d) = ret None
    | _ => True
    end
    /\
    exists evs,
      trace (snd (runProjectSync fuel (projectADT.remote metadata) force st))
      = trace st ++ evs
      /\ Forall (fun ev => forall p payload, ev <> ApiRequest POST p payload) evs.
Proof.
  intros fuel metadata force st.
  assert (Hnone : forall d st1,
    syncDetect (projectADT.remote metadata) st = (Right d, st1) ->
    projectInfoPrevious d = None /\ projectInfoLocal d = None
    /\ localChangesOf force d = None).
  { intros d st1 Hdetect.
    apply syncDetect_inv in Hdetect as [rootDir [_ [_ [_ [Hprev Hlocal]]]]].
    simpl in Hprev. specialize (Hlocal eq_refl).
    split; [exact Hprev|]. split; [exact Hlocal|].
    unfold localChangesOf. rewrite Hlocal. reflexivity. }
  split.
  - destruct (syncDetect (projectADT.remote metadata) st) as [[d|e| |] st1]
      eqn:Hdetect; try exact I.
    destruct (Hnone d st1 eq_refl) as [Hprev [Hlocal Hlc]].
    repeat split; try assumption.
    intros check. rewrite Hlc. reflexivity.
  - apply (emitsOnly_weaken
             (fun ev =>
                allowedEvent (projectId metadata) false true true ev = true)).
    + intros ev. apply allowed_without_upload.
    + apply (run_events fuel (projectADT.remote metadata) force false true st).
      intros d st1 Hdetect. split; [|reflexivity].
      intros Hsome. exfalso. apply Hsome.
      destruct (Hnone d st1 Hdetect) as [_ [_ Hlc]]. exact Hlc.
Qed.

(** ** The conflict check *)

Lemma getConflicts_Some (local : list LocalFileChange)
  (remote : list RemoteFileChange) :
  getConflicts local remote <> None <->
  exists p, In p (paths local) /\ In p (paths remote).
Proof.
  unfold getConflicts. rewrite fromArray_None. unfold array.intersection.
  split.
  - intros Hsome.
    destruct (List.filter _ local) as [|c rest] eqn:Hfilter;
      [exfalso; apply Hsome; reflexivity|].
    assert (Hin : In c (List.filter (fun a => array.elem eqPath a remote) local)).
    { rewrite Hfilter. left. reflexivity. }
    apply filter_In in Hin as [Hc Helem].
    unfold array.elem, eqPath in Helem.
    apply existsb_exists in Helem as [x [Hx Heq]].
    apply String.eqb_eq in Heq.
    exists (path c). split; [apply in_map; exact Hc|].
    rewrite <- Heq. apply in_map. exact Hx.
  - intros [p [Hl Hr]] Hempty.
    apply in_map_iff in Hl as [c [<- Hc]].
    assert (Hin : In c (List.filter (fun a => array.elem eqPath a remote) local)).
    { apply filter_In. split; [exact Hc|].
      unfold array.elem, eqPath. apply existsb_exists.
      apply in_map_iff in Hr as [x [Hx Hin]].
      exists x. split; [exact Hin|]. apply String.eqb_eq. exact Hx. }
    destruct (List.filter _ local); [destruct Hin|discriminate Hempty].
Qed.

Lemma checkConflicts_iff (localChanges : option (list LocalFileChange))
  (remoteChanges : option (list RemoteFileChange)) :
  checkConflicts localChanges remoteChanges = inl conflictingChanges <->
  exists l r,
    localChanges = Some l /\ remoteChanges = Some r
    /\ exists p, In p (paths l) /\ In p (paths r).
Proof.
  unfold checkConflicts.
  destruct localChanges as [l|], remoteChanges as [r|]; simpl;
    try (split; [discriminate|intros [l' [r' [Hl [Hr _]]]]; discriminate]).
  destruct (getConflicts l r) as [cs|] eqn:Hc.
  - split; [|reflexivity]. intros _. exists l, r.
    split; [reflexivity|]. split; [reflexivity|].
    apply getConflicts_Some. rewrite Hc. discriminate.
  - split; [discriminate|].
    intros [l' [r' [Hl [Hr Hp]]]]. injection Hl as <-. injection Hr as <-.
    apply getConflicts_Some in Hp. exfalso. apply Hp. exact Hc.
Qed.

Lemma checkConflicts_cases (localChanges : option (list LocalFileChange))
  (remoteChanges : option (list RemoteFileChange)) :
  checkConflicts localChanges remoteChanges = inl conflictingChanges
  \/ checkConflicts localChanges remoteChanges = inr tt.
Proof.
  unfold checkConflicts. destruct (option.chain _ _); [left|right]; reflexivity.
Qed.

(** Detection and the steps after the conflict check do not fail with
    [conflictingChanges]. *)
Lemma detect_not_conflict (project : Project) (st : RunState World) :
  fst (syncDetect project st) <> Left conflictingChanges.
Proof.
  intros He.
  apply (Safe_syncDetect (fun _ _ => True) (fun e => e <> conflictingChanges)
           (projectId (projectADT.value project)) true true true) in He;
    auto.
Qed.

Lemma reconcile_not_conflict (fuel : nat) (project : Project) (d : Detected)
  (localChanges : option (list LocalFileChange))
  (remoteChanges : option (list RemoteFileChange)) (st : RunState World) :
  fst (syncReconcile fuel project d localChanges remoteChanges st)
  <> Left conflictingChanges.
Proof.
  intros He.
  apply (Safe_syncReconcile (fun _ _ => True) (fun e => e <> conflictingChanges)
           (projectId (projectADT.value project)) true true true) in He;
    auto.
Qed.

(** Past the conflict check a run goes on with planning. *)
Lemma syncApply_passes (fuel : nat) (project : Project)
  (force : option ForceSyncDirection) (d : Detected) (st : RunState World) :
  checkConflicts (localChangesOf force d) (remoteChangesOf force d) = inr tt ->
  syncApply fuel project force d st
  = syncReconcile fuel project d (localChangesOf force d)
      (remoteChangesOf force d) st.
Proof.
  intros Hpass. unfold syncApply, bind, liftOutcome. rewrite Hpass. reflexivity.
Qed.

Lemma syncApply_conflict (fuel : nat) (project : Project)
  (force : option ForceSyncDirection) (d : Detected) (st : RunState World) :
  checkConflicts (localChangesOf force d) (remoteChangesOf force d)
  = inl conflictingChanges ->
  syncApply fuel project force d st = (Left conflictingChanges, st).
Proof.
  intros Hfail. unfold syncApply, bind, liftOutcome. rewrite Hfail. reflexivity.
Qed.

(** C3.  The conflict check fails, with [conflictingChanges], exactly when
    both change sets are present and share a path, and passes otherwise;
    [force] suppresses one of the two sets; and a run fails with
    [conflictingChanges] exactly when detection succeeds and the two change
    sets it leads to share a path, going on with planning otherwise. *)
Theorem conflict_gate :
  forall (fuel : nat) (project : Project) (force : option ForceSyncDirection)
    (st : RunState World),
    (forall localChanges remoteChanges,
        (checkConflicts localChanges remoteChanges = inl conflictingChanges <->
         exists l r,
           localChanges = Some l /\ remoteChanges = Some r
           /\ exists p, In p (paths l) /\ In p (paths r))
        /\ (checkConflicts localChanges remoteChanges = inl conflictingChanges
            \/ checkConflicts localChanges remoteChanges = inr tt))
    /\ (forall d,
           remoteChangesOf (Some push) d = None
           /\ localChangesOf (Some pull) d = None)
    /\ (fst (runProjectSync fuel project force st) = Left conflictingChanges <->
        exists d st1 l r,
          syncDetect project st = (Right d, st1)
          /\ localChangesOf force d = Some l
          /\ remoteChangesOf force d = Some r
          /\ exists p, In p (paths l) /\ In p (paths r))
    /\ (forall d st1,
           syncDetect project st = (Right d, st1) ->
           checkConflicts (localChangesOf force d) (remoteChangesOf force d)
           = inr tt ->
           syncApply fuel project force d st1
           = syncReconcile fuel project d (localChangesOf force d)
               (remoteChangesOf force d) st1).
Proof.
  intros fuel project force st.
  split; [|split; [|split]].
  - intros lc rc. split; [apply checkConflicts_iff|apply checkConflicts_cases].
  - intros d. unfold remoteChangesOf, localChangesOf, option.filter. simpl.
    split.
    + destruct (projectInfoPrevious d);
        destruct (getRemoteChanges _ _); reflexivity.
    + destruct (option.chain _ _); reflexivity.
  - rewrite run_unfold. split.
    + intros Hfail.
      pose proof (detect_not_conflict project st) as Hd.
      destruct (syncDetect project st) as [[d|e| |] st1] eqn:Hdetect;
        simpl in Hfail, Hd; try discriminate Hfail;
        [|exfalso; injection Hfail as ->; apply Hd; reflexivity].
      destruct (checkConflicts_cases (localChangesOf force d)
                  (remoteChangesOf force d)) as [Hc|Hc].
      * apply checkConflicts_iff in Hc as [l [r [Hl [Hr Hp]]]].
        exists d, st1, l, r. repeat split; assumption.
      * exfalso. rewrite (syncApply_passes _ _ _ _ _ Hc) in Hfail.
        pose proof (reconcile_not_conflict fuel project d
                      (localChangesOf force d) (remoteChangesOf force d) st1)
          as Hr.
        destruct (syncReconcile _ _ _ _ _ st1) as [[files|e| |] st2];
          simpl in Hfail, Hr; try discriminate Hfail.
        injection Hfail as ->. apply Hr. reflexivity.
    + intros [d [st1 [l [r [Hdetect [Hl [Hr Hp]]]]]]].
      rewrite Hdetect.
      rewrite syncApply_conflict; [reflexivity|].
      apply checkConflicts_iff. exists l, r. repeat split; assumption.
  - intros d st1 _ Hpass. apply syncApply_passes. exact Hpass.
Qed.
End Runs.

(** * Concrete runs on the in-memory host *)

Lemma failed_run_keeps_store_witness :
  (projectRepository.find "p1"
     (store (snd (runProjectSync 10 (localP1 syncStateADT.syncing) None
                    (stateOf worldReadmeEdited (localP1 syncStateADT.syncing)))))
   = projectRepository.find "p1"
       (store (stateOf worldReadmeEdited (localP1 syncStateADT.syncing)))
   /\ store (snd (runProjectSync 10 (localP1 syncStateADT.syncing) None
                    (stateOf worldReadmeEdited (localP1 syncStateADT.syncing))))
      = store (stateOf worldReadmeEdited (localP1 syncStateADT.syncing)))
  /\ exists d st1 updatedFiles st2,
      syncDetect (projectADT.remote metadataP1)
        (mkRunState worldFirstSync ∅ []) = (Right d, st1)
      /\ syncApply 10 (projectADT.remote metadataP1) None d st1
         = (Right updatedFiles, st2)
      /\ fst (runProjectSync 10 (projectADT.remote metadataP1) None
                (mkRunState worldFirstSync ∅ [])) = Right tt.
Proof.
  split.
  - apply (proj1 (failed_run_keeps_store 10 (localP1 syncStateADT.syncing) None
                    (stateOf worldReadmeEdited (localP1 syncStateADT.syncing)))
             (readOnlyFilesChanged "" "File is read-only")).
    vm_compute. reflexivity.
  - apply (proj2 (failed_run_keeps_store 10 (projectADT.remote metadataP1) None
                    (mkRunState worldFirstSync ∅ []))).
    intros Hsame.
    apply (f_equal (fun m => projectRepository.find "p1" m)) in Hsame.
    vm_compute in Hsame. discriminate Hsame.
Defined.

(** The run of the read-only violation: it stops after the first request,
    with an empty [path] in its exception. *)
Example read_only_run :
  let r := runProjectSync 10 (localP1 syncStateADT.syncing) None
             (stateOf worldReadmeEdited (localP1 syncStateADT.syncing)) in
  fst r = Left (readOnlyFilesChanged "" "File is read-only")
  /\ trace (snd r) = [ApiRequest GET "project/p1/info" payloadEmpty].
Proof. vm_compute. split; reflexivity. Qed.

(** C5, as the specification words it, fails: a [Local] project whose
    stored [syncState] is [syncing] is committed with [syncing]. *)
Lemma local_run_keeps_syncState :
  ~ commitsSyncedUnknown 10 (localP1 syncStateADT.syncing) None
      (stateOf worldInSync (localP1 syncStateADT.syncing)).
Proof.
  intros Hclaim.
  destruct (Hclaim (snd (runProjectSync 10 (localP1 syncStateADT.syncing) None
                           (stateOf worldInSync (localP1 syncStateADT.syncing)))))
    as [metadata [state [Hfind Hstate]]].
  - vm_compute. reflexivity.
  - vm_compute in Hfind. injection Hfind as _ <-.
    discriminate Hstate.
Qed.

Lemma successful_run_commits_witness :
  exists (rootDir : string) (before refetched : RunState World)
    (info : ProjectInfo) (updatedFiles : list FileInfo),
    settingRead_projectDir (world (mkRunState worldFirstSync ∅ []))
    = Some rootDir
    /\ getProjectInfoRemote "p1" before = (Right info, refetched)
    /\ world (snd (runProjectSync 10 (projectADT.remote metadataP1) None
                     (mkRunState worldFirstSync ∅ [])))
       = world refetched
    /\ Forall2
         (hashedEntry
            (join [rootDir; relativeDirOf (projectADT.remote metadataP1)])
            (world (snd (runProjectSync 10 (projectADT.remote metadataP1) None
                           (mkRunState worldFirstSync ∅ [])))))
         (files_of (info_files info)) updatedFiles
    /\ projectRepository.find "p1"
         (store (snd (runProjectSync 10 (projectADT.remote metadataP1) None
                        (mkRunState worldFirstSync ∅ []))))
       = Some
           (projectADT.local metadataP1
              (mkProjectFiles (relativeDirOf (projectADT.remote metadataP1))
                 updatedFiles
                 (now (world (snd (runProjectSync 10
                                     (projectADT.remote metadataP1) None
                                     (mkRunState worldFirstSync ∅ [])))))
                 (storedSyncState (projectADT.remote metadataP1)))).
Proof.
  apply (successful_run_commits 10 (projectADT.remote metadataP1) None
           (mkRunState worldFirstSync ∅ [])).
  vm_compute. reflexivity.
Defined.

(** The conflict of the two edits of [a.txt]: the run stops at the check. *)
Lemma conflict_gate_witness :
  fst (runProjectSync 10 localA1 None (stateOf worldConflict localA1))
  = Left conflictingChanges.
Proof.
  apply (proj1 (proj2 (proj2 (conflict_gate 10 localA1 None
                                (stateOf worldConflict localA1))))).
  eexists _, _, _, _. split; [vm_compute; reflexivity|].
  split; [vm_compute; reflexivity|]. split; [vm_compute; reflexivity|].
  exists "a.txt"%string. split; left; reflexivity.
Defined.

(** * Further properties of change detection *)

Section Unchanged.
Context {A B : Type} `{HasPath A} `{HasType A} `{HasPath B} `{HasType B}.

(** With distinct paths the entry at the path of an entry is that entry. *)
Lemma entryAt_unique (l : list B) (x : B) :
  List.NoDup (paths l) -> In x l -> entryAt (path x) l = Some x.
Proof.
  unfold entryAt, paths. induction l as [|y l IH]; intros Hnd Hin;
    [destruct Hin|].
  simpl in Hnd. inversion Hnd as [|p ps Hfresh Hrest]; subst. simpl.
  destruct Hin as [->|Hin].
  - rewrite String.eqb_refl. reflexivity.
  - destruct (String.eqb (path y) (path x)) eqn:Heq.
    + apply String.eqb_eq in Heq. exfalso. apply Hfresh. rewrite Heq.
      apply in_map. exact Hin.
    + apply IH; assumption.
Qed.

Lemma difference_empty_l (xs : list A) (ys : list B) :
  (forall a, In a xs -> In (path a) (paths ys)) ->
  array.difference eqPath ys xs = [].
Proof.
  intros Hall. unfold array.difference. apply filter_none.
  apply List.Forall_forall. intros a Ha. apply negb_false_iff.
  apply elem_eqPath_l. apply Hall. exact Ha.
Qed.

Lemma difference_empty_r (xs : list A) (ys : list B) :
  (forall b, In b ys -> In (path b) (paths xs)) ->
  array.difference eqPath xs ys = [].
Proof.
  intros Hall. unfold array.difference. apply filter_none.
  apply List.Forall_forall. intros b Hb. apply negb_false_iff.
  apply elem_eqPath_r. apply Hall. exact Hb.
Qed.

Lemma sublist_In {X} (l1 l2 : list X) (x : X) :
  sublist l1 l2 -> In x l1 -> In x l2.
Proof.
  induction 1 as [|y l1 l2 _ IH|y l1 l2 _ IH]; simpl; intros Hin.
  - exact Hin.
  - destruct Hin as [->|Hin]; [left; reflexivity|right; apply IH; exact Hin].
  - right. apply IH. exact Hin.
Qed.

Lemma sublist_NoDup {X} (l1 l2 : list X) :
  sublist l1 l2 -> List.NoDup l2 -> List.NoDup l1.
Proof.
  induction 1 as [|y l1 l2 Hsub IH|y l1 l2 Hsub IH]; intros Hnd.
  - constructor.
  - inversion Hnd as [|z zs Hfresh Hrest]; subst. constructor.
    + intros Hin. apply Hfresh. apply (sublist_In _ _ _ Hsub Hin).
    + apply IH. exact Hrest.
  - inversion Hnd as [|z zs Hfresh Hrest]; subst. apply IH. exact Hrest.
Qed.
End Unchanged.

Section UnchangedRemote.
Context {A B : Type}
  `{HasPath A} `{HasType A} `{HasVersion A}
  `{HasPath B} `{HasType B} `{HasVersion B}.

(** Two inventories whose files have the same paths and versions, in the
    same order, differ in nothing, provided the paths are distinct. *)
Lemma getRemoteChanges_agree (previous : list A) (latest : list B) :
  map (fun x => (path x, version x)) (files_of previous)
  = map (fun y => (path y, version y)) (files_of latest) ->
  List.NoDup (paths (files_of latest)) ->
  getRemoteChanges previous latest = None.
Proof.
  intros Hsame Hnd.
  assert (Hpaths : paths (files_of previous) = paths (files_of latest)).
  { pose proof (f_equal (map fst) Hsame) as Hfst.
    rewrite !map_map in Hfst. exact Hfst. }
  assert (Hgroups : changesOf (getRemoteChanges previous latest) = []).
  { rewrite getRemoteChanges_groups.
    unfold removedOfRemote, addedOfRemote, updatedOfRemote.
    rewrite difference_empty_l, difference_empty_r.
    - simpl. rewrite filter_none; [reflexivity|].
      apply List.Forall_forall. intros ls Hls.
      assert (Hin : In (path ls, version ls)
                      (map (fun y => (path y, version y)) (files_of latest))).
      { rewrite <- Hsame.
        apply (in_map (fun x => (path x, version x))). exact Hls. }
      apply in_map_iff in Hin as [cs [Hcs Hin]]. injection Hcs as Hp Hv.
      unfold array.findFirst.
      pose proof (entryAt_unique _ _ Hnd Hin) as Hat.
      unfold entryAt in Hat. rewrite Hp in Hat. rewrite Hat. simpl.
      rewrite Hv, Z.eqb_refl. reflexivity.
    - intros b Hb. rewrite Hpaths. apply in_map. exact Hb.
    - intros a Ha. rewrite <- Hpaths. apply in_map. exact Ha. }
  destruct (getRemoteChanges previous latest) as [l|] eqn:E; [|reflexivity].
  simpl in Hgroups. subst l. exfalso. revert E. apply fromArray_not_empty.
Qed.

(** Conversely, a diff that is [none] means the files of the two
    inventories have the same paths, and at each path the same version. *)
Lemma getRemoteChanges_None_inv (previous : list A) (latest : list B) :
  getRemoteChanges previous latest = None ->
  (forall p, In p (paths (files_of previous)) <-> In p (paths (files_of latest)))
  /\ (forall e, In e (files_of previous) ->
                exists e', entryAt (path e) (files_of latest) = Some e'
                           /\ version e' = version e).
Proof.
  intros Hnone.
  pose proof (getRemoteChanges_groups previous latest) as Hgroups.
  rewrite Hnone in Hgroups. simpl in Hgroups. symmetry in Hgroups.
  apply app_eq_nil in Hgroups as [Hr Hrest].
  apply app_eq_nil in Hrest as [Ha Hu].
  assert (Hsub1 : forall p, In p (paths (files_of previous)) ->
                            In p (paths (files_of latest))).
  { intros p Hp.
    destruct (in_dec string_dec p (paths (files_of latest))) as [Hin|Hout];
      [exact Hin|].
    exfalso.
    assert (Hin : In (mkRemoteFileChange p remoteFileChange.removed)
                    (removedOfRemote previous latest)).
    { apply in_removedOfRemote. repeat split; assumption. }
    rewrite Hr in Hin. destruct Hin. }
  assert (Hsub2 : forall p, In p (paths (files_of latest)) ->
                            In p (paths (files_of previous))).
  { intros p Hp.
    destruct (in_dec string_dec p (paths (files_of previous))) as [Hin|Hout];
      [exact Hin|].
    exfalso. apply in_map_iff in Hp as [e [Hpe He]].
    assert (Hin : In (mkRemoteFileChange p (remoteFileChange.added (version e)))
                    (addedOfRemote previous latest)).
    { apply in_addedOfRemote. exists e. repeat split; assumption. }
    rewrite Ha in Hin. destruct Hin. }
  split; [intros p; split; [apply Hsub1|apply Hsub2]|].
  intros e He.
  assert (Hp : In (path e) (paths (files_of latest))).
  { apply Hsub1. apply in_map. exact He. }
  apply in_map_iff in Hp as [x [Hx Hin]].
  destruct (entryAt (path e) (files_of latest)) as [e'|] eqn:Hat.
  - exists e'. split; [reflexivity|].
    destruct (Z.eq_dec (version e') (version e)) as [Heq|Hneq]; [exact Heq|].
    exfalso.
    assert (Hup : In (mkRemoteFileChange (path e)
                        (remoteFileChange.updated (version e)))
                    (updatedOfRemote previous latest)).
    { apply in_updatedOfRemote. exists e, e'. repeat split; assumption. }
    rewrite Hu in Hup. destruct Hup.
  - exfalso. unfold entryAt in Hat.
    apply (find_none _ _ Hat) in Hin. rewrite Hx, String.eqb_refl in Hin.
    discriminate Hin.
Qed.
End UnchangedRemote.

Section UnchangedLocal.
Context {A B : Type}
  `{HasPath A} `{HasType A} `{HasHash A}
  `{HasPath B} `{HasType B} `{HasHash B}.

Lemma getLocalChanges_agree (previous : list A) (latest : list B) :
  map (fun x => (path x, hash x)) (files_of previous)
  = map (fun y => (path y, hash y)) (files_of latest) ->
  List.NoDup (paths (files_of latest)) ->
  getLocalChanges previous latest = None.
Proof.
  intros Hsame Hnd.
  assert (Hpaths : paths (files_of previous) = paths (files_of latest)).
  { pose proof (f_equal (map fst) Hsame) as Hfst.
    rewrite !map_map in Hfst. exact Hfst. }
  assert (Hgroups : changesOf (getLocalChanges previous latest) = []).
  { rewrite getLocalChanges_groups.
    unfold removedOfLocal, addedOfLocal, updatedOfLocal.
    rewrite difference_empty_l, difference_empty_r.
    - simpl. rewrite filter_none; [reflexivity|].
      apply List.Forall_forall. intros [e e'] Hpair.
      apply in_pairs in Hpair as [He Hat].
      assert (Hin : In (path e, hash e)
                      (map (fun y => (path y, hash y)) (files_of latest))).
      { rewrite <- Hsame. apply (in_map (fun x => (path x, hash x))). exact He. }
      apply in_map_iff in Hin as [x [Hx Hin]]. injection Hx as Hp Hh.
      pose proof (entryAt_unique _ _ Hnd Hin) as Hat'.
      rewrite Hp, Hat in Hat'. injection Hat' as ->.
      rewrite Hh, String.eqb_refl. reflexivity.
    - intros b Hb. rewrite Hpaths. apply in_map. exact Hb.
    - intros a Ha. rewrite <- Hpaths. apply in_map. exact Ha. }
  destruct (getLocalChanges previous latest) as [l|] eqn:E; [|reflexivity].
  simpl in Hgroups. subst l. exfalso. revert E. apply fromArray_not_empty.
Qed.

Lemma getLocalChanges_None_inv (previous : list A) (latest : list B) :
  getLocalChanges previous latest = None ->
  (forall p, In p (paths (files_of previous)) <-> In p (paths (files_of latest)))
  /\ (forall e, In e (files_of previous) ->
                exists e', entryAt (path e) (files_of latest) = Some e'
                           /\ hash e' = hash e).
Proof.
  intros Hnone.
  pose proof (getLocalChanges_groups previous latest) as Hgroups.
  rewrite Hnone in Hgroups. simpl in Hgroups. symmetry in Hgroups.
  apply app_eq_nil in Hgroups as [Hr Hrest].
  apply app_eq_nil in Hrest as [Ha Hu].
  assert (Hsub1 : forall p, In p (paths (files_of previous)) ->
                            In p (paths (files_of latest))).
  { intros p Hp.
    destruct (in_dec string_dec p (paths (files_of latest))) as [Hin|Hout];
      [exact Hin|].
    exfalso.
    assert (Hin : In (mkLocalFileChange p localFileChange.removed)
                    (removedOfLocal previous latest)).
    { apply in_removedOfLocal. repeat split; assumption. }
    rewrite Hr in Hin. destruct Hin. }
  assert (Hsub2 : forall p, In p (paths (files_of latest)) ->
                            In p (paths (files_of previous))).
  { intros p Hp.
    destruct (in_dec string_dec p (paths (files_of previous))) as [Hin|Hout];
      [exact Hin|].
    exfalso.
    assert (Hin : In (mkLocalFileChange p localFileChange.added)
                    (addedOfLocal previous latest)).
    { apply in_addedOfLocal. repeat split; assumption. }
    rewrite Ha in Hin. destruct Hin. }
  split; [intros p; split; [apply Hsub1|apply Hsub2]|].
  intros e He.
  assert (Hp : In (path e) (paths (files_of latest))).
  { apply Hsub1. apply in_map. exact He. }
  apply in_map_iff in Hp as [x [Hx Hin]].
  destruct (entryAt (path e) (files_of latest)) as [e'|] eqn:Hat.
  - exists e'. split; [reflexivity|].
    destruct (string_dec (hash e') (hash e)) as [Heq|Hneq]; [exact Heq|].
    exfalso.
    assert (Hup : In (mkLocalFileChange (path e) localFileChange.updated)
                    (updatedOfLocal previous latest)).
    { apply in_updatedOfLocal. exists e, e'. repeat split; assumption. }
    rewrite Hu in Hup. destruct Hup.
  - exfalso. unfold entryAt in Hat.
    apply (find_none _ _ Hat) in Hin. rewrite Hx, String.eqb_refl in Hin.
    discriminate Hin.
Qed.
End UnchangedLocal.

(** X1.  A baseline whose files have distinct paths differs in nothing
    from itself, as a remote diff (by version) and as a local diff (by
    hash). *)
Theorem diff_with_itself_is_none :
  forall baseline : list FileInfo,
    List.NoDup (paths (files_of baseline)) ->
    getRemoteChanges baseline baseline = None
    /\ getLocalChanges baseline baseline = None.
Proof.
  intros baseline Hnd. split.
  - apply getRemoteChanges_agree; [reflexivity|exact Hnd].
  - apply getLocalChanges_agree; [reflexivity|exact Hnd].
Qed.

Lemma diff_with_itself_is_none_witness :
  getRemoteChanges baselineA1 baselineA1 = None
  /\ getLocalChanges baselineA1 baselineA1 = None.
Proof.
  apply (diff_with_itself_is_none baselineA1).
  vm_compute. repeat constructor. intros [].
Defined.

(** X2.  A diff that is [none] means no difference: the files of the
    baseline and of the observed inventory have the same paths, and the
    observed entry at the path of a baseline file has the version (remote
    diff) or the hash (local diff) of that file. *)
Theorem none_means_no_difference :
  forall (previous : list FileInfo) (latestRemote : list RemoteFileInfo)
    (latestLocal : list LocalFileState),
    (getRemoteChanges previous latestRemote = None ->
     (forall p, In p (paths (files_of previous))
                <-> In p (paths (files_of latestRemote)))
     /\ (forall e, In e (files_of previous) ->
                   exists e', entryAt (path e) (files_of latestRemote) = Some e'
                              /\ version e' = version e))
    /\
    (getLocalChanges previous latestLocal = None ->
     (forall p, In p (paths (files_of previous))
                <-> In p (paths (files_of latestLocal)))
     /\ (forall e, In e (files_of previous) ->
                   exists e', entryAt (path e) (files_of latestLocal) = Some e'
                              /\ hash e' = hash e)).
Proof.
  intros previous latestRemote latestLocal. split.
  - apply getRemoteChanges_None_inv.
  - apply getLocalChanges_None_inv.
Qed.

Lemma none_means_no_difference_witness :
  ((forall p, In p (paths (files_of baselineA1))
              <-> In p (paths (files_of inventoryA1)))
   /\ (forall e, In e (files_of baselineA1) ->
                 exists e', entryAt (path e) (files_of inventoryA1) = Some e'
                            /\ version e' = version e))
  /\
  ((forall p, In p (paths (files_of baselineA1))
              <-> In p (paths (files_of scanA1)))
   /\ (forall e, In e (files_of baselineA1) ->
                 exists e', entryAt (path e) (files_of scanA1) = Some e'
                            /\ hash e' = hash e)).
Proof.
  split.
  - apply (proj1 (none_means_no_difference baselineA1 inventoryA1 scanA1)).
    vm_compute. reflexivity.
  - apply (proj2 (none_means_no_difference baselineA1 inventoryA1 scanA1)).
    vm_compute. reflexivity.
Defined.

Section OneRecordPerPath.

Lemma NoDup_three (l1 l2 l3 : list string) :
  List.NoDup l1 -> List.NoDup l2 -> List.NoDup l3 ->
  (forall p, In p l1 -> ~ In p l2) ->
  (forall p, In p l1 -> ~ In p l3) ->
  (forall p, In p l2 -> ~ In p l3) ->
  List.NoDup (l1 ++ l2 ++ l3).
Proof.
  intros N1 N2 N3 D12 D13 D23. apply List.NoDup_app; [exact N1| |].
  - apply List.NoDup_app; assumption.
  - intros p Hp Hin. apply in_app_iff in Hin as [Hin|Hin].
    + apply (D12 p Hp Hin).
    + apply (D13 p Hp Hin).
Qed.

Lemma remote_records_distinct {A B : Type}
  `{HasPath A} `{HasType A} `{HasVersion A}
  `{HasPath B} `{HasType B} `{HasVersion B}
  (previous : list A) (latest : list B) :
  List.NoDup (paths previous) -> List.NoDup (paths latest) ->
  List.NoDup (paths (changesOf (getRemoteChanges previous latest))).
Proof.
  intros Np Nl. rewrite getRemoteChanges_groups. unfold paths.
  rewrite !map_app.
  destruct (remote_groups_paths previous latest) as [Sr [Sa Su]].
  apply NoDup_three.
  - apply (sublist_NoDup _ _ Sr Np).
  - apply (sublist_NoDup _ _ Sa Nl).
  - apply (sublist_NoDup _ _ Su Np).
  - intros p Hr Ha.
    apply in_map_iff in Hr as [r [<- Hr]].
    apply in_map_iff in Ha as [a [Hpa Ha]].
    apply in_removedOfRemote in Hr as [_ [_ Hout]].
    apply in_addedOfRemote in Ha as [e [He [Hpe _]]].
    apply Hout. rewrite <- Hpa, <- Hpe. apply in_map. exact He.
  - intros p Hr Hu.
    apply in_map_iff in Hr as [r [<- Hr]].
    apply in_map_iff in Hu as [u [Hpu Hu]].
    apply in_removedOfRemote in Hr as [_ [_ Hout]].
    apply in_updatedOfRemote in Hu as [e [e' [_ [_ [Hat _]]]]].
    apply entryAt_path in Hat as [Hin Hp].
    apply Hout. rewrite <- Hpu, <- Hp. apply in_map. exact Hin.
  - intros p Ha Hu.
    apply in_map_iff in Ha as [a [<- Ha]].
    apply in_map_iff in Hu as [u [Hpu Hu]].
    apply in_addedOfRemote in Ha as [_ [_ [_ [Hout _]]]].
    apply in_updatedOfRemote in Hu as [e [e' [Hin [Hp _]]]].
    apply Hout. rewrite <- Hpu, <- Hp. apply in_map. exact Hin.
Qed.

Lemma local_records_distinct {A B : Type}
  `{HasPath A} `{HasType A} `{HasHash A}
  `{HasPath B} `{HasType B} `{HasHash B}
  (previous : list A) (latest : list B) :
  List.NoDup (paths previous) -> List.NoDup (paths latest) ->
  List.NoDup (paths (changesOf (getLocalChanges previous latest))).
Proof.
  intros Np Nl. rewrite getLocalChanges_groups. unfold paths.
  rewrite !map_app.
  destruct (local_groups_paths previous latest) as [Sr [Sa Su]].
  apply NoDup_three.
  - apply (sublist_NoDup _ _ Sr Np).
  - apply (sublist_NoDup _ _ Sa Nl).
  - apply (sublist_NoDup _ _ Su Np).
  - intros p Hr Ha.
    apply in_map_iff in Hr as [r [<- Hr]].
    apply in_map_iff in Ha as [a [Hpa Ha]].
    apply in_removedOfLocal in Hr as [_ [_ Hout]].
    apply in_addedOfLocal in Ha as [_ [Hin _]].
    apply Hout. rewrite <- Hpa. exact Hin.
  - intros p Hr Hu.
    apply in_map_iff in Hr as [r [<- Hr]].
    apply in_map_iff in Hu as [u [Hpu Hu]].
    apply in_removedOfLocal in Hr as [_ [_ Hout]].
    apply in_updatedOfLocal in Hu as [e [e' [_ [_ [Hat _]]]]].
    apply entryAt_path in Hat as [Hin Hp].
    apply Hout. rewrite <- Hpu, <- Hp. apply in_map. exact Hin.
  - intros p Ha Hu.
    apply in_map_iff in Ha as [a [<- Ha]].
    apply in_map_iff in Hu as [u [Hpu Hu]].
    apply in_addedOfLocal in Ha as [_ [_ Hout]].
    apply in_updatedOfLocal in Hu as [e [e' [Hin [Hp _]]]].
    apply Hout. rewrite <- Hpu, <- Hp. apply in_map. exact Hin.
Qed.
End OneRecordPerPath.

(** X3.  When the paths of the baseline are distinct and the paths of the
    observed inventory are distinct, a diff reports every path at most
    once: no path gets two change records. *)
Theorem one_change_record_per_path :
  forall (previous : list FileInfo) (latestRemote : list RemoteFileInfo)
    (latestLocal : list LocalFileState),
    List.NoDup (paths previous) ->
    (List.NoDup (paths latestRemote) ->
     List.NoDup (paths (changesOf (getRemoteChanges previous latestRemote))))
    /\ (List.NoDup (paths latestLocal) ->
        List.NoDup (paths (changesOf (getLocalChanges previous latestLocal)))).
Proof.
  intros previous latestRemote latestLocal Np. split; intros Nl.
  - apply remote_records_distinct; assumption.
  - apply local_records_distinct; assumption.
Qed.

Lemma one_change_record_per_path_witness :
  List.NoDup (paths (changesOf (getRemoteChanges baselineA1 inventoryBA)))
  /\ List.NoDup (paths (changesOf (getLocalChanges baselineA1 scanA1))).
Proof.
  assert (Np : List.NoDup (paths baselineA1)).
  { vm_compute. repeat constructor. intros []. }
  split.
  - apply (proj1 (one_change_record_per_path baselineA1 inventoryBA scanA1 Np)).
    vm_compute. repeat constructor; simpl; intuition discriminate.
  - apply (proj2 (one_change_record_per_path baselineA1 inventoryBA scanA1 Np)).
    vm_compute. repeat constructor. intros [].
Defined.

(** * The plan: what is downloaded and what is deleted *)

Section Plan.

Lemma in_getFilesToDownload (remote : list RemoteFileInfo)
  (changes : list RemoteFileChange) (i : RemoteFileInfo) :
  In i (getFilesToDownload remote changes) <->
  In i remote
  /\ exists c, In c changes /\ path c = path i
               /\ (isAddedR c = true \/ isUpdatedR c = true).
Proof.
  unfold getFilesToDownload. rewrite filter_In, existsb_exists.
  split.
  - intros [Hi [c [Hc Hp]]]. split; [exact Hi|].
    apply filter_In in Hc as [Hc Hkind]. apply String.eqb_eq in Hp.
    exists c. split; [exact Hc|]. split; [exact Hp|].
    unfold isAddedR, isUpdatedR. destruct (rfc_change c); auto; discriminate.
  - intros [Hi [c [Hc [Hp Hkind]]]]. split; [exact Hi|].
    exists c. split; [|apply String.eqb_eq; exact Hp].
    apply filter_In. split; [exact Hc|].
    unfold isAddedR, isUpdatedR in Hkind.
    destruct (rfc_change c); destruct Hkind; try discriminate; reflexivity.
Qed.

Lemma in_getFilesToDelete (changes : list RemoteFileChange)
  (c : RemoteFileChange) :
  In c (getFilesToDelete changes) <-> In c changes /\ isRemovedR c = true.
Proof.
  unfold getFilesToDelete, isRemovedR. rewrite filter_In.
  split; intros [Hc Hkind]; (split; [exact Hc|]);
    destruct (rfc_change c); try discriminate; reflexivity.
Qed.

(** The entries downloaded after a diff: those of the latest inventory at
    the path of one of its files that the baseline lacks or holds at another
    version. *)
Lemma download_after_diff (previous : list FileInfo)
  (latest : list RemoteFileInfo) (i : RemoteFileInfo) :
  In i (getFilesToDownload latest
          (changesOf (getRemoteChanges previous latest))) <->
  In i latest
  /\ In (path i) (paths (files_of latest))
  /\ (~ In (path i) (paths (files_of previous))
      \/ exists e e', In e (files_of previous) /\ path e = path i
                      /\ entryAt (path i) (files_of latest) = Some e'
                      /\ version e' <> version e).
Proof.
  rewrite in_getFilesToDownload, getRemoteChanges_groups. split.
  - intros [Hi [c [Hc [Hp Hkind]]]]. split; [exact Hi|].
    rewrite !in_app_iff in Hc. destruct Hc as [Hc|[Hc|Hc]].
    + apply in_removedOfRemote in Hc as [Hc _].
      unfold isAddedR, isUpdatedR in Hkind. rewrite Hc in Hkind.
      destruct Hkind; discriminate.
    + apply in_addedOfRemote in Hc as [e [He [Hpe [Hout _]]]].
      rewrite <- Hp. split; [|left; exact Hout].
      rewrite <- Hpe. apply in_map. exact He.
    + apply in_updatedOfRemote in Hc as [e [e' [He [Hpe [Hat [Hv _]]]]]].
      rewrite <- Hp. split.
      * apply entryAt_path in Hat as [Hin Hp']. rewrite <- Hp'.
        apply in_map. exact Hin.
      * right. exists e, e'. repeat split; assumption.
  - intros [Hi [Hfile Hwhy]]. split; [exact Hi|].
    destruct Hwhy as [Hout|[e [e' [He [Hpe [Hat Hv]]]]]].
    + apply in_map_iff in Hfile as [x [Hx Hin]].
      exists (mkRemoteFileChange (path i) (remoteFileChange.added (version x))).
      split; [|split; [reflexivity|left; reflexivity]].
      rewrite !in_app_iff. right. left.
      apply in_addedOfRemote. exists x. repeat split; assumption.
    + exists (mkRemoteFileChange (path i) (remoteFileChange.updated (version e))).
      split; [|split; [reflexivity|right; reflexivity]].
      rewrite !in_app_iff. right. right.
      apply in_updatedOfRemote. exists e, e'. repeat split; assumption.
Qed.

Lemma delete_after_diff (previous : list FileInfo)
  (latest : list RemoteFileInfo) (c : RemoteFileChange) :
  In c (getFilesToDelete (changesOf (getRemoteChanges previous latest))) <->
  rfc_change c = remoteFileChange.removed
  /\ In (path c) (paths (files_of previous))
  /\ ~ In (path c) (paths (files_of latest)).
Proof.
  rewrite in_getFilesToDelete, getRemoteChanges_groups. split.
  - intros [Hc Hkind]. rewrite !in_app_iff in Hc.
    destruct Hc as [Hc|[Hc|Hc]].
    + apply in_removedOfRemote. exact Hc.
    + apply in_addedOfRemote in Hc as [e [_ [_ [_ Hc]]]].
      unfold isRemovedR in Hkind. rewrite Hc in Hkind. discriminate.
    + apply in_updatedOfRemote in Hc as [e [e' [_ [_ [_ [_ Hc]]]]]].
      unfold isRemovedR in Hkind. rewrite Hc in Hkind. discriminate.
  - intros Hc. split.
    + rewrite !in_app_iff. left. apply in_removedOfRemote. exact Hc.
    + destruct Hc as [Hc _]. unfold isRemovedR. rewrite Hc. reflexivity.
Qed.
End Plan.

(** X4.  After a remote diff, the entries to download are the entries of
    the latest inventory at the path of a file that the baseline lacks or
    holds at another version; the records to delete are the [removed]
    records, at the paths of baseline files that the latest inventory
    lacks; and no path is both downloaded and deleted. *)
Theorem plan_after_remote_diff :
  forall (previous : list FileInfo) (latest : list RemoteFileInfo),
    (forall i,
        In i (getFilesToDownload latest
                (changesOf (getRemoteChanges previous latest))) <->
        In i latest
        /\ In (path i) (paths (files_of latest))
        /\ (~ In (path i) (paths (files_of previous))
            \/ exists e e', In e (files_of previous) /\ path e = path i
                            /\ entryAt (path i) (files_of latest) = Some e'
                            /\ version e' <> version e))
    /\ (forall c,
           In c (getFilesToDelete
                   (changesOf (getRemoteChanges previous latest))) <->
           rfc_change c = remoteFileChange.removed
           /\ In (path c) (paths (files_of previous))
           /\ ~ In (path c) (paths (files_of latest)))
    /\ (forall i c,
           In i (getFilesToDownload latest
                   (changesOf (getRemoteChanges previous latest))) ->
           In c (getFilesToDelete
                   (changesOf (getRemoteChanges previous latest))) ->
           path i <> path c).
Proof.
  intros previous latest. split; [|split].
  - apply download_after_diff.
  - apply delete_after_diff.
  - intros i c Hi Hc Heq.
    apply download_after_diff in Hi as [_ [Hfile _]].
    apply delete_after_diff in Hc as [_ [_ Hout]].
    apply Hout. rewrite <- Heq. exact Hfile.
Qed.

(** X5.  On a first sync, where the baseline is empty, every file of the
    remote inventory is downloaded and nothing is deleted. *)
Theorem first_sync_downloads_every_file :
  forall (latest : list RemoteFileInfo),
    (forall i, In i latest -> isFile i = true ->
               In i (getFilesToDownload latest
                       (changesOf (getRemoteChanges ([] : list FileInfo) latest))))
    /\ getFilesToDelete
         (changesOf (getRemoteChanges ([] : list FileInfo) latest)) = [].
Proof.
  intros latest. split.
  - intros i Hi Hfile. apply download_after_diff. split; [exact Hi|].
    split; [|left; intros []].
    apply in_map. apply filter_In. split; assumption.
  - destruct (getFilesToDelete _) as [|c rest] eqn:Hdel; [reflexivity|].
    exfalso.
    assert (Hc : In c (getFilesToDelete
                         (changesOf (getRemoteChanges ([] : list FileInfo) latest)))).
    { rewrite Hdel. left. reflexivity. }
    apply delete_after_diff in Hc as [_ [[] _]].
Qed.

Lemma first_sync_downloads_every_file_witness :
  In (mkRemoteFileInfo "a.txt" 1 tFile pRW)
    (getFilesToDownload inventoryBA
       (changesOf (getRemoteChanges ([] : list FileInfo) inventoryBA))).
Proof.
  apply (proj1 (first_sync_downloads_every_file inventoryBA)).
  - right. left. reflexivity.
  - reflexivity.
Defined.

(** * The conflicts that are reported *)

Lemma getConflicts_list (local : list LocalFileChange)
  (remote : list RemoteFileChange) :
  changesOf (getConflicts local remote) =
  map (fun lc : LocalFileChange =>
         mkConflict (path lc)
           (match entryAt (path lc) remote with
            | Some rc => rfc_change rc
            | None => remoteFileChange.noChange
            end)
           (lfc_change lc))
    (List.filter (fun lc : LocalFileChange => array.elem eqPath lc remote) local).
Proof.
  unfold getConflicts. rewrite changesOf_fromArray.
  unfold array.intersection. apply map_ext. intros lc.
  unfold array.findFirst, entryAt.
  rewrite (find_ext (fun rc : RemoteFileChange => eqPath lc rc)
             (fun rc : RemoteFileChange => String.eqb (path rc) (path lc))).
  - reflexivity.
  - intros rc. apply String.eqb_sym.
Qed.

(** X6.  Every reported conflict pairs a local change with the first
    remote change at the same path, so its remote side is never the
    [noChange] fallback unless that remote record is [noChange] itself;
    every local change at a path the remote changes hold is reported; and
    the conflicts keep the order of the local changes. *)
Theorem conflicts_pair_both_sides :
  forall (local : list LocalFileChange) (remote : list RemoteFileChange),
    (forall c, In c (changesOf (getConflicts local remote)) ->
               exists lc rc,
                 In lc local /\ In rc remote
                 /\ entryAt (c_path c) remote = Some rc
                 /\ path lc = c_path c /\ path rc = c_path c
                 /\ changeLocal c = lfc_change lc
                 /\ changeRemote c = rfc_change rc)
    /\ (forall lc, In lc local -> In (path lc) (paths remote) ->
                   exists c, In c (changesOf (getConflicts local remote))
                             /\ c_path c = path lc
                             /\ changeLocal c = lfc_change lc)
    /\ sublist (map c_path (changesOf (getConflicts local remote)))
         (paths local).
Proof.
  intros local remote. rewrite getConflicts_list. split; [|split].
  - intros c Hc. apply in_map_iff in Hc as [lc [<- Hlc]].
    apply filter_In in Hlc as [Hlc Helem]. simpl.
    apply elem_eqPath_l in Helem.
    apply in_map_iff in Helem as [x [Hx Hin]].
    destruct (entryAt (path lc) remote) as [rc|] eqn:Hat.
    + destruct (entryAt_path _ _ _ Hat) as [Hrc Hp].
      exists lc, rc. repeat split; assumption.
    + exfalso. unfold entryAt in Hat. apply (find_none _ _ Hat) in Hin.
      rewrite Hx, String.eqb_refl in Hin. discriminate Hin.
  - intros lc Hlc Hp. eexists. split.
    + apply in_map. apply filter_In. split; [exact Hlc|].
      apply elem_eqPath_l. exact Hp.
    + split; reflexivity.
  - rewrite map_map. simpl. apply map_sublist. apply filter_sublist.
Qed.

Lemma conflicts_pair_both_sides_witness :
  exists c,
    In c (changesOf
            (getConflicts [mkLocalFileChange "a.txt" localFileChange.updated]
               [mkRemoteFileChange "a.txt" (remoteFileChange.updated 1)]))
    /\ c_path c = "a.txt"%string
    /\ changeLocal c = localFileChange.updated.
Proof.
  apply (proj1 (proj2 (conflicts_pair_both_sides
                         [mkLocalFileChange "a.txt" localFileChange.updated]
                         [mkRemoteFileChange "a.txt" (remoteFileChange.updated 1)]))
           (mkLocalFileChange "a.txt" localFileChange.updated)).
  - left. reflexivity.
  - left. reflexivity.
Defined.

(** * Further properties of the upload-eligibility checks *)

Section Acceptance.
Context `{PathApi}.

Lemma traverseArray_Right {X Y} (f : X -> Outcome Y) (xs : list X)
  (ys : list Y) :
  taskEither.traverseArray f xs = Right ys ->
  Forall2 (fun x y => f x = Right y) xs ys.
Proof.
  revert ys. induction xs as [|x xs IH]; intros ys; simpl.
  - intros Hr. injection Hr as <-. constructor.
  - destruct (f x) as [y|e| |] eqn:Hx; simpl; try discriminate.
    unfold taskEither.map. simpl.
    destruct (taskEither.traverseArray f xs) as [rest|e| |]; simpl;
      try discriminate.
    intros Hr. injection Hr as <-. constructor; [exact Hx|].
    apply IH. reflexivity.
Qed.

Lemma traverseArray_Thrown {X Y} (f : X -> Outcome Y) (xs : list X) :
  taskEither.traverseArray f xs = Thrown ->
  exists x, In x xs /\ f x = Thrown.
Proof.
  induction xs as [|x xs IH]; simpl; [discriminate|].
  destruct (f x) as [y|e| |] eqn:Hx; simpl; try discriminate.
  - unfold taskEither.map. simpl.
    destruct (taskEither.traverseArray f xs) as [rest|e| |]; simpl;
      try discriminate.
    intros _. destruct (IH eq_refl) as [x' [Hin Hx']].
    exists x'. split; [right; exact Hin|exact Hx'].
  - intros _. exists x. split; [left; reflexivity|exact Hx].
Qed.

Lemma findClosest_not_Thrown {X} (fuel : nat) (map : string -> option X)
  (p : string) :
  findClosest fuel map p <> Thrown.
Proof.
  revert p. induction fuel as [|fuel IH]; intros p; simpl; [discriminate|].
  destruct (map p); [discriminate|].
  destruct (String.eqb p "."); [discriminate|].
  destruct (dirname p); [discriminate|apply IH].
Qed.

Lemma checkClosest_Right (fuel : nat) (remote : list RemoteFileInfo)
  (c c' : LocalFileChange) :
  checkClosestExistingAncestorIsWritable fuel remote c = Right c' -> c' = c.
Proof.
  unfold checkClosestExistingAncestorIsWritable, taskEither.chainFirst,
    taskEither.filterOrElse, taskEither.map, taskEither.of_. simpl.
  destruct (findClosest fuel _ (path c)) as [b| | |]; simpl; try discriminate.
  destruct b; simpl; [|discriminate]. intros Hr. injection Hr as <-.
  reflexivity.
Qed.

Lemma checkClosest_not_Thrown (fuel : nat) (remote : list RemoteFileInfo)
  (c : LocalFileChange) :
  checkClosestExistingAncestorIsWritable fuel remote c <> Thrown.
Proof.
  unfold checkClosestExistingAncestorIsWritable, taskEither.chainFirst,
    taskEither.filterOrElse, taskEither.map, taskEither.of_. simpl.
  destruct (findClosest fuel _ (path c)) as [b| | |] eqn:Hf; simpl;
    try discriminate.
  - destruct b; discriminate.
  - exfalso. revert Hf. apply findClosest_not_Thrown.
Qed.

Lemma checkValidFileName_Right (c c' : LocalFileChange) :
  checkValidFileName c = Right c' ->
  c' = c /\ exists name, basename (path c) = Some name
                         /\ isValidFileName name = true.
Proof.
  unfold checkValidFileName, taskEither.chainFirst, taskEither.filterOrElse,
    taskEither.map, taskEither.of_, taskEither.fromOption. simpl.
  destruct (basename (path c)) as [name|]; simpl; [|discriminate].
  destruct (isValidFileName name) eqn:Hvalid; simpl; [|discriminate].
  intros Hr. injection Hr as <-. split; [reflexivity|].
  exists name. split; [reflexivity|exact Hvalid].
Qed.

Lemma checkValidFileName_not_Thrown (c : LocalFileChange) :
  checkValidFileName c <> Thrown.
Proof.
  unfold checkValidFileName, taskEither.chainFirst, taskEither.filterOrElse,
    taskEither.map, taskEither.of_, taskEither.fromOption. simpl.
  destruct (basename (path c)) as [name|]; simpl; [|discriminate].
  destruct (isValidFileName name); discriminate.
Qed.

Lemma checkEveryNewAncestor_Right (fuel : nat) (remote : list RemoteFileInfo)
  (c c' : LocalFileChange) :
  checkEveryNewAncestorIsValidDirName fuel remote c = Right c' -> c' = c.
Proof.
  unfold checkEveryNewAncestorIsValidDirName.
  destruct (ancestors fuel (inr (path c))); [|discriminate].
  unfold taskEither.map, taskEither.chain, taskEither.fromEither,
    taskEither.fromOption.
  destruct (sequenceArray l); [discriminate|].
  destruct (option.filter _ _); [|discriminate].
  intros Hr. injection Hr as <-. reflexivity.
Qed.

Lemma checkEveryNewAncestor_not_Thrown (fuel : nat)
  (remote : list RemoteFileInfo) (c : LocalFileChange) :
  checkEveryNewAncestorIsValidDirName fuel remote c <> Thrown.
Proof.
  unfold checkEveryNewAncestorIsValidDirName.
  destruct (ancestors fuel (inr (path c))); [|discriminate].
  unfold taskEither.map, taskEither.chain, taskEither.fromEither,
    taskEither.fromOption.
  destruct (sequenceArray l); [discriminate|].
  destruct (option.filter _ _); discriminate.
Qed.

Lemma Forall2_same {X} (P : X -> Prop) (xs ys : list X) :
  Forall2 (fun x y => y = x /\ P x) xs ys ->
  ys = xs /\ forall c, In c ys -> P c.
Proof.
  induction 1 as [|x y xs ys [-> Hx] _ [-> IH]].
  - split; [reflexivity|intros c []].
  - split; [reflexivity|]. intros c [<-|Hc]; [exact Hx|apply IH; exact Hc].
Qed.

Lemma isFileWritable_true (remote : list RemoteFileInfo) (c : LocalFileChange) :
  isFileWritable remote c = true <->
  exists i, entryAt (path c) remote = Some i /\ permissions i = pRW.
Proof.
  unfold isFileWritable, array.findFirst, entryAt.
  destruct (List.find _ remote) as [i|]; split.
  - intros Hb. exists i. split; [reflexivity|].
    apply bool_decide_eq_true in Hb. exact Hb.
  - intros [i' [Hi Hrw]]. injection Hi as <-.
    apply bool_decide_eq_true. exact Hrw.
  - discriminate.
  - intros [i [Hi _]]. discriminate Hi.
Qed.

(** X7.  When [getFilesToUpload] accepts, it returns the local changes
    without the [noChange] records, in their order; every accepted
    [updated] or [removed] file has an entry in the remote inventory with
    permissions ['rw'] (a file the inventory lacks is never accepted), a
    [removed] file has also passed the ancestor check, and an [added] file
    has passed the ancestor check, the check of the names of its new
    ancestors and the check of its file name. *)
Theorem upload_gate_accepts :
  forall (fuel : nat) (local : list LocalFileChange)
    (remote : list RemoteFileInfo) (accepted : list LocalFileChange),
    getFilesToUpload fuel local remote = Right accepted ->
    accepted
    = List.filter
        (fun c : LocalFileChange =>
           match lfc_change c with
           | localFileChange.noChange => false
           | _ => true
           end)
        local
    /\ forall c, In c accepted ->
         match lfc_change c with
         | localFileChange.noChange => False
         | localFileChange.updated =>
             exists i, entryAt (path c) remote = Some i /\ permissions i = pRW
         | localFileChange.removed =>
             (exists i, entryAt (path c) remote = Some i /\ permissions i = pRW)
             /\ checkClosestExistingAncestorIsWritable fuel remote c = Right c
         | localFileChange.added =>
             checkClosestExistingAncestorIsWritable fuel remote c = Right c
             /\ checkEveryNewAncestorIsValidDirName fuel remote c = Right c
             /\ exists name, basename (path c) = Some name
                             /\ isValidFileName name = true
         end.
Proof.
  intros fuel local remote accepted Hok. unfold getFilesToUpload in Hok.
  apply traverseArray_Right in Hok.
  set (kept := List.filter _ local) in Hok.
  assert (Heach : Forall2
    (fun x y : LocalFileChange =>
       y = x /\
       match lfc_change x with
       | localFileChange.noChange => False
       | localFileChange.updated =>
           exists i, entryAt (path x) remote = Some i /\ permissions i = pRW
       | localFileChange.removed =>
           (exists i, entryAt (path x) remote = Some i /\ permissions i = pRW)
           /\ checkClosestExistingAncestorIsWritable fuel remote x = Right x
       | localFileChange.added =>
           checkClosestExistingAncestorIsWritable fuel remote x = Right x
           /\ checkEveryNewAncestorIsValidDirName fuel remote x = Right x
           /\ exists name, basename (path x) = Some name
                           /\ isValidFileName name = true
       end) kept accepted).
  { eapply Forall2_impl; [exact Hok|]. simpl. intros x y Hxy.
    destruct (lfc_change x) eqn:Hkind.
    - discriminate Hxy.
    - unfold taskEither.fromPredicate in Hxy.
      destruct (isFileWritable remote x) eqn:Hw; [|discriminate].
      injection Hxy as <-. split; [reflexivity|].
      apply isFileWritable_true. exact Hw.
    - unfold taskEither.fromPredicate, taskEither.chain in Hxy.
      destruct (isFileWritable remote x) eqn:Hw; [|discriminate].
      pose proof (checkClosest_Right _ _ _ _ Hxy) as ->.
      split; [reflexivity|]. split; [|exact Hxy].
      apply isFileWritable_true. exact Hw.
    - unfold taskEither.chainFirst, taskEither.chain, taskEither.map in Hxy.
      destruct (checkClosestExistingAncestorIsWritable fuel remote x)
        as [c1| | |] eqn:H1; try discriminate.
      pose proof (checkClosest_Right _ _ _ _ H1) as ->.
      destruct (checkEveryNewAncestorIsValidDirName fuel remote x)
        as [c2| | |] eqn:H2; try discriminate.
      pose proof (checkEveryNewAncestor_Right _ _ _ _ H2) as ->.
      destruct (checkValidFileName x) as [c3| | |] eqn:H3; try discriminate.
      injection Hxy as <-.
      apply checkValidFileName_Right in H3 as [_ Hname].
      repeat split; try reflexivity. exact Hname. }
  apply Forall2_same in Heach as [Hsame Hall]. split; [exact Hsame|exact Hall].
Qed.
End Acceptance.

Lemma upload_gate_accepts_witness :
  editedAndAdded
  = List.filter
      (fun c : LocalFileChange =>
         match lfc_change c with
         | localFileChange.noChange => false
         | _ => true
         end)
      editedAndAdded
  /\ forall c, In c editedAndAdded ->
       match lfc_change c with
       | localFileChange.noChange => False
       | localFileChange.updated =>
           exists i, entryAt (path c) inventoryRooted = Some i
                     /\ permissions i = pRW
       | localFileChange.removed =>
           (exists i, entryAt (path c) inventoryRooted = Some i
                      /\ permissions i = pRW)
           /\ checkClosestExistingAncestorIsWritable 5 inventoryRooted c = Right c
       | localFileChange.added =>
           checkClosestExistingAncestorIsWritable 5 inventoryRooted c = Right c
           /\ checkEveryNewAncestorIsValidDirName 5 inventoryRooted c = Right c
           /\ exists name, basename (path c) = Some name
                           /\ isValidFileName name = true
       end.
Proof.
  apply (upload_gate_accepts 5 editedAndAdded inventoryRooted editedAndAdded).
  vm_compute. reflexivity.
Defined.

Section Decides.
Context `{PathApi}.

(** X8.  [getFilesToUpload] never throws: the panicking [noChange] branch
    of its fold is out of reach of the filter before it. *)
Theorem upload_gate_never_throws :
  forall (fuel : nat) (local : list LocalFileChange)
    (remote : list RemoteFileInfo),
    getFilesToUpload fuel local remote <> Thrown.
Proof.
  intros fuel local remote Hthrown. unfold getFilesToUpload in Hthrown.
  apply traverseArray_Thrown in Hthrown as [x [Hin Hx]].
  apply filter_In in Hin as [_ Hkept].
  destruct (lfc_change x).
  - discriminate Hkept.
  - unfold taskEither.fromPredicate in Hx.
    destruct (isFileWritable remote x); discriminate Hx.
  - unfold taskEither.fromPredicate, taskEither.chain in Hx.
    destruct (isFileWritable remote x); [|discriminate Hx].
    revert Hx. apply checkClosest_not_Thrown.
  - unfold taskEither.chainFirst, taskEither.chain, taskEither.map in Hx.
    destruct (checkClosestExistingAncestorIsWritable fuel remote x)
      as [c1| | |] eqn:H1; try discriminate Hx.
    + destruct (checkEveryNewAncestorIsValidDirName fuel remote c1)
        as [c2| | |] eqn:H2; try discriminate Hx.
      * destruct (checkValidFileName c2) as [c3| | |] eqn:H3;
          try discriminate Hx.
        revert H3. apply checkValidFileName_not_Thrown.
      * revert H2. apply checkEveryNewAncestor_not_Thrown.
    + revert H1. apply checkClosest_not_Thrown.
Qed.

(** X9.  The ancestor check is decided by the first path on the walk from
    the change upward that the remote inventory holds: when that path is
    reached in [n] steps without passing the root ['.'], the check, given
    more than [n] steps, accepts if its permissions are ['rw'] and fails
    with [readOnlyFilesChanged] for the path of the change otherwise. *)
Theorem closest_ancestor_decides :
  forall (remote : list RemoteFileInfo) (c : LocalFileChange) (n : nat)
    (q : string) (i : RemoteFileInfo) (fuel : nat),
    ancestorAt n (path c) = Some q ->
    entryAt q remote = Some i ->
    (forall m q', (m < n)%nat -> ancestorAt m (path c) = Some q' ->
                  entryAt q' remote = None /\ q' <> "."%string) ->
    (n < fuel)%nat ->
    checkClosestExistingAncestorIsWritable fuel remote c
    = if bool_decide (permissions i = pRW) then Right c
      else Left (readOnlyFilesChanged (path c) "Parent directory is read-only").
Proof.
  intros remote c n q i fuel Hanc Hat Hbefore Hfuel.
  unfold checkClosestExistingAncestorIsWritable, taskEither.chainFirst,
    taskEither.filterOrElse, taskEither.map, taskEither.of_. simpl.
  rewrite (findClosest_found _ n (path c) q
             (bool_decide (permissions i = pRW)) fuel Hanc).
  - simpl. destruct (bool_decide (permissions i = pRW)); reflexivity.
  - unfold array.findFirst. unfold entryAt in Hat. rewrite Hat. reflexivity.
  - intros m q' Hm Hq'. destruct (Hbefore m q' Hm Hq') as [Hnone Hroot].
    split; [|exact Hroot].
    unfold array.findFirst. unfold entryAt in Hnone. rewrite Hnone.
    reflexivity.
  - exact Hfuel.
Qed.
End Decides.

Lemma closest_ancestor_decides_witness :
  checkClosestExistingAncestorIsWritable 5 inventoryRooted addedBelowLib
  = if bool_decide (permissions (mkRemoteFileInfo "lib" 1 tDir pR) = pRW)
    then Right addedBelowLib
    else Left (readOnlyFilesChanged (path addedBelowLib)
                 "Parent directory is read-only").
Proof.
  apply (closest_ancestor_decides inventoryRooted addedBelowLib 1 "lib"
           (mkRemoteFileInfo "lib" 1 tDir pR) 5).
  - vm_compute. reflexivity.
  - vm_compute. reflexivity.
  - intros [|m] q' Hm Hq'; [|lia].
    vm_compute in Hq'. injection Hq' as <-. split; [reflexivity|discriminate].
  - lia.
Defined.

Section NewAncestors.
Context `{PathApi}.

Lemma traverseOption_Some {X Y} (f : X -> option Y) (xs : list X)
  (ys : list Y) :
  traverseOption f xs = Some ys -> Forall2 (fun x y => f x = Some y) xs ys.
Proof.
  revert ys. induction xs as [|x xs IH]; intros ys; simpl.
  - intros Hs. injection Hs as <-. constructor.
  - destruct (f x) as [y|] eqn:Hx; [|discriminate].
    destruct (traverseOption f xs) as [rest|]; [|discriminate].
    intros Hs. injection Hs as <-. constructor; [exact Hx|].
    apply IH. reflexivity.
Qed.

(** The proper ancestors the unfold yields: the paths on the walk through
    [dirname], from the parent on, as long as the walk has not passed the
    root ['.']. *)
Lemma ancestors_complete (fuel : nat) :
  forall (p : string) (steps : list (SyncException + string))
    (found : list string) (n : nat) (q : string),
    ancestors fuel (inr p) = Some steps ->
    sequenceArray steps = inr found ->
    (1 <= n)%nat ->
    ancestorAt n p = Some q ->
    (forall m q', (m < n)%nat -> ancestorAt m p = Some q' -> q' <> "."%string) ->
    In q found.
Proof.
  induction fuel as [|fuel IH]; intros p steps found n q Hsteps Hseq Hn Hanc Hwalk;
    simpl in Hsteps; [discriminate|].
  destruct (String.eqb p ".") eqn:Hroot.
  - exfalso. apply String.eqb_eq in Hroot.
    apply (Hwalk O p); [lia|reflexivity|exact Hroot].
  - destruct n as [|n]; [lia|]. simpl in Hanc.
    destruct (dirname p) as [reason|parent] eqn:Hdir; [discriminate|].
    destruct (ancestors fuel (inr parent)) as [rest|] eqn:Hrest;
      [|discriminate].
    simpl in Hsteps. injection Hsteps as <-. simpl in Hseq.
    destruct (sequenceArray rest) as [e|found'] eqn:Hseq'; [discriminate|].
    injection Hseq as <-.
    destruct n as [|n].
    + simpl in Hanc. injection Hanc as <-. left. reflexivity.
    + right. apply (IH parent rest found' (S n) q Hrest Hseq');
        [lia|exact Hanc|].
      intros m q' Hm Hq'. apply (Hwalk (S m)); [lia|].
      simpl. rewrite Hdir. exact Hq'.
Qed.

Lemma ancestors_sound (fuel : nat) :
  forall (p : string) (steps : list (SyncException + string))
    (found : list string) (q : string),
    ancestors fuel (inr p) = Some steps ->
    sequenceArray steps = inr found ->
    In q found ->
    exists n, (1 <= n)%nat /\ ancestorAt n p = Some q.
Proof.
  induction fuel as [|fuel IH]; intros p steps found q Hsteps Hseq Hin;
    simpl in Hsteps; [discriminate|].
  destruct (String.eqb p ".").
  - injection Hsteps as <-. simpl in Hseq. injection Hseq as <-. destruct Hin.
  - destruct (dirname p) as [reason|parent] eqn:Hdir.
    + destruct (ancestors fuel _) as [rest|]; [|discriminate].
      simpl in Hsteps. injection Hsteps as <-. discriminate Hseq.
    + destruct (ancestors fuel (inr parent)) as [rest|] eqn:Hrest;
        [|discriminate].
      simpl in Hsteps. injection Hsteps as <-. simpl in Hseq.
      destruct (sequenceArray rest) as [e|found'] eqn:Hseq'; [discriminate|].
      injection Hseq as <-. destruct Hin as [<-|Hin].
      * exists 1%nat. split; [lia|]. simpl. rewrite Hdir. reflexivity.
      * destruct (IH parent rest found' q Hrest Hseq' Hin) as [n [Hn Hanc]].
        exists (S n). split; [lia|]. simpl. rewrite Hdir. exact Hanc.
Qed.

(** X10.  When [checkEveryNewAncestorIsValidDirName] accepts a change, it
    returns the change, and every proper ancestor of its path on the walk
    through [dirname] up to the root ['.'] (the root included) that the
    remote inventory does not hold has a base name, and that name is a
    valid directory name. *)
Theorem new_ancestors_have_valid_names :
  forall (fuel : nat) (remote : list RemoteFileInfo) (c c' : LocalFileChange),
    checkEveryNewAncestorIsValidDirName fuel remote c = Right c' ->
    c' = c
    /\ forall n q,
        (1 <= n)%nat ->
        ancestorAt n (path c) = Some q ->
        (forall m q', (m < n)%nat -> ancestorAt m (path c) = Some q' ->
                      q' <> "."%string) ->
        entryAt q remote = None ->
        exists name, basename q = Some name /\ isValidDirName name = true.
Proof.
  intros fuel remote c c' Hok.
  split; [apply (checkEveryNewAncestor_Right _ _ _ _ Hok)|].
  unfold checkEveryNewAncestorIsValidDirName in Hok.
  destruct (ancestors fuel (inr (path c))) as [steps|] eqn:Hsteps;
    [|discriminate].
  unfold taskEither.map, taskEither.chain, taskEither.fromEither,
    taskEither.fromOption in Hok.
  destruct (sequenceArray steps) as [e|found] eqn:Hseq; [discriminate|].
  destruct (traverseOption basename _) as [names|] eqn:Hnames;
    [|discriminate].
  simpl in Hok. destruct (forallb isValidDirName names) eqn:Hvalid;
    [|discriminate].
  intros n q Hn Hanc Hwalk Hnew.
  pose proof (ancestors_complete _ _ _ _ _ _ Hsteps Hseq Hn Hanc Hwalk) as Hin.
  assert (Hkept : In q
    (List.filter
       (fun p => negb (existsb (fun i : RemoteFileInfo => String.eqb (path i) p)
                        remote))
       found)).
  { apply filter_In. split; [exact Hin|]. apply negb_true_iff.
    destruct (existsb _ remote) eqn:Hex; [|reflexivity].
    apply existsb_exists in Hex as [i [Hi Hp]].
    unfold entryAt in Hnew. apply (find_none _ _ Hnew) in Hi.
    rewrite Hp in Hi. discriminate Hi. }
  apply traverseOption_Some in Hnames.
  clear -Hnames Hkept Hvalid.
  induction Hnames as [|x name xs names Hx _ IH]; [destruct Hkept|].
  simpl in Hvalid. apply andb_true_iff in Hvalid as [Hv Hrest].
  destruct Hkept as [<-|Hkept].
  - exists name. split; assumption.
  - apply IH; assumption.
Qed.
End NewAncestors.

Lemma new_ancestors_have_valid_names_witness :
  exists name,
    basename "src/new" = Some name /\ isValidDirName name = true.
Proof.
  apply (proj2 (@new_ancestors_have_valid_names MemoryHost.pathApi
                  5%nat inventoryRooted
                  (mkLocalFileChange "src/new/a.c" localFileChange.added)
                  (mkLocalFileChange "src/new/a.c" localFileChange.added)
                  eq_refl) 1%nat "src/new"%string).
  - lia.
  - vm_compute. reflexivity.
  - intros [|m] q' Hm Hq'; [|lia].
    vm_compute in Hq'. injection Hq' as <-. discriminate.
  - vm_compute. reflexivity.
Defined.

(** * Further properties of runs *)

Lemma allowed_without_any_upload (id : ProjectId) (down del : bool)
  (ev : Event) :
  allowedEvent id false down del ev = true ->
  (forall p payload, ev <> ApiRequest POST p payload)
  /\ (forall archivePath dir archived, ev <> BuildTar archivePath dir archived).
Proof.
  intros Hev. split.
  - intros p payload ->. unfold allowedEvent in Hev.
    destruct payload; discriminate Hev.
  - intros archivePath dir archived ->. discriminate Hev.
Qed.

Lemma allowed_read_only (id : ProjectId) (ev : Event) :
  allowedEvent id false false false ev = true ->
  ev = ApiRequest GET ("project/" +:+ id +:+ "/info") payloadEmpty
  \/ exists p readOnly, ev = CreateProjectDir p readOnly.
Proof.
  destruct ev as [method p payload|p readOnly|p|p content readOnly|p|a d fs];
    unfold allowedEvent; intros Hev; try discriminate Hev.
  - destruct method, payload; try discriminate Hev.
    apply String.eqb_eq in Hev. left. rewrite Hev. reflexivity.
  - right. exists p, readOnly. reflexivity.
Qed.

Section MoreRuns.
Context {World : Type} `{Host World} `{PathApi}.

(** X11.  Without a [projectDir] setting a run fails with
    [projectDirMissing] before it does anything: no request is issued and
    the state is left as it was. *)
Theorem run_without_project_dir :
  forall (fuel : nat) (project : Project) (force : option ForceSyncDirection)
    (st : RunState World),
    settingRead_projectDir (world st) = None ->
    runProjectSync fuel project force st = (Left projectDirMissing, st).
Proof.
  intros fuel project force st Hnone. rewrite run_unfold.
  unfold syncDetect, bind, hostRead, liftOutcome. rewrite Hnone. reflexivity.
Qed.

(** X12.  With [force = 'pull'] the local change set is suppressed and the
    run uploads nothing: it builds no archive and issues no [POST]
    request. *)
Theorem force_pull_never_uploads :
  forall (fuel : nat) (project : Project) (st : RunState World),
    (forall d, localChangesOf (Some pull) d = None)
    /\
    exists evs,
      trace (snd (runProjectSync fuel project (Some pull) st))
      = trace st ++ evs
      /\ Forall
           (fun ev =>
              (forall p payload, ev <> ApiRequest POST p payload)
              /\ (forall archivePath dir archived,
                     ev <> BuildTar archivePath dir archived))
           evs.
Proof.
  intros fuel project st.
  assert (Hnone : forall d, localChangesOf (Some pull) d = None).
  { intros d. unfold localChangesOf, option.filter. simpl.
    destruct (option.chain _ _); reflexivity. }
  split; [exact Hnone|].
  apply (emitsOnly_weaken
           (fun ev =>
              allowedEvent (projectId (projectADT.value project))
                false true true ev = true)).
  - intros ev. apply allowed_without_any_upload.
  - apply (run_events fuel project (Some pull) false true st).
    intros d st1 _. split; [|reflexivity].
    intros Hsome. exfalso. apply Hsome. apply Hnone.
Qed.

(** X13.  A run whose detection finds no local and no remote change only
    reads: apart from creating the directories of the inventory, all it
    issues are requests for the inventory (no upload, no download, no local
    deletion). *)
Theorem run_without_changes_only_reads :
  forall (fuel : nat) (project : Project) (force : option ForceSyncDirection)
    (st : RunState World),
    (forall d st1,
        syncDetect project st = (Right d, st1) ->
        localChangesOf force d = None /\ remoteChangesOf force d = None) ->
    exists evs,
      trace (snd (runProjectSync fuel project force st)) = trace st ++ evs
      /\ Forall
           (fun ev =>
              ev = ApiRequest GET
                     ("project/" +:+ projectId (projectADT.value project)
                        +:+ "/info") payloadEmpty
              \/ exists p readOnly, ev = CreateProjectDir p readOnly)
           evs.
Proof.
  intros fuel project force st Hquiet.
  apply (emitsOnly_weaken
           (fun ev =>
              allowedEvent (projectId (projectADT.value project))
                false false false ev = true)).
  - intros ev. apply allowed_read_only.
  - apply (run_events fuel project force false false st).
    intros d st1 Hdetect. destruct (Hquiet d st1 Hdetect) as [Hl Hr].
    split; intros Hsome; exfalso; apply Hsome; assumption.
Qed.

(** X14.  Whatever its outcome, a run leaves the records of all other
    projects in the repository as they were. *)
Theorem run_keeps_other_projects :
  forall (fuel : nat) (project : Project) (force : option ForceSyncDirection)
    (st : RunState World) (other : ProjectId),
    other <> projectId (projectADT.value project) ->
    projectRepository.find other
      (store (snd (runProjectSync fuel project force st)))
    = projectRepository.find other (store st).
Proof.
  intros fuel project force st other Hother. rewrite run_unfold.
  pose proof (detect_keeps_store project st) as Hd.
  destruct (syncDetect project st) as [[d|e| |] st1]; simpl in Hd;
    try (simpl; rewrite Hd; reflexivity).
  pose proof (apply_keeps_store fuel project force d st1) as Ha.
  destruct (syncApply fuel project force d st1) as [[files|e| |] st2];
    simpl in Ha; simpl; unfold sameStore in *;
    try (rewrite Ha, Hd; reflexivity).
  unfold projectRepository.find, projectRepository.upsertOne. simpl.
  rewrite lookup_insert_ne; [|intros Heq; apply Hother; symmetry; exact Heq].
  rewrite Ha, Hd. reflexivity.
Qed.
End MoreRuns.

Lemma run_without_project_dir_witness :
  runProjectSync 10 (projectADT.remote metadataP1) None
    (mkRunState (mkWorld None [] [] 0) ∅ [])
  = (Left projectDirMissing, mkRunState (mkWorld None [] [] 0) ∅ []).
Proof.
  apply (run_without_project_dir 10 (projectADT.remote metadataP1) None
           (mkRunState (mkWorld None [] [] 0) ∅ [])).
  reflexivity.
Defined.

Lemma run_without_changes_only_reads_witness :
  exists evs,
    trace (snd (runProjectSync 10 (localP1 syncStateADT.syncing) None
                  (stateOf worldInSync (localP1 syncStateADT.syncing))))
    = trace (stateOf worldInSync (localP1 syncStateADT.syncing)) ++ evs
    /\ Forall
         (fun ev =>
            ev = ApiRequest GET
                   ("project/"
                      +:+ projectId
                            (projectADT.value (localP1 syncStateADT.syncing))
                      +:+ "/info") payloadEmpty
            \/ exists p readOnly, ev = CreateProjectDir p readOnly)
         evs.
Proof.
  apply (run_without_changes_only_reads 10 (localP1 syncStateADT.syncing) None
           (stateOf worldInSync (localP1 syncStateADT.syncing))).
  intros d st1 Hdetect. vm_compute in Hdetect. injection Hdetect as <- <-.
  vm_compute. split; reflexivity.
Defined.

Lemma run_keeps_other_projects_witness :
  projectRepository.find "p2"
    (store (snd (runProjectSync 10 (projectADT.remote metadataP1) None
                   (mkRunState worldFirstSync ∅ []))))
  = projectRepository.find "p2" (store (mkRunState worldFirstSync ∅ [])).
Proof.
  apply (run_keeps_other_projects 10 (projectADT.remote metadataP1) None
           (mkRunState worldFirstSync ∅ []) "p2"%string).
  discriminate.
Defined.

Section Convergence.
Context {World : Type} `{Host World} `{PathApi}.

(** The committed files are the files of the inventory fetched again, with
    the same paths and versions. *)
Lemma hashed_files_agree (dir : string) (w : World)
  (entries : list RemoteFileInfo) (updatedFiles : list FileInfo) :
  Forall (fun f : RemoteFileInfo => isFile f = true) entries ->
  Forall2 (hashedEntry dir w) entries updatedFiles ->
  files_of updatedFiles = updatedFiles
  /\ map (fun x : FileInfo => (path x, version x)) updatedFiles
     = map (fun y : RemoteFileInfo => (path y, version y)) entries.
Proof.
  intros Hfiles Hall. revert Hfiles.
  induction Hall as [|f fi entries updatedFiles [h [_ ->]] _ IH];
    intros Hfiles.
  - split; reflexivity.
  - inversion Hfiles as [|x xs Hf Hrest]; subst.
    destruct (IH Hrest) as [IHfiles IHmap]. split.
    + unfold files_of in *. simpl.
      change (isFile (mkFileInfo (path f) (version f) h (type f) (permissions f)))
        with (isFile f).
      rewrite Hf, IHfiles. reflexivity.
    + simpl. rewrite IHmap. reflexivity.
Qed.

(** X15.  After a successful run the committed baseline agrees with the
    inventory that was fetched for it: provided the files of that inventory
    have distinct paths, a remote diff of the stored [files] against it is
    [none]. *)
Theorem committed_baseline_has_no_remote_change :
  forall (fuel : nat) (project : Project) (force : option ForceSyncDirection)
    (st st' : RunState World),
    runProjectSync fuel project force st = (Right tt, st') ->
    exists (before refetched : RunState World) (info : ProjectInfo)
      (metadata : ProjectMetadata) (state : ProjectFiles),
      getProjectInfoRemote (projectId (projectADT.value project)) before
      = (Right info, refetched)
      /\ world st' = world refetched /\ trace st' = trace refetched
      /\ projectRepository.find (projectId (projectADT.value project))
           (store st')
         = Some (projectADT.local metadata state)
      /\ (List.NoDup (paths (files_of (info_files info))) ->
          getRemoteChanges (files state) (info_files info) = None).
Proof.
  intros fuel project force st st' Hrun. rewrite run_unfold in Hrun.
  destruct (syncDetect project st) as [[d|e| |] st1] eqn:Hdetect;
    try discriminate.
  destruct (syncApply fuel project force d st1) as [[updatedFiles|e| |] st2]
    eqn:Happly; try discriminate.
  injection Hrun as <-.
  apply syncApply_inv in Happly as [before [info [Hinfo Hall]]].
  exists before, st2, info. eexists _, _. split; [exact Hinfo|].
  split; [reflexivity|]. split; [reflexivity|]. split.
  - unfold projectRepository.find, projectRepository.upsertOne, newProjectState.
    simpl. apply lookup_insert_eq.
  - simpl. intros Hnd.
    assert (Hfiles : Forall (fun f : RemoteFileInfo => isFile f = true)
                       (files_of (info_files info))).
    { apply List.Forall_forall. intros f Hf.
      apply filter_In in Hf as [_ Hf]. exact Hf. }
    destruct (hashed_files_agree _ _ _ _ Hfiles Hall) as [Hsame Hmap].
    apply getRemoteChanges_agree; [|exact Hnd].
    rewrite Hsame. exact Hmap.
Qed.
End Convergence.

Lemma committed_baseline_has_no_remote_change_witness :
  exists (before refetched : RunState World) (info : ProjectInfo)
    (metadata : ProjectMetadata) (state : ProjectFiles),
    getProjectInfoRemote "p1" before = (Right info, refetched)
    /\ world (snd (runProjectSync 10 (projectADT.remote metadataP1) None
                     (mkRunState worldFirstSync ∅ [])))
       = world refetched
    /\ trace (snd (runProjectSync 10 (projectADT.remote metadataP1) None
                     (mkRunState worldFirstSync ∅ [])))
       = trace refetched
    /\ projectRepository.find "p1"
         (store (snd (runProjectSync 10 (projectADT.remote metadataP1) None
                        (mkRunState worldFirstSync ∅ []))))
       = Some (projectADT.local metadata state)
    /\ (List.NoDup (paths (files_of (info_files info))) ->
        getRemoteChanges (files state) (info_files info) = None).
Proof.
  apply (committed_baseline_has_no_remote_change 10
           (projectADT.remote metadataP1) None
           (mkRunState worldFirstSync ∅ [])).
  vm_compute. reflexivity.
Defined.

(** * The order of the directories *)

(** [array.sortBy] is a sort: a permutation, ordered by the key. *)
Section SortFacts.
Context {A : Type} (key : A -> nat).





End SortFacts.




(** * The steps of a run, one by one *)

Section Steps.
Context {World : Type} `{Host World} `{PathApi}.

Lemma traverseSeq_deleteSingeFile (dir : string) (cs : list RemoteFileChange)
  (st : RunState World) :
  exists us,
    traverseSeq (fun c : RemoteFileChange => deleteSingeFile (path c) dir) cs st
    = (Right us,
       mkRunState
         (fold_left (fun w c => removeFile (join [dir; path c]) w) cs (world st))
         (store st)
         (trace st
            ++ map (fun c : RemoteFileChange => RemoveFile (join [dir; path c]))
                 cs)).
Proof.
  revert st. induction cs as [|c cs IH]; intros st; simpl.
  - exists []. unfold ret. rewrite app_nil_r. destruct st; reflexivity.
  - unfold bind at 1. unfold deleteSingeFile at 1. unfold bind at 1. simpl.
    unfold hostTask. simpl. unfold bind at 1.
    edestruct IH as [us Hus]. rewrite Hus. simpl.
    exists (tt :: us). unfold ret. rewrite <- app_assoc. reflexivity.
Qed.

Lemma syncDelete_run (d : Detected)
  (filesToDelete : option (list RemoteFileChange)) (st : RunState World) :
  syncDelete d filesToDelete st
  = (Right tt,
     mkRunState
       (fold_left (fun w c => removeFile (join [projectDir d; path c]) w)
          (changesOf filesToDelete) (world st))
       (store st)
       (trace st ++ map (removesFile (projectDir d)) (changesOf filesToDelete))).
Proof.
  unfold syncDelete. destruct filesToDelete as [cs|]; simpl.
  - unfold bind.
    destruct (traverseSeq_deleteSingeFile (projectDir d) cs st) as [us Hus].
    rewrite Hus. reflexivity.
  - unfold ret. rewrite app_nil_r. destruct st; reflexivity.
Qed.

(** X17.  The delete step cannot fail: it removes the file of every planned
    record once, in the order of the plan, and leaves the repository
    alone. *)
Theorem delete_step_removes_planned (d : Detected)
  (filesToDelete : option (list RemoteFileChange)) (st : RunState World) :
  fst (syncDelete d filesToDelete st) = Right tt
  /\ world (snd (syncDelete d filesToDelete st))
     = fold_left (fun w c => removeFile (join [projectDir d; path c]) w)
         (changesOf filesToDelete) (world st)
  /\ store (snd (syncDelete d filesToDelete st)) = store st
  /\ trace (snd (syncDelete d filesToDelete st))
     = trace st ++ map (removesFile (projectDir d)) (changesOf filesToDelete).
Proof.
  rewrite syncDelete_run. repeat split.
Qed.

(** X18.  When [writeSingeFile] succeeds, the content written is the
    content the server returned for that path, the hash of the returned
    record is the hash of the file after the write, its other fields are the
    arguments, and the events are the project path, the [GET] request and
    the write, read-only exactly for permissions ['r']. *)
Theorem downloaded_file_record (p : string) (id : ProjectId) (dir : string)
  (v : Z) (perm : FilePermissions) (ty : FileEntryType)
  (st st' : RunState World) (f : FileInfo) :
  writeSingeFile p id dir v perm ty st = (Right f, st') ->
  exists content w1 w2,
    createProjectPath dir (world st) = (inr tt, w1)
    /\ serverFile id p w1 = (inr content, w2)
    /\ writeProjectFile (join [dir; p]) content (bool_decide (perm = pR)) w2
       = (inr tt, world st')
    /\ getFileHash (join [dir; p]) (world st') = inr (hash f)
    /\ f = mkFileInfo p v (hash f) ty perm
    /\ store st' = store st
    /\ trace st'
       = trace st
           ++ [CreateProjectPath dir;
               ApiRequest GET ("project/" +:+ id +:+ "/file") (payloadPath p);
               WriteProjectFile (join [dir; p]) content
                 (bool_decide (perm = pR))].
Proof.
  unfold writeSingeFile, apiSigned, bind, emit, hostTask, hostRead,
    orCorrupted, orHttpError, liftOutcome, ret. simpl.
  destruct (createProjectPath dir (world st)) as [[reason|[]] w1] eqn:Hcreate;
    simpl; [discriminate|].
  destruct (serverFile id p w1) as [[[]|content] w2] eqn:Hserved; simpl;
    try discriminate.
  destruct (writeProjectFile (join [dir; p]) content
              (bool_decide (perm = pR)) w2) as [[reason|[]] w3] eqn:Hwrite;
    simpl; [discriminate|].
  destruct (getFileHash (join [dir; p]) w3) as [reason|h] eqn:Hhash; simpl;
    [discriminate|].
  intros Hr. injection Hr as <- <-. simpl.
  exists content, w1, w2. rewrite <- !app_assoc. simpl.
  repeat split; assumption.
Qed.

(** X19.  When [writeSingeFile] fails with a [networkError], the request
    was issued and nothing was written: the events are the project path and
    the [GET] request only. *)
Theorem failed_download_writes_nothing (p : string) (id : ProjectId)
  (dir : string) (v : Z) (perm : FilePermissions) (ty : FileEntryType)
  (st st' : RunState World) (message : string) :
  writeSingeFile p id dir v perm ty st = (Left (networkError message), st') ->
  store st' = store st
  /\ trace st'
     = trace st
         ++ [CreateProjectPath dir;
             ApiRequest GET ("project/" +:+ id +:+ "/file") (payloadPath p)].
Proof.
  unfold writeSingeFile, apiSigned, bind, emit, hostTask, hostRead,
    orCorrupted, orHttpError, liftOutcome, ret. simpl.
  destruct (createProjectPath dir (world st)) as [[reason|[]] w1] eqn:Hcreate;
    simpl; [discriminate|].
  destruct (serverFile id p w1) as [[[]|content] w2] eqn:Hserved; simpl;
    try discriminate.
  1-3: intros Hr; injection Hr as _ <-; simpl; rewrite <- !app_assoc;
    split; reflexivity.
  destruct (writeProjectFile (join [dir; p]) content
              (bool_decide (perm = pR)) w2) as [[reason|[]] w3] eqn:Hwrite;
    simpl; [discriminate|].
  destruct (getFileHash (join [dir; p]) w3) as [reason|h] eqn:Hhash; simpl;
    discriminate.
Qed.

(** The two path lists of [uploadChangedFiles]. *)
Lemma uploadFiles_sentPaths (cs : list LocalFileChange) :
  map (fun c : LocalFileChange => path c)
    (List.filter
       (fun c : LocalFileChange =>
          match lfc_change c with
          | localFileChange.noChange => false
          | localFileChange.added => true
          | localFileChange.removed => false
          | localFileChange.updated => true
          end)
       cs)
  = sentPaths cs.
Proof.
  unfold sentPaths, paths. f_equal. apply filter_ext. intros c.
  unfold isAddedL, isUpdatedL. destruct (lfc_change c); reflexivity.
Qed.

Lemma removeFiles_removedPaths (cs : list LocalFileChange) :
  map (fun c : LocalFileChange => path c)
    (List.filter
       (fun c : LocalFileChange =>
          match lfc_change c with
          | localFileChange.noChange => false
          | localFileChange.added => false
          | localFileChange.removed => true
          | localFileChange.updated => false
          end)
       cs)
  = removedPaths cs.
Proof.
  reflexivity.
Qed.

Lemma uploadChangedFiles_inv (fileName : string) (id : ProjectId)
  (dir : string) (cs : list LocalFileChange) (st st' : RunState World)
  (o : Outcome unit) :
  uploadChangedFiles fileName id dir cs st = (o, st') ->
  o <> Thrown ->
  exists tmp,
    tempDir (world st) = inr tmp
    /\ store st' = store st
    /\ trace st'
       = trace st
           ++ [BuildTar (join [tmp; fileName]) dir (sentPaths cs);
               ApiRequest POST ("project/" +:+ id +:+ "/files")
                 (payloadFiles
                    (match sentPaths cs with
                     | [] => None
                     | _ :: _ =>
                         Some (fst (buildTar (join [tmp; fileName]) dir
                                      (sentPaths cs) (world st)))
                     end)
                    (removedPaths cs))].
Proof.
  unfold uploadChangedFiles.
  rewrite uploadFiles_sentPaths, removeFiles_removedPaths.
  unfold apiSigned, bind, emit, hostTask, hostRead, orThrow, orHttpError,
    liftOutcome, ret. simpl.
  destruct (tempDir (world st)) as [reason|tmp] eqn:Htmp; simpl.
  { intros Hr. injection Hr as <- _. congruence. }
  destruct (buildTar (join [tmp; fileName]) dir (sentPaths cs) (world st))
    as [tarHash w1] eqn:Htar. simpl.
  destruct (sentPaths cs) as [|sent rest] eqn:Hsent; simpl.
  - destruct (serverFiles id (payloadFiles None (removedPaths cs)) "" w1)
      as [[[]|info] w2]; simpl; intros Hr; injection Hr as <- <-;
      try congruence; intros _; exists tmp; simpl; rewrite <- !app_assoc;
      repeat split; reflexivity.
  - destruct (readBinaryFile (join [tmp; fileName]) w1) as [reason|body];
      simpl.
    { intros Hr. injection Hr as <- _. congruence. }
    destruct (serverFiles id
                (payloadFiles (Some tarHash) (removedPaths cs)) body w1)
      as [[[]|info] w2]; simpl; intros Hr; injection Hr as <- <-;
      try congruence; intros _; exists tmp; simpl; rewrite <- !app_assoc;
      rewrite Htar; repeat split; reflexivity.
Qed.

(** X20.  An upload that does not throw builds one archive of the added
    and updated paths and then issues one [POST] request; its payload lists
    the removed paths, and carries the archive hash exactly when there is an
    added or updated path. *)
Theorem upload_sends_one_request (fileName : string) (id : ProjectId)
  (dir : string) (cs : list LocalFileChange) (st st' : RunState World)
  (o : Outcome unit) :
  uploadChangedFiles fileName id dir cs st = (o, st') ->
  o <> Thrown ->
  exists tmp,
    tempDir (world st) = inr tmp
    /\ store st' = store st
    /\ trace st'
       = trace st
           ++ [BuildTar (join [tmp; fileName]) dir (sentPaths cs);
               ApiRequest POST ("project/" +:+ id +:+ "/files")
                 (payloadFiles
                    (match sentPaths cs with
                     | [] => None
                     | _ :: _ =>
                         Some (fst (buildTar (join [tmp; fileName]) dir
                                      (sentPaths cs) (world st)))
                     end)
                    (removedPaths cs))].
Proof.
  exact (uploadChangedFiles_inv fileName id dir cs st st' o).
Qed.

Lemma traverse_updateDir (dir : string) (xs : list RemoteFileInfo)
  (st : RunState World) :
  exists k,
    trace (snd (traverseSeq
                  (fun x : RemoteFileInfo =>
                     updateDir (path x) dir (permissions x)) xs st))
    = trace st ++ map (createsDirectory dir) (firstn k xs)
    /\ forall us st',
         traverseSeq
           (fun x : RemoteFileInfo => updateDir (path x) dir (permissions x))
           xs st = (Right us, st') ->
         firstn k xs = xs.
Proof.
  revert st. induction xs as [|x xs IH]; intros st; simpl.
  - exists O. simpl. rewrite app_nil_r. split; reflexivity.
  - unfold bind at 1. unfold updateDir at 1 3.
    unfold bind, emit, hostTask, orCorrupted, liftOutcome. simpl.
    destruct (createProjectDir (join [dir; path x])
                (bool_decide (permissions x = pR)) (world st))
      as [[reason|[]] w1]; simpl.
    + exists 1%nat. simpl. split; [reflexivity|discriminate].
    + match goal with
      | |- context [traverseSeq _ xs ?s] => destruct (IH s) as [k [Ht Hk]]
      end.
      exists (S k). simpl in *.
      match goal with
      | |- context [traverseSeq ?f xs ?s] =>
          destruct (traverseSeq f xs s) as [[us|e| |] st1] eqn:Hrest
      end; simpl in *; rewrite Ht, <- app_assoc; (split; [reflexivity|]);
        try discriminate.
      intros us' st' _. f_equal. eapply Hk. reflexivity.
Qed.

Lemma writeSingeFile_events (p : string) (id : ProjectId)
  (dir : string) (v : Z) (perm : FilePermissions) (ty : FileEntryType)
  (st : RunState World) :
  exists evs,
    trace (snd (writeSingeFile p id dir v perm ty st)) = trace st ++ evs
    /\ Forall (fun ev => isFileTransfer ev = true) evs
    /\ (forall f, fst (writeSingeFile p id dir v perm ty st) = Right f ->
        length evs = 3%nat).
Proof.
  unfold writeSingeFile, apiSigned, bind, emit, hostTask, hostRead,
    orCorrupted, orHttpError, liftOutcome, ret. simpl.
  destruct (createProjectPath dir (world st)) as [[reason|[]] w1]; simpl.
  { eexists. split; [reflexivity|]. split; [repeat constructor|discriminate]. }
  destruct (serverFile id p w1) as [[[]|content] w2]; simpl;
    rewrite <- ?app_assoc;
    try (eexists; split; [reflexivity|]; split;
         [repeat constructor|discriminate]).
  destruct (writeProjectFile (join [dir; p]) content
              (bool_decide (perm = pR)) w2) as [[reason|[]] w3]; simpl;
    rewrite <- ?app_assoc;
    try (eexists; split; [reflexivity|]; split;
         [repeat constructor|discriminate]).
  destruct (getFileHash (join [dir; p]) w3) as [reason|h]; simpl;
    rewrite <- ?app_assoc;
    eexists; (split; [reflexivity|]); (split; [repeat constructor|]);
    [discriminate|reflexivity].
Qed.

Lemma traverse_writeSingeFile (id : ProjectId) (dir : string)
  (fs : list RemoteFileInfo) (st : RunState World) :
  exists evs,
    trace (snd (traverseSeq
                  (fun f : RemoteFileInfo =>
                     writeSingeFile (path f) id dir (version f)
                       (permissions f) (type f)) fs st))
    = trace st ++ evs
    /\ Forall (fun ev => isFileTransfer ev = true) evs
    /\ (forall fis,
          fst (traverseSeq
                 (fun f : RemoteFileInfo =>
                    writeSingeFile (path f) id dir (version f)
                      (permissions f) (type f)) fs st) = Right fis ->
          length evs = (3 * length fs)%nat).
Proof.
  revert st. induction fs as [|f fs IH]; intros st; simpl.
  - exists []. rewrite app_nil_r.
    split; [reflexivity|]. split; [apply Forall_nil; exact I|reflexivity].
  - unfold bind at 1 3.
    destruct (writeSingeFile_events (path f) id dir (version f)
                (permissions f) (type f) st) as [evs [Ht [Hevs Hlen]]].
    destruct (writeSingeFile (path f) id dir (version f) (permissions f)
                (type f) st) as [[fi|e| |] st1]; simpl in *;
      try (exists evs; split; [assumption|]; split;
           [assumption|discriminate]).
    destruct (IH st1) as [evs' [Ht' [Hevs' Hlen']]].
    exists (evs ++ evs').
    unfold bind.
    destruct (traverseSeq _ fs st1) as [[fis|e| |] st2]; simpl in *;
      rewrite Ht', Ht, app_assoc; (split; [reflexivity|]);
      (split; [apply Forall_app; split; assumption|]); try discriminate.
    intros _ _. rewrite length_app, (Hlen fi eq_refl), (Hlen' fis eq_refl).
    lia.
Qed.

Lemma syncDownload_trace (project : Project) (d : Detected)
  (filesToDownload : option (list RemoteFileInfo)) (st st' : RunState World)
  (o : Outcome unit) :
  syncDownload project d filesToDownload st = (o, st') ->
  exists k rest,
    trace st'
    = trace st
        ++ map (createsDirectory (projectDir d))
             (firstn k (directoriesInOrder (info_files (projectInfoRemote d))))
        ++ rest
    /\ Forall (fun ev => isFileTransfer ev = true) rest
    /\ (rest <> [] \/ o = Right tt ->
        firstn k (directoriesInOrder (info_files (projectInfoRemote d)))
        = directoriesInOrder (info_files (projectInfoRemote d)))
    /\ (o = Right tt ->
        length rest = (3 * length (changesOf filesToDownload))%nat).
Proof.
  unfold syncDownload, directoriesInOrder. unfold bind at 1.
  destruct (traverse_updateDir (projectDir d)
              (array.sortBy (fun dir : RemoteFileInfo => pathDepth (path dir))
                 (getDirToUpdate (info_files (projectInfoRemote d)))) st)
    as [k [Ht Hk]].
  destruct (traverseSeq _ (array.sortBy _ _) st) as [[us|e| |] st1] eqn:Hdirs;
    simpl in *.
  2-4: intros Hr; injection Hr as <- <-; exists k, []; rewrite app_nil_r;
    split; [exact Ht|]; split; [apply Forall_nil; exact I|];
    (split; [|discriminate]);
    intros [Hne|Hr]; [congruence|discriminate].
  destruct filesToDownload as [fs|].
  - destruct (traverse_writeSingeFile (projectId (projectADT.value project))
                (projectDir d) fs st1) as [evs [Ht' [Hevs Hlen]]].
    unfold bind.
    destruct (traverseSeq _ fs st1) as [[fis|e| |] st2]; simpl in *;
      intros Hr; injection Hr as <- <-; exists k, evs;
      rewrite Ht', Ht, <- app_assoc;
      (split; [reflexivity|]); (split; [exact Hevs|]);
      (split; [intros _; eapply Hk; reflexivity|]); try discriminate.
    intros _. eapply Hlen. reflexivity.
  - intros Hr. injection Hr as <- <-. exists k, []. rewrite app_nil_r.
    split; [exact Ht|]. split; [apply Forall_nil; exact I|].
    split; [intros _; eapply Hk; reflexivity|reflexivity].
Qed.


(** A traversal whose steps leave the state alone: the outcome is the
    first one that is not [Right]. *)
Lemma traverseSeq_readonly {A B} (f : A -> M World B) (xs : list A)
  (st : RunState World) :
  (forall x, snd (f x st) = st) ->
  snd (traverseSeq f xs st) = st
  /\ match fst (traverseSeq f xs st) with
     | Right ys => Forall2 (fun x y => fst (f x st) = Right y) xs ys
     | Left e => exists x, In x xs /\ fst (f x st) = Left e
     | Thrown => exists x, In x xs /\ fst (f x st) = Thrown
     | Diverged => exists x, In x xs /\ fst (f x st) = Diverged
     end.
Proof.
  intros Hf. induction xs as [|x xs IH]; simpl.
  - split; [reflexivity|constructor].
  - unfold bind at 1 3. specialize (Hf x) as Hx.
    destruct (f x st) as [[y|e| |] st1] eqn:Hfx; simpl in *; subst st1.
    2-4: split; [reflexivity|]; exists x; rewrite Hfx; split;
      [left; reflexivity|reflexivity].
    unfold bind. destruct IH as [IHs IHo].
    destruct (traverseSeq f xs st) as [[ys|e| |] st2]; simpl in *; subst st2;
      (split; [reflexivity|]).
    + constructor; [rewrite Hfx; reflexivity|exact IHo].
    + destruct IHo as [x' [Hin Hx']]. exists x'. split; [right|]; assumption.
    + destruct IHo as [x' [Hin Hx']]. exists x'. split; [right|]; assumption.
    + destruct IHo as [x' [Hin Hx']]. exists x'. split; [right|]; assumption.
Qed.

Lemma addHash_run (dir p : string) (st : RunState World) :
  addHash dir p st
  = (match getFileHash (join [dir; p]) (world st) with
     | inl _ => Thrown
     | inr h => Right (mkLocalFileState p tFile h)
     end, st).
Proof.
  unfold addHash, bind, hostRead, orThrow, liftOutcome. simpl.
  destruct (getFileHash (join [dir; p]) (world st)); reflexivity.
Qed.

Lemma getProjectFilesLocal_inv (dir : string) (st st' : RunState World)
  (o : Outcome (list string)) :
  getProjectFilesLocal dir st = (o, st') ->
  st' = st
  /\ match o with
     | Right rel =>
         exists nodes,
           readDirTree dir (world st) = inr nodes
           /\ Forall2
                (fun (node : FsNode) (p : string) =>
                   stripAncestor dir (path node) = inr p)
                (List.filter isFile (List.filter isVisibleFile nodes)) rel
     | Left e => exists reason, e = fileSystemCorrupted dir reason
     | Thrown => False
     | Diverged => False
     end.
Proof.
  unfold getProjectFilesLocal. unfold bind at 1. unfold hostRead. simpl.
  unfold bind at 1. unfold orCorrupted at 1. unfold liftOutcome.
  destruct (readDirTree dir (world st)) as [reason|nodes] eqn:Htree.
  { intros Hr. injection Hr as <- <-. split; [reflexivity|].
    exists reason. reflexivity. }
  set (fileNodes := List.filter isFile (List.filter isVisibleFile nodes)).
  set (strip := fun node : FsNode =>
                  orCorrupted dir (stripAncestor dir (path node))).
  destruct (traverseSeq_readonly strip fileNodes st) as [Hs Ho].
  { intros x. reflexivity. }
  intros Hr. rewrite Hr in Hs, Ho. simpl in Hs, Ho. split; [exact Hs|].
  assert (Hstrip : forall node,
             fst (strip node st)
             = match stripAncestor dir (path node) with
               | inl reason => Left (fileSystemCorrupted dir reason)
               | inr p => Right p
               end) by reflexivity.
  destruct o as [rel|e| |].
  - exists nodes. split; [reflexivity|].
    eapply Forall2_impl; [exact Ho|]. intros node p Hnode.
    cbv beta in Hnode; rewrite ?Hstrip in Hnode.
    destruct (stripAncestor dir (path node)); [discriminate|].
    injection Hnode as ->. reflexivity.
  - destruct Ho as [node [_ Hnode]]. cbv beta in Hnode; rewrite ?Hstrip in Hnode.
    destruct (stripAncestor dir (path node)) as [r|q]; [|discriminate].
    injection Hnode as <-. exists r. reflexivity.
  - destruct Ho as [node [_ Hnode]]. cbv beta in Hnode; rewrite ?Hstrip in Hnode.
    destruct (stripAncestor dir (path node)); discriminate.
  - destruct Ho as [node [_ Hnode]]. cbv beta in Hnode; rewrite ?Hstrip in Hnode.
    destruct (stripAncestor dir (path node)); discriminate.
Qed.

Lemma getProjectInfoLocal_inv (dir : string) (st st' : RunState World)
  (o : Outcome (list LocalFileState)) :
  getProjectInfoLocal dir st = (o, st') ->
  st' = st
  /\ match o with
     | Right scan =>
         exists nodes,
           readDirTree dir (world st) = inr nodes
           /\ Forall2
                (fun (node : FsNode) (entry : LocalFileState) =>
                   stripAncestor dir (path node) = inr (path entry)
                   /\ type entry = tFile
                   /\ getFileHash (join [dir; path entry]) (world st)
                      = inr (hash entry))
                (List.filter isFile (List.filter isVisibleFile nodes)) scan
     | Left e => exists reason, e = fileSystemCorrupted dir reason
     | Thrown =>
         exists p reason, getFileHash (join [dir; p]) (world st) = inl reason
     | Diverged => False
     end.
Proof.
  unfold getProjectInfoLocal. unfold bind.
  destruct (getProjectFilesLocal dir st) as [o1 st1] eqn:Hfiles.
  apply getProjectFilesLocal_inv in Hfiles. destruct Hfiles as [-> Hfiles].
  destruct o1 as [rel|e| |]; try contradiction.
  2: { intros Hr. injection Hr as <- <-. split; [reflexivity|exact Hfiles]. }
  destruct Hfiles as [nodes [Htree Hrel]].
  destruct (traverseSeq_readonly (addHash dir) rel st) as [Hs Ho].
  { intros p. rewrite addHash_run. reflexivity. }
  intros Hr. rewrite Hr in Hs, Ho. simpl in Hs, Ho. split; [exact Hs|].
  destruct o as [scan|e| |].
  - exists nodes. split; [exact Htree|].
    clear Hr. revert scan Ho.
    induction Hrel as [|node p fileNodes rel Hnode Hrest IH];
      intros scan Ho; inversion Ho as [|? entry ? scan' Hentry Hscan];
      subst; constructor.
    + cbv beta in Hentry; rewrite ?addHash_run in Hentry. simpl in Hentry.
      destruct (getFileHash (join [dir; p]) (world st)) as [r|h] eqn:Hh;
        [discriminate|].
      injection Hentry as <-. split; [exact Hnode|].
      split; [reflexivity|exact Hh].
    + apply IH. exact Hscan.
  - destruct Ho as [p [_ Hp]]. rewrite ?addHash_run in Hp. simpl in Hp.
    destruct (getFileHash (join [dir; p]) (world st)); discriminate.
  - destruct Ho as [p [_ Hp]]. rewrite ?addHash_run in Hp. simpl in Hp.
    destruct (getFileHash (join [dir; p]) (world st)) as [r|h] eqn:Hh;
      [|discriminate].
    exists p, r. exact Hh.
  - destruct Ho as [p [_ Hp]]. rewrite ?addHash_run in Hp. simpl in Hp.
    destruct (getFileHash (join [dir; p]) (world st)); discriminate.
Qed.

(** X22.  The local scan [getProjectInfoLocal] changes nothing.  On success
    it returns one entry of type ['file'] for every visible file node of the
    directory tree, in order, with the path relative to the project
    directory and the hash of the file; it fails only with
    [fileSystemCorrupted] for the project directory, and throws only when a
    file cannot be hashed. *)
Theorem local_scan_only_reads (dir : string) (st : RunState World) :
  snd (getProjectInfoLocal dir st) = st
  /\ match fst (getProjectInfoLocal dir st) with
     | Right scan =>
         exists nodes,
           readDirTree dir (world st) = inr nodes
           /\ Forall2
                (fun (node : FsNode) (entry : LocalFileState) =>
                   stripAncestor dir (path node) = inr (path entry)
                   /\ type entry = tFile
                   /\ getFileHash (join [dir; path entry]) (world st)
                      = inr (hash entry))
                (List.filter isFile (List.filter isVisibleFile nodes)) scan
     | Left e => exists reason, e = fileSystemCorrupted dir reason
     | Thrown =>
         exists p reason, getFileHash (join [dir; p]) (world st) = inl reason
     | Diverged => False
     end.
Proof.
  destruct (getProjectInfoLocal dir st) as [o st'] eqn:Hscan.
  exact (getProjectInfoLocal_inv dir st st' o Hscan).
Qed.

(** ** The events of a successful run *)

Lemma getProjectInfoRemote_trace (id : ProjectId) (st : RunState World) :
  trace (snd (getProjectInfoRemote id st)) = trace st ++ [infoRequest id].
Proof.
  unfold getProjectInfoRemote, apiSigned, bind, emit, hostTask, orHttpError,
    liftOutcome. simpl.
  destruct (serverInfo id (world st)) as [[[]|info] w1]; reflexivity.
Qed.

Lemma syncDetect_trace (project : Project) (st st1 : RunState World)
  (d : Detected) :
  syncDetect project st = (Right d, st1) ->
  trace st1
  = trace st ++ [infoRequest (projectId (projectADT.value project))].
Proof.
  unfold syncDetect. intros Hrun.
  apply bind_inv_Right in Hrun as [setting [sa [Hsetting Hrun]]].
  apply bind_inv_Right in Hrun as [rootDir [sb [Hroot Hrun]]].
  apply bind_inv_Right in Hrun as [info [sc [Hinfo Hrun]]].
  apply bind_inv_Right in Hrun as [local [sd [Hlocal Hrun]]].
  unfold ret in Hrun. injection Hrun as _ <-.
  unfold hostRead in Hsetting. injection Hsetting as _ <-.
  unfold liftOutcome in Hroot. injection Hroot as _ <-.
  pose proof (getProjectInfoRemote_trace
                (projectId (projectADT.value project)) st) as Ht.
  rewrite Hinfo in Ht. simpl in Ht. rewrite <- Ht.
  destruct (projectPrism.local_getOption project) as [state|]; simpl in Hlocal.
  - apply bind_inv_Right in Hlocal as [scan [se [Hscan Hlocal]]].
    unfold ret in Hlocal. injection Hlocal as _ <-.
    apply getProjectInfoLocal_inv in Hscan as [-> _]. reflexivity.
  - unfold ret in Hlocal. injection Hlocal as _ <-. reflexivity.
Qed.

Lemma syncUpload_Right (project : Project) (d : Detected)
  (filesToUpload : option (list LocalFileChange)) (st st' : RunState World)
  (u : unit) :
  syncUpload project d filesToUpload st = (Right u, st') ->
  exists ups,
    trace st' = trace st ++ ups
    /\ Forall (fun ev => isUploadEvent ev = true) ups
    /\ length ups
       = match filesToUpload with None => 0%nat | Some _ => 2%nat end.
Proof.
  unfold syncUpload. destruct filesToUpload as [cs|].
  - intros Hrun. apply bind_inv_Right in Hrun as [time [sa [Htime Hrun]]].
    unfold hostRead in Htime. injection Htime as _ <-.
    apply uploadChangedFiles_inv in Hrun; [|discriminate].
    destruct Hrun as [tmp [_ [_ Ht]]]. eexists. split; [exact Ht|].
    split; [|reflexivity]. repeat constructor.
  - unfold ret. intros Hrun. injection Hrun as _ <-. exists [].
    rewrite app_nil_r. split; [reflexivity|].
    split; [apply Forall_nil; exact I|reflexivity].
Qed.

Lemma syncUpdatedProjectInfo_Right (project : Project) (d : Detected)
  (st st' : RunState World) (updatedFiles : list FileInfo) :
  syncUpdatedProjectInfo project d st = (Right updatedFiles, st') ->
  trace st'
  = trace st ++ [infoRequest (projectId (projectADT.value project))].
Proof.
  unfold syncUpdatedProjectInfo. intros Hrun.
  apply bind_inv_Right in Hrun as [info [sa [Hinfo Hrun]]].
  apply rehash_inv in Hrun as [-> _].
  pose proof (getProjectInfoRemote_trace
                (projectId (projectADT.value project)) st) as Ht.
  rewrite Hinfo in Ht. exact Ht.
Qed.

Lemma planned_upload_Right (fuel : nat) (inventory : list RemoteFileInfo)
  (localChanges filesToUpload : option (list LocalFileChange))
  (st st' : RunState World) :
  traverseOpt
    (fun changes => liftOutcome (getFilesToUpload fuel changes inventory))
    localChanges st = (Right filesToUpload, st') ->
  st' = st
  /\ match localChanges with
     | None => filesToUpload = None
     | Some _ => filesToUpload <> None
     end.
Proof.
  destruct localChanges as [cs|]; simpl.
  - unfold bind, liftOutcome, ret.
    destruct (getFilesToUpload fuel cs inventory); try discriminate.
    intros Hr. injection Hr as <- <-. split; [reflexivity|discriminate].
  - unfold ret. intros Hr. injection Hr as <- <-. split; reflexivity.
Qed.

(** X23.  The events of a successful run come in phases: the inventory
    request, the upload (two events when there are local changes, none
    otherwise), the directories, three events for every file to download,
    the removal of every file to delete, and the inventory request
    again. *)
Theorem successful_run_phases (fuel : nat) (project : Project)
  (force : option ForceSyncDirection) (st st' : RunState World) :
  runProjectSync fuel project force st = (Right tt, st') ->
  exists d ups downs,
    fst (syncDetect project st) = Right d
    /\ trace st'
       = trace st
           ++ [infoRequest (projectId (projectADT.value project))]
           ++ ups
           ++ map (createsDirectory (projectDir d))
                (directoriesInOrder (info_files (projectInfoRemote d)))
           ++ downs
           ++ map (removesFile (projectDir d))
                (changesOf
                   (option_map getFilesToDelete (remoteChangesOf force d)))
           ++ [infoRequest (projectId (projectADT.value project))]
    /\ Forall (fun ev => isUploadEvent ev = true) ups
    /\ length ups
       = match localChangesOf force d with None => 0%nat | Some _ => 2%nat end
    /\ Forall (fun ev => isFileTransfer ev = true) downs
    /\ length downs
       = (3 * length
                (changesOf
                   (option_map
                      (getFilesToDownload (info_files (projectInfoRemote d)))
                      (remoteChangesOf force d))))%nat.
Proof.
  intros Hrun. rewrite run_unfold in Hrun.
  destruct (syncDetect project st) as [[d|e| |] st1] eqn:Hdetect;
    try discriminate.
  destruct (syncApply fuel project force d st1) as [[files|e| |] st2]
    eqn:Happly; try discriminate.
  injection Hrun as <-. simpl.
  apply syncDetect_trace in Hdetect.
  unfold syncApply, syncReconcile in Happly.
  apply bind_inv_Right in Happly as [u0 [s0 [Hcheck Happly]]].
  unfold liftOutcome in Hcheck. injection Hcheck as _ <-.
  apply bind_inv_Right in Happly as [filesToUpload [s1 [Hplan Happly]]].
  apply planned_upload_Right in Hplan as [-> Hplan].
  apply bind_inv_Right in Happly as [u2 [s2 [Hup Happly]]].
  apply bind_inv_Right in Happly as [u3 [s3 [Hdown Happly]]].
  apply bind_inv_Right in Happly as [u4 [s4 [Hdel Happly]]].
  apply syncUpload_Right in Hup as [ups [Hups [Hupev Huplen]]].
  destruct u3.
  apply syncDownload_trace in Hdown
    as [k [downs [Hdowns [Hdownev [Hk Hdownlen]]]]].
  rewrite (Hk (or_intror eq_refl)) in Hdowns.
  rewrite syncDelete_run in Hdel. injection Hdel as _ <-.
  apply syncUpdatedProjectInfo_Right in Happly. simpl in Happly.
  exists d, ups, downs. split; [reflexivity|].
  split.
  { rewrite Happly, Hdowns, Hups, Hdetect. rewrite <- !app_assoc.
    reflexivity. }
  split; [exact Hupev|]. split.
  { rewrite Huplen. destruct (localChangesOf force d); [|rewrite Hplan];
      [destruct filesToUpload; [reflexivity|contradiction]|reflexivity]. }
  split; [exact Hdownev|]. apply Hdownlen. reflexivity.
Qed.

Lemma Forall2_In_l {A B} (R : A -> B -> Prop) (xs : list A) (ys : list B)
  (x : A) :
  Forall2 R xs ys -> In x xs -> exists y, R x y.
Proof.
  induction 1 as [|a b xs ys Hab _ IH]; intros Hin; [contradiction|].
  destruct Hin as [<-|Hin]; [exists b; exact Hab|exact (IH Hin)].
Qed.

Lemma rehash_run (dir : string) (f : RemoteFileInfo) (st : RunState World) :
  (let* hashed := addHash dir (path f) in
   ret (mkFileInfo (path f) (version f) (hash hashed) (type f)
          (permissions f))) st
  = (match getFileHash (join [dir; path f]) (world st) with
     | inl _ => Thrown
     | inr h => Right (mkFileInfo (path f) (version f) h (type f)
                         (permissions f))
     end, st).
Proof.
  unfold bind. rewrite addHash_run.
  destruct (getFileHash (join [dir; path f]) (world st)); reflexivity.
Qed.

(** X24.  While the project metadata is updated, a file of the inventory
    fetched again whose hash cannot be computed makes the step throw, not
    fail with a [SyncException]: the request has been issued and the
    repository is as before. *)
Theorem refresh_throws_on_missing_file (project : Project) (d : Detected)
  (st : RunState World) (info : ProjectInfo) (w1 : World)
  (f : RemoteFileInfo) (reason : string) :
  serverInfo (projectId (projectADT.value project)) (world st)
  = (inr info, w1) ->
  In f (files_of (info_files info)) ->
  getFileHash (join [projectDir d; path f]) w1 = inl reason ->
  syncUpdatedProjectInfo project d st
  = (Thrown,
     mkRunState w1 (store st)
       (trace st ++ [infoRequest (projectId (projectADT.value project))])).
Proof.
  intros Hinfo Hin Hhash.
  unfold syncUpdatedProjectInfo. unfold bind at 1.
  unfold getProjectInfoRemote, apiSigned, bind at 1 2, emit, hostTask,
    orHttpError, liftOutcome. simpl. rewrite Hinfo. simpl.
  fold (infoRequest (projectId (projectADT.value project))).
  fold (files_of (info_files info)).
  set (st1 := mkRunState w1 (store st)
                (trace st ++ [infoRequest (projectId (projectADT.value project))])).
  set (rehash := fun f0 : RemoteFileInfo =>
                   let* hashed := addHash (projectDir d) (path f0) in
                   ret (mkFileInfo (path f0) (version f0) (hash hashed)
                          (type f0) (permissions f0))).
  destruct (traverseSeq_readonly rehash (files_of (info_files info)) st1)
    as [Hs Ho].
  { intros x. unfold rehash. rewrite rehash_run. reflexivity. }
  assert (Hre : forall x, fst (rehash x st1)
                          = match getFileHash (join [projectDir d; path x]) w1 with
                            | inl _ => Thrown
                            | inr h => Right (mkFileInfo (path x) (version x) h
                                                (type x) (permissions x))
                            end).
  { intros x. unfold rehash. rewrite rehash_run. reflexivity. }
  destruct (traverseSeq rehash (files_of (info_files info)) st1)
    as [[files|e| |] st2]; simpl in Hs, Ho; subst st2.
  - exfalso. destruct (Forall2_In_l _ _ _ f Ho Hin) as [fi Hfi].
    cbv beta in Hfi. rewrite ?Hre, Hhash in Hfi. discriminate.
  - exfalso. destruct Ho as [x [_ Hx]]. rewrite Hre in Hx.
    destruct (getFileHash (join [projectDir d; path x]) w1); discriminate.
  - reflexivity.
  - exfalso. destruct Ho as [x [_ Hx]]. rewrite Hre in Hx.
    destruct (getFileHash (join [projectDir d; path x]) w1); discriminate.
Qed.

End Steps.


(** ** The steps on the in-memory host *)

Lemma downloaded_file_record_witness :
  exists content w1 w2,
    createProjectPath "/home/user/projects/t1" worldFirstSync = (inr tt, w1)
    /\ serverFile "p1" "lib/util.c" w1 = (inr content, w2)
    /\ writeProjectFile (join ["/home/user/projects/t1"; "lib/util.c"])
         content (bool_decide (pR = pR)) w2
       = (inr tt,
          world (snd (writeSingeFile "lib/util.c" "p1" "/home/user/projects/t1"
                        3 pR tFile (mkRunState worldFirstSync ∅ []))))
    /\ getFileHash (join ["/home/user/projects/t1"; "lib/util.c"])
         (world (snd (writeSingeFile "lib/util.c" "p1"
                        "/home/user/projects/t1" 3 pR tFile
                        (mkRunState worldFirstSync ∅ []))))
       = inr (hash (mkFileInfo "lib/util.c" 3 "sha:int x;" tFile pR))
    /\ mkFileInfo "lib/util.c" 3 "sha:int x;" tFile pR
       = mkFileInfo "lib/util.c" 3
           (hash (mkFileInfo "lib/util.c" 3 "sha:int x;" tFile pR)) tFile pR
    /\ store (snd (writeSingeFile "lib/util.c" "p1" "/home/user/projects/t1"
                     3 pR tFile (mkRunState worldFirstSync ∅ [])))
       = store (mkRunState worldFirstSync ∅ [])
    /\ trace (snd (writeSingeFile "lib/util.c" "p1" "/home/user/projects/t1"
                     3 pR tFile (mkRunState worldFirstSync ∅ [])))
       = trace (mkRunState worldFirstSync ∅ [])
           ++ [CreateProjectPath "/home/user/projects/t1";
               ApiRequest GET ("project/" +:+ "p1" +:+ "/file")
                 (payloadPath "lib/util.c");
               WriteProjectFile
                 (join ["/home/user/projects/t1"; "lib/util.c"]) content
                 (bool_decide (pR = pR))].
Proof.
  apply (downloaded_file_record "lib/util.c" "p1" "/home/user/projects/t1"
           3 pR tFile (mkRunState worldFirstSync ∅ [])).
  vm_compute. reflexivity.
Defined.

Lemma failed_download_writes_nothing_witness :
  store (snd (writeSingeFile "missing.txt" "p1" "/home/user/projects/t1" 1
                pRW tFile (mkRunState worldFirstSync ∅ [])))
  = store (mkRunState worldFirstSync ∅ [])
  /\ trace (snd (writeSingeFile "missing.txt" "p1" "/home/user/projects/t1" 1
                   pRW tFile (mkRunState worldFirstSync ∅ [])))
     = trace (mkRunState worldFirstSync ∅ [])
         ++ [CreateProjectPath "/home/user/projects/t1";
             ApiRequest GET ("project/" +:+ "p1" +:+ "/file")
               (payloadPath "missing.txt")].
Proof.
  apply (failed_download_writes_nothing "missing.txt" "p1"
           "/home/user/projects/t1" 1 pRW tFile
           (mkRunState worldFirstSync ∅ []) _ "Not found").
  vm_compute. reflexivity.
Defined.

Lemma upload_sends_one_request_witness :
  exists tmp,
    tempDir (world (mkRunState worldReadmeEdited ∅ [])) = inr tmp
    /\ store (snd (uploadChangedFiles "project_p1_100.tar.br" "p1"
                     "/home/user/projects/t1" editedAndAdded
                     (mkRunState worldReadmeEdited ∅ [])))
       = store (mkRunState worldReadmeEdited ∅ [])
    /\ trace (snd (uploadChangedFiles "project_p1_100.tar.br" "p1"
                     "/home/user/projects/t1" editedAndAdded
                     (mkRunState worldReadmeEdited ∅ [])))
       = trace (mkRunState worldReadmeEdited ∅ [])
           ++ [BuildTar (join [tmp; "project_p1_100.tar.br"])
                 "/home/user/projects/t1" (sentPaths editedAndAdded);
               ApiRequest POST ("project/" +:+ "p1" +:+ "/files")
                 (payloadFiles
                    (match sentPaths editedAndAdded with
                     | [] => None
                     | _ :: _ =>
                         Some (fst (buildTar
                                      (join [tmp; "project_p1_100.tar.br"])
                                      "/home/user/projects/t1"
                                      (sentPaths editedAndAdded)
                                      (world (mkRunState worldReadmeEdited ∅ []))))
                     end)
                    (removedPaths editedAndAdded))].
Proof.
  apply (upload_sends_one_request "project_p1_100.tar.br" "p1"
           "/home/user/projects/t1" editedAndAdded
           (mkRunState worldReadmeEdited ∅ []) _ (Right tt)).
  - vm_compute. reflexivity.
  - discriminate.
Defined.

Lemma refresh_throws_on_missing_file_witness :
  syncUpdatedProjectInfo (projectADT.remote metadataP1)
    (mkDetected "t1" "/home/user/projects/t1" None (mkProjectInfo "p1" []) None)
    (mkRunState worldFirstSync ∅ [])
  = (Thrown, mkRunState worldFirstSync ∅ [infoRequest "p1"]).
Proof.
  apply (refresh_throws_on_missing_file (projectADT.remote metadataP1)
           (mkDetected "t1" "/home/user/projects/t1" None
              (mkProjectInfo "p1" []) None)
           (mkRunState worldFirstSync ∅ [])
           (mkProjectInfo "p1" (inventory worldFirstSync)) worldFirstSync
           (mkRemoteFileInfo "a.txt" 1 tFile pRW) "No such file").
  - reflexivity.
  - vm_compute. left. reflexivity.
  - reflexivity.
Defined.

Lemma successful_run_phases_witness :
  exists d ups downs,
    fst (syncDetect (projectADT.remote metadataP1)
           (mkRunState worldFirstSync ∅ [])) = Right d
    /\ trace (snd (runProjectSync 10 (projectADT.remote metadataP1) None
                     (mkRunState worldFirstSync ∅ [])))
       = trace (mkRunState worldFirstSync ∅ [])
           ++ [infoRequest
                 (projectId (projectADT.value (projectADT.remote metadataP1)))]
           ++ ups
           ++ map (createsDirectory (projectDir d))
                (directoriesInOrder (info_files (projectInfoRemote d)))
           ++ downs
           ++ map (removesFile (projectDir d))
                (changesOf
                   (option_map getFilesToDelete (remoteChangesOf None d)))
           ++ [infoRequest
                 (projectId (projectADT.value (projectADT.remote metadataP1)))]
    /\ Forall (fun ev => isUploadEvent ev = true) ups
    /\ length ups
       = match localChangesOf None d with None => 0%nat | Some _ => 2%nat end
    /\ Forall (fun ev => isFileTransfer ev = true) downs
    /\ length downs
       = (3 * length
                (changesOf
                   (option_map
                      (getFilesToDownload (info_files (projectInfoRemote d)))
                      (remoteChangesOf None d))))%nat.
Proof.
  apply (successful_run_phases 10 (projectADT.remote metadataP1) None
           (mkRunState worldFirstSync ∅ [])).
  vm_compute. reflexivity.
Defined.
